(** * SAFECode run-time checks: a shallow embedding and its properties

    The development follows the pool allocator run-time
    (PoolAllocatorBitMask.cpp: slabs, poolregister, poolcheck, boundscheck,
    pchk_getActualValue, poolrealloc, funccheck) and the baggy bounds
    run-time (BaggyBoundsCheck.cpp: __sc_bb_src_poolalloc,
    __internal_register, __sc_bb_poolrealloc).

    Part I holds the definitions, Part II the lemmas. *)

From stdpp Require Import gmap list.
From Stdlib Require Import ZArith Lia.

Local Open Scope Z_scope.

(** ** Part I. Definitions *)

(** *** Machine arithmetic

    The pool run-time casts every pointer to [unsigned]: addresses and
    lengths are 32-bit words.  Arithmetic on them wraps. *)

Module Machine.

Definition u32 (x : Z) : Z := x mod 2 ^ 32.

Definition u16 (x : Z) : Z := x mod 2 ^ 16.

(** [~x] on a 32-bit unsigned operand. *)
Definition not32 (x : Z) : Z := u32 (Z.lnot x).

(** [(char * ) p + n], the address arithmetic of the checks. *)
Definition ptr_add (p n : Z) : Z := u32 (p + n).

Definition is_ptr (p : Z) : Prop := 0 <= p < 2 ^ 32.

End Machine.

(** *** The interval index (adl_splay.h) *)

Module Splay.

(** Modelled from the spec: the splay library behind adl_splay.h is not part
    of the sources.  Section 4.B describes it as an index keyed by the
    half-open interval [start, start+len) with an opaque tag, with
    insert(start, len, tag), delete(start) and a retrieve that locates the
    interval containing the key and reports its start, its length and its
    tag.  The shape of the tree is not observable through these operations,
    so the index is kept as the list of its records. *)
Record node : Type := Node { key : Z; len : Z; tag : Z }.

Definition tree : Type := list node.

Definition covers (n : node) (k : Z) : bool :=
  (key n <=? k) && (k <? key n + len n).

(** Modelled from the spec: retrieve locates the interval containing [k]. *)
Definition adl_splay_retrieve (t : tree) (k : Z) : option node :=
  List.find (fun n => covers n k) t.

(** Modelled from the spec: insert(start, len, tag) adds the record. *)
Definition adl_splay_insert (t : tree) (k l tg : Z) : tree :=
  Node k l tg :: t.

(** Modelled from the spec: delete(start) removes the record starting at
    [k]. *)
Definition adl_splay_delete (t : tree) (k : Z) : tree :=
  List.filter (fun n => negb (key n =? k)) t.

(** No record of the index contains [k]. *)
Definition uncovered (t : tree) (k : Z) : Prop :=
  Forall (fun n => covers n k = false) t.

(** Some record of the index contains [k]. *)
Definition inside (t : tree) (k : Z) : Prop :=
  Exists (fun n => covers n k = true) t.

(** No address lies in two records of the index, the invariant the spec
    puts on it. *)
Definition no_overlap (t : tree) : Prop :=
  forall (m n : node) (k : Z),
  In m t -> In n t -> covers m k = true -> covers n k = true -> m = n.

(** The records of an index stay inside the 32-bit address space, the
    one-past-the-end address included. *)
Definition fits (n : node) : Prop := 0 <= key n /\ 0 <= len n /\ key n + len n < 2 ^ 32.

End Splay.

(** *** The pool run-time state *)

Module Pool.

Import Machine Splay.

(** The fields of [PoolTy] that the checks read or write; the slab lists
    are the subject of module [Slab]. *)
Record PoolTy : Type := mkPool {
  NodeSize : Z;
  Objects : tree;
  OOB : tree;
  DPTree : tree
}.

(** What the run-time prints on stderr, one constructor per format string. *)
Inductive message : Type :=
| PoolregisterLog (allocaptr NumBytes : Z)
| PoolunregisterLog (allocaptr : Z)
| PoolcheckFailed (Pool fs Node len : Z)
| PoolcheckUIFailed (Pool fs Node len : Z)
| BoundscheckRewriteLog (Sp Source Dest len : Z)
| BoundscheckOutOfRewritePtrs (Source Dest : Z)
| BoundscheckuiOutOfRewritePtrs (Source Dest : Z)
| BoundscheckOutOfObject (Pool fs Source Dest len : Z)
| BoundscheckNoObject (Pool fs Source Dest len : Z)
| BoundscheckuiOutOfObject (Pool fs Source Dest len : Z)
| GetActualValueFailure (src : Z)
| FunccheckFailed (num f g : Z).

(** The globals of the run-time: the pool descriptors the handles point to,
    the splay of external objects, the rewrite cursor [invalidptr], the
    option [RemapObjects] that pool_init_runtime sets, and stderr.  The pool
    run-time has no terminate option: pool_init_runtime takes [Dangling]
    only. *)
Record Runtime : Type := mkRuntime {
  pools : gmap Z PoolTy;
  ExternalObjects : tree;
  invalidptr : Z;
  RemapObjects : Z;
  stderr : list message
}.

(** How a call ends: it returns, it calls abort(), or its behaviour is
    undefined (a handle that points to no pool descriptor is dereferenced,
    va_arg reads past the arguments that were passed). *)
Inductive outcome (A : Type) : Type :=
| Returns (v : A) (st : Runtime)
| Aborts (st : Runtime)
| Faults.

Arguments Returns {A} v st.
Arguments Aborts {A} st.
Arguments Faults {A}.

Definition fprintf (m : message) (st : Runtime) : Runtime :=
  mkRuntime (pools st) (ExternalObjects st) (invalidptr st)
            (RemapObjects st) (stderr st ++ [m]).

Definition set_pool (Pool : Z) (D : PoolTy) (st : Runtime) : Runtime :=
  mkRuntime (<[Pool := D]> (pools st)) (ExternalObjects st) (invalidptr st)
            (RemapObjects st) (stderr st).

Definition set_invalidptr (p : Z) (st : Runtime) : Runtime :=
  mkRuntime (pools st) (ExternalObjects st) p
            (RemapObjects st) (stderr st).

Definition set_Objects (t : tree) (D : PoolTy) : PoolTy :=
  mkPool (NodeSize D) t (OOB D) (DPTree D).

Definition set_OOB (t : tree) (D : PoolTy) : PoolTy :=
  mkPool (NodeSize D) (Objects D) t (DPTree D).

(** [static unsigned logregs = 0]: nothing assigns it. *)
Definition logregs : Z := 0.

Definition log_regs (m : message) (st : Runtime) : Runtime :=
  if logregs =? 0 then st else fprintf m st.

(** The out-parameters of [adl_splay_retrieve (&tree, &S, &len, 0)]: the
    found flag, and [S] and [len] as they stand after the call. *)
Definition retrieve_out (t : tree) (S0 len0 : Z) : Z * Z * Z :=
  match adl_splay_retrieve t S0 with
  | Some n => (1, key n, len n)
  | None => (0, S0, len0)
  end.

(** The test shared by the checks:
    [(fs) && (S <= Node) && (((char* )S + len) > (char* )Node)]. *)
Definition in_bounds (fs Sp len Node : Z) : bool :=
  negb (fs =? 0) && (Sp <=? Node) && (ptr_add Sp len >? Node).

Definition poolregister (Pool allocaptr NumBytes : Z) (st : Runtime)
  : outcome unit :=
  if Pool =? 0 then Returns tt st
  else match pools st !! Pool with
       | None => Faults
       | Some D =>
         let D' := set_Objects (adl_splay_insert (Objects D) allocaptr NumBytes 0) D in
         Returns tt (log_regs (PoolregisterLog allocaptr NumBytes) (set_pool Pool D' st))
       end.

Definition poolunregister (Pool allocaptr : Z) (st : Runtime) : outcome unit :=
  if Pool =? 0 then Returns tt st
  else match pools st !! Pool with
       | None => Faults
       | Some D =>
         let D' := set_Objects (adl_splay_delete (Objects D) allocaptr) D in
         Returns tt (log_regs (PoolunregisterLog allocaptr) (set_pool Pool D' st))
       end.

Definition poolcheck (Pool Node : Z) (st : Runtime) : outcome unit :=
  if Pool =? 0 then Returns tt st
  else match pools st !! Pool with
       | None => Faults
       | Some D =>
         let '(fs, Sp, len) := retrieve_out (Objects D) Node 0 in
         if in_bounds fs Sp len Node then Returns tt st
         else Aborts (fprintf (PoolcheckFailed Pool fs Node len) st)
       end.

Definition poolcheckui (Pool Node : Z) (st : Runtime) : outcome unit :=
  if Pool =? 0 then Returns tt st
  else match pools st !! Pool with
       | None => Faults
       | Some D =>
         let '(fs, Sp, len) := retrieve_out (Objects D) Node 0 in
         if in_bounds fs Sp len Node then Returns tt st
         else
           let '(fs, Sp, len) := retrieve_out (ExternalObjects st) Node 0 in
           if in_bounds fs Sp len Node then Returns tt st
           else Returns tt (fprintf (PoolcheckUIFailed Pool fs Node len) st)
       end.

(** **** Out-of-bounds rewriting

    [InvalidLower] and [InvalidUpper] come from a header that is not part
    of the sources; they stay parameters. *)

Section RewriteRegion.

Variables InvalidLower InvalidUpper : Z.

(** [if (invalidptr == 0) invalidptr = InvalidLower; ++invalidptr;] *)
Definition next_invalidptr (st : Runtime) : Z :=
  ptr_add (if invalidptr st =? 0 then InvalidLower else invalidptr st) 1.

(** The cursor is still unset, or it has started at [InvalidLower] and has
    not come to the last address of the 32-bit space. *)
Definition cursor_ok (st : Runtime) : Prop :=
  invalidptr st = 0 \/ InvalidLower <= invalidptr st < 2 ^ 32 - 1.

(** [(unsigned)P & ~(InvalidUpper - 1)], read as a truth value. *)
Definition out_of_rewrite_ptrs (P : Z) : bool :=
  negb (Z.land P (not32 (u32 (InvalidUpper - 1))) =? 0).

Definition boundscheck (Pool Source Dest : Z) (st : Runtime) : outcome Z :=
  match pools st !! Pool with
  | None => Faults
  | Some D =>
    let '(fs, Sp, len) := retrieve_out (Objects D) Source 0 in
    if in_bounds fs Sp len Dest then Returns Dest st
    else if negb (fs =? 0) && (Dest =? ptr_add Sp len) then
      let st := log_regs (BoundscheckRewriteLog Sp Source Dest len) st in
      let P := next_invalidptr st in
      let st := set_invalidptr P st in
      if out_of_rewrite_ptrs P then
        Returns Dest (fprintf (BoundscheckOutOfRewritePtrs Source Dest) st)
      else
        Returns P (set_pool Pool (set_OOB (adl_splay_insert (OOB D) P 1 Dest) D) st)
    else if negb (fs =? 0) then
      Aborts (fprintf (BoundscheckOutOfObject Pool fs Source Dest len) st)
    else
      Aborts (fprintf (BoundscheckNoObject Pool fs Source Dest len) st)
  end.

Definition boundscheckui (Pool Source Dest : Z) (st : Runtime) : outcome Z :=
  match pools st !! Pool with
  | None => Faults
  | Some D =>
    let '(fs, Sp, len) := retrieve_out (Objects D) Source 0 in
    if negb (fs =? 0) && ((Sp <=? Dest) && (ptr_add Sp len >? Dest)) then
      Returns Dest st
    else if negb (fs =? 0) && (Dest =? ptr_add Sp len) then
      let st := log_regs (BoundscheckRewriteLog Sp Source Dest len) st in
      let P := next_invalidptr st in
      let st := set_invalidptr P st in
      if out_of_rewrite_ptrs P then
        Returns Dest (fprintf (BoundscheckuiOutOfRewritePtrs Source Dest) st)
      else
        Returns P (set_pool Pool (set_OOB (adl_splay_insert (OOB D) P 1 Dest) D) st)
    else if Source =? 0 then
      Aborts (fprintf (BoundscheckOutOfObject Pool fs Source Dest len) st)
    else
      let '(fs, Sp, len) := retrieve_out (ExternalObjects st) Source 0 in
      if negb (fs =? 0) then
        if (Sp <=? Dest) && (ptr_add Sp len >? Dest) then Returns Dest st
        else Returns Dest (fprintf (BoundscheckuiOutOfObject Pool fs Source Dest len) st)
      else Returns Dest st
  end.

Definition pchk_getActualValue (Pool src : Z) (st : Runtime) : outcome Z :=
  if src <=? InvalidLower then Returns src st
  else if out_of_rewrite_ptrs src then Returns src st
  else match pools st !! Pool with
       | None => Faults
       | Some D =>
         match adl_splay_retrieve (OOB D) src with
         | Some n => Returns (tag n) st
         | None => Aborts (fprintf (GetActualValueFailure src) st)
         end
       end.

(** A run of bounds checks: [checks_run st st'] when [st'] is reached from
    [st] by calls of boundscheck and boundscheckui that return, each of them
    made while the cursor is below the last address of the 32-bit space. *)
Inductive checks_run : Runtime -> Runtime -> Prop :=
| run_none (st : Runtime) : checks_run st st
| run_call (st st1 st2 : Runtime) (Pool Source Dest r : Z) :
    checks_run st st1 ->
    invalidptr st1 < 2 ^ 32 - 1 ->
    boundscheck Pool Source Dest st1 = Returns r st2 \/
    boundscheckui Pool Source Dest st1 = Returns r st2 ->
    checks_run st st2.

End RewriteRegion.

(** The state a rewrite leaves: the cursor moved to [P] and the pair
    (P, Dest) recorded in the pool's OOB index. *)
Definition rewritten (Pool P Dest : Z) (D : PoolTy) (st : Runtime) : Runtime :=
  set_pool Pool (set_OOB (adl_splay_insert (OOB D) P 1 Dest) D)
           (set_invalidptr P st).

(** **** Indirect call targets *)

(** The loop [for ( ; i != num; ++i)] of funccheck over the va_list [ap]:
    [Some true] when [f] is met, [Some false] when [i] reaches [num], and
    [None] when va_arg is asked for an argument that was not passed. *)
Fixpoint funccheck_scan (i num f : Z) (ap : list Z) : option bool :=
  if i =? num then Some false
  else match ap with
       | [] => None
       | h :: ap' =>
         if f =? h then Some true else funccheck_scan (u32 (i + 1)) num f ap'
       end.

Definition funccheck (num f g : Z) (ap : list Z) (st : Runtime) : outcome unit :=
  if f =? g then Returns tt st
  else match funccheck_scan (u32 (0 + 1)) num f ap with
       | Some true => Returns tt st
       | Some false => Aborts (log_regs (FunccheckFailed num f g) st)
       | None => Faults
       end.

(** What a bounds check may have done to the pools: nothing, or one more
    record, for a pointer above [r], in the OOB index of one pool. *)
Definition pools_step (r : Z) (st st2 : Runtime) : Prop :=
  pools st2 = pools st \/
  exists (Pool' P Dest : Z) (D : PoolTy),
    r < P /\ pools st !! Pool' = Some D /\
    pools st2 = <[Pool' := set_OOB (adl_splay_insert (OOB D) P 1 Dest) D]> (pools st).

End Pool.

(** *** poolrealloc *)

Module Realloc.

(** Byte-addressed memory. *)
Definition memory : Type := Z -> Z.

Definition store (m : memory) (a v : Z) : memory :=
  fun x => if x =? a then v else m x.

(** [memcpy (dst, src, n)], one byte after the other from the lowest
    address on. *)
Fixpoint memcpy_bytes (n : nat) (dst src : Z) (m : memory) : memory :=
  match n with
  | O => m
  | S n' => memcpy_bytes n' (dst + 1) (src + 1) (store m dst (m src))
  end.

Definition memcpy (dst src n : Z) (m : memory) : memory :=
  memcpy_bytes (Z.to_nat n) dst src m.

(** The two byte ranges of [n] bytes do not meet. *)
Definition apart (a b n : Z) : Prop := a + n <= b \/ b + n <= a.

Section WithAllocator.

(** The allocator's own state: slabs, splay trees, debug records, shadow
    pages. *)
Variable heap : Type.

Record world : Type := mkWorld { mem : memory; allocator : heap }.

(** A call returns a value and a world, or the process stops (exit,
    abort, a failed assertion). *)
Inductive result (A : Type) : Type :=
| Done (v : A) (w : world)
| Halt.

Arguments Done {A} v w.
Arguments Halt {A}.

Definition bind {A B : Type} (c : result A) (k : A -> world -> result B)
  : result B :=
  match c with
  | Done v w => k v w
  | Halt => Halt
  end.

(** poolrealloc is written against poolalloc and poolfree; they are taken
    as they come. *)
Variable poolalloc : Z -> Z -> world -> result Z.

Variable poolfree : Z -> Z -> world -> result unit.

Definition do_memcpy (dst src n : Z) (w : world) : world :=
  mkWorld (memcpy dst src n (mem w)) (allocator w).

Definition poolrealloc (Pool Node NumBytes : Z) (w : world) : result Z :=
  if Node =? 0 then poolalloc Pool NumBytes w
  else if NumBytes =? 0 then
    bind (poolfree Pool Node w) (fun _ w => Done 0 w)
  else
    bind (poolalloc Pool NumBytes w) (fun New w =>
    let w := do_memcpy New Node NumBytes w in
    bind (poolfree Pool Node w) (fun _ w => Done New w)).

End WithAllocator.

Arguments mkWorld {heap} mem allocator.
Arguments mem {heap} w.
Arguments allocator {heap} w.
Arguments Done {heap A} v w.
Arguments Halt {heap A}.
Arguments bind {heap A B} c k.
Arguments do_memcpy {heap} dst src n w.
Arguments poolrealloc {heap} poolalloc poolfree Pool Node NumBytes w.

End Realloc.

(** *** Pool slabs *)

Module Slab.

Import Machine.

(** A slab header and its flag words.  [FirstUnused], [UsedBegin] and
    [UsedEnd] are [unsigned short]; [NodeFlagsVector] holds one 32-bit word
    for every 16 nodes, the allocated bits in its low half and the start
    bits in its high half. *)
Record PoolSlab : Type := mkSlab {
  isSingleArray : bool;
  FirstUnused : Z;
  UsedBegin : Z;
  UsedEnd : Z;
  NumNodesInSlab : Z;
  NodeFlagsVector : list Z
}.

Definition getSlabSize (s : PoolSlab) : Z := NumNodesInSlab s.

(** [NodeFlagsVector[i]]; a word past the end of the vector reads as 0. *)
Definition flags_word (v : list Z) (i : Z) : Z :=
  default 0 (v !! Z.to_nat i).

Definition set_flags_word (v : list Z) (i w : Z) : list Z :=
  <[Z.to_nat i := w]> v.

Definition test_bit (v : list Z) (NodeNum shift : Z) : bool :=
  negb (Z.land (flags_word v (NodeNum / 16))
               (Z.shiftl 1 (Z.land NodeNum 15 + shift)) =? 0).

Definition or_bit (v : list Z) (NodeNum shift : Z) : list Z :=
  set_flags_word v (NodeNum / 16)
    (Z.lor (flags_word v (NodeNum / 16))
           (u32 (Z.shiftl 1 (Z.land NodeNum 15 + shift)))).

Definition clear_bit (v : list Z) (NodeNum shift : Z) : list Z :=
  set_flags_word v (NodeNum / 16)
    (Z.land (flags_word v (NodeNum / 16))
            (not32 (Z.shiftl 1 (Z.land NodeNum 15 + shift)))).

Definition isNodeAllocated (v : list Z) (NodeNum : Z) : bool := test_bit v NodeNum 0.

Definition markNodeAllocated (v : list Z) (NodeNum : Z) : list Z := or_bit v NodeNum 0.

Definition markNodeFree (v : list Z) (NodeNum : Z) : list Z := clear_bit v NodeNum 0.

Definition setStartBit (v : list Z) (NodeNum : Z) : list Z := or_bit v NodeNum 16.

Definition isStartOfAllocation (v : list Z) (NodeNum : Z) : bool := test_bit v NodeNum 16.

Definition clearStartBit (v : list Z) (NodeNum : Z) : list Z := clear_bit v NodeNum 16.

Definition with_flags (v : list Z) (s : PoolSlab) : PoolSlab :=
  mkSlab (isSingleArray s) (FirstUnused s) (UsedBegin s) (UsedEnd s)
         (NumNodesInSlab s) v.

Definition with_cursors (FU UB UE : Z) (s : PoolSlab) : PoolSlab :=
  mkSlab (isSingleArray s) FU UB UE (NumNodesInSlab s) (NodeFlagsVector s).

(** The three assertions of assertOkay, as the value of their conjunction;
    [||] stops at the first true operand as the C operator does. *)
Definition assertOkay (s : PoolSlab) : bool :=
  (FirstUnused s <=? UsedEnd s)
  && ((UsedEnd s =? getSlabSize s)
      || negb (isNodeAllocated (NodeFlagsVector s) (UsedEnd s)))
  && ((FirstUnused s =? getSlabSize s)
      || negb (isNodeAllocated (NodeFlagsVector s) (FirstUnused s))).

(** The loop of create: [markNodeFree (i); clearStartBit (i)] for the [n]
    nodes from [i] on. *)
Fixpoint clear_nodes (n : nat) (i : Z) (v : list Z) : list Z :=
  match n with
  | O => v
  | S n' => clear_nodes n' (i + 1) (clearStartBit (markNodeFree v i) i)
  end.

(** create, on the flag words [page] that AllocatePage handed out. *)
Definition create (NodesPerSlab : Z) (page : list Z) : PoolSlab :=
  mkSlab false 0 0 0 NodesPerSlab
         (clear_nodes (Z.to_nat NodesPerSlab) 0 page).

(** [do { ++FU; } while ((FU != SlabSize) && (isNodeAllocated (FU)));] *)
Fixpoint next_unused (fuel : nat) (FU SlabSize : Z) (v : list Z) : Z :=
  match fuel with
  | O => FU
  | S fuel' =>
    let FU := u16 (FU + 1) in
    if negb (FU =? SlabSize) && isNodeAllocated v FU
    then next_unused fuel' FU SlabSize v
    else FU
  end.

(** allocateSingle: the slab after the call and the value returned. *)
Definition allocateSingle (s : PoolSlab) : PoolSlab * Z :=
  if isSingleArray s then (s, -1)
  else
    let SlabSize := getSlabSize s in
    if UsedEnd s <? SlabSize then
      let UE := UsedEnd s in
      let v := setStartBit (markNodeAllocated (NodeFlagsVector s) UE) UE in
      let FU := if FirstUnused s =? UE then u16 (FirstUnused s + 1)
                else FirstUnused s in
      (with_flags v (with_cursors FU (UsedBegin s) (u16 (UsedEnd s + 1)) s), UE)
    else if FirstUnused s <? SlabSize then
      let Idx := FirstUnused s in
      let v := setStartBit (markNodeAllocated (NodeFlagsVector s) Idx) Idx in
      let FU := next_unused (Z.to_nat (2 ^ 16)) (FirstUnused s) SlabSize v in
      (with_flags v (with_cursors FU (UsedBegin s) (UsedEnd s) s), Idx)
    else (s, -1).

(** [for (i = from; i != to; ++i) markNodeAllocated (i);] over [n] nodes. *)
Fixpoint mark_run (n : nat) (i : Z) (v : list Z) : list Z :=
  match n with
  | O => v
  | S n' => mark_run n' (i + 1) (markNodeAllocated v i)
  end.

(** [for (; (LastUnused != Idx+Size) && (!isNodeAllocated (LastUnused));
    ++LastUnused);] The counter meets [stop] after at most
    [u32 (Size - 1)] steps, which is the fuel its caller gives. *)
Fixpoint scan_unused (fuel : nat) (LastUnused stop : Z) (v : list Z) : Z :=
  match fuel with
  | O => LastUnused
  | S fuel' =>
    if negb (LastUnused =? stop) && negb (isNodeAllocated v LastUnused)
    then scan_unused fuel' (u32 (LastUnused + 1)) stop v
    else LastUnused
  end.

(** [while (Idx+Size <= getSlabSize () && isNodeAllocated (Idx)) ++Idx;]
    [None] when the fuel runs out. *)
Fixpoint skip_allocated (fuel : nat) (Idx Size SlabSize : Z) (v : list Z)
  : option Z :=
  match fuel with
  | O => None
  | S fuel' =>
    if (u32 (Idx + Size) <=? SlabSize) && isNodeAllocated v Idx
    then skip_allocated fuel' (u32 (Idx + 1)) Size SlabSize v
    else Some Idx
  end.

(** [for (i = FirstUnused+Size; i < UsedEnd; ++i) if (!isNodeAllocated (i))
    break;] *)
Fixpoint first_unused_below (fuel : nat) (i UE : Z) (v : list Z) : Z :=
  match fuel with
  | O => i
  | S fuel' =>
    if (i <? UE) && isNodeAllocated v i
    then first_unused_below fuel' (u32 (i + 1)) UE v
    else i
  end.

(** The second half of allocateMultiple: the search for [Size] free nodes
    from [Idx] on.  [None] when the fuel runs out. *)
Fixpoint search_unused (fuel : nat) (Idx Size : Z) (s : PoolSlab)
  : option (PoolSlab * Z) :=
  match fuel with
  | O => None
  | S fuel' =>
    let v := NodeFlagsVector s in
    if u32 (Idx + Size) <=? getSlabSize s then
      let LastUnused :=
        scan_unused (Z.to_nat (u32 (Size - 1))) (u32 (Idx + 1)) (u32 (Idx + Size)) v in
      if LastUnused =? u32 (Idx + Size) then
        let v := mark_run (Z.to_nat (u32 Size)) Idx (setStartBit v Idx) in
        let FU :=
          if Idx =? FirstUnused s then
            let i := first_unused_below (Z.to_nat (2 ^ 16))
                       (u32 (FirstUnused s + Size)) (UsedEnd s) v in
            if isNodeAllocated v i then u16 (getSlabSize s) else u16 i
          else FirstUnused s in
        Some (with_flags v (with_cursors FU (UsedBegin s) (UsedEnd s) s), Idx)
      else
        match skip_allocated fuel' LastUnused Size (getSlabSize s) v with
        | Some Idx' => search_unused fuel' Idx' Size s
        | None => None
        end
    else Some (s, -1)
  end.

(** allocateMultiple: the slab after the call and the value returned;
    [None] when the search runs out of the fuel it is given, one step for
    every node of the slab and two to spare. *)
Definition allocateMultiple (Size : Z) (s : PoolSlab) : option (PoolSlab * Z) :=
  if isSingleArray s then Some (s, -1)
  else if u32 (UsedEnd s + Size) <=? getSlabSize s then
    let UE := UsedEnd s in
    let v := mark_run (Z.to_nat (u32 Size)) UE (setStartBit (NodeFlagsVector s) UE) in
    let FU := if FirstUnused s =? UE then u16 (FirstUnused s + Size)
              else FirstUnused s in
    Some (with_flags v (with_cursors FU (UsedBegin s) (u16 (UsedEnd s + Size)) s), UE)
  else
    search_unused (Z.to_nat (getSlabSize s) + 2) (FirstUnused s) Size s.

(** The while loop of freeElement: free the nodes of the run after its
    first node, up to [UE], a start bit or a free node. *)
Fixpoint free_run (fuel : nat) (ElementEndIdx UE : Z) (v : list Z) : Z * list Z :=
  match fuel with
  | O => (ElementEndIdx, v)
  | S fuel' =>
    if negb (ElementEndIdx =? UE)
       && negb (isStartOfAllocation v ElementEndIdx)
       && isNodeAllocated v ElementEndIdx
    then free_run fuel' (u16 (ElementEndIdx + 1)) UE (markNodeFree v ElementEndIdx)
    else (ElementEndIdx, v)
  end.

(** [for (MSB = 15; (Flags & (1U << MSB)) == 0; --MSB);] *)
Fixpoint msb_scan (fuel : nat) (MSB Flags : Z) : Z :=
  match fuel with
  | O => MSB
  | S fuel' =>
    if Z.land Flags (Z.shiftl 1 MSB) =? 0
    then msb_scan fuel' (u16 (MSB - 1)) Flags
    else MSB
  end.

(** The scan of lastNodeAllocated over the words below [CurWord]: the
    first word, going down, whose allocated bits are not all clear. *)
Fixpoint scan_words (CurWord : nat) (v : list Z) : option (Z * Z) :=
  match CurWord with
  | O => None
  | S w =>
    let Flags := Z.land (flags_word v (Z.of_nat w)) 65535 in
    if Flags =? 0 then scan_words w v else Some (Z.of_nat w, Flags)
  end.

Definition lastNodeAllocated (v : list Z) (ScanIdx : Z) : Z :=
  let CurWord := ScanIdx / 16 in
  let Flags := Z.land (flags_word v CurWord) 65535 in
  let Flags := Z.land Flags (Z.shiftl 1 (Z.land ScanIdx 15 + 1) - 1) in
  if negb (Flags =? 0) then CurWord * 16 + msb_scan 16 15 Flags
  else match scan_words (Z.to_nat CurWord) v with
       | Some (CurWord, Flags) => CurWord * 16 + msb_scan 16 15 Flags
       | None => 0
       end.

(** What a call of freeElement comes to: it returns, or one of its
    assertions fails; either way with the slab as the call has left it at
    that point. *)
Inductive freed : Type :=
| Returned (s : PoolSlab)
| AssertionFailed (s : PoolSlab).

Definition slab_of (r : freed) : PoolSlab :=
  match r with
  | Returned s => s
  | AssertionFailed s => s
  end.

(** The call of assertOkay that ends freeElement. *)
Definition closing (s : PoolSlab) : freed :=
  if assertOkay s then Returned s else AssertionFailed s.

(** The end of freeElement, after its loop has freed the nodes up to
    [ElementEndIdx] and left the flag words [v]: the updates of
    [FirstUnused], [UsedBegin] and [UsedEnd], with the assertion on the
    result of lastNodeAllocated, and the closing assertOkay. *)
Definition update_cursors (ElementIdx ElementEndIdx : Z) (v : list Z)
    (s : PoolSlab) : freed :=
  let UE := UsedEnd s in
  let FU := if ElementIdx <? FirstUnused s then ElementIdx else FirstUnused s in
  let UB := if ElementIdx =? UsedBegin s then ElementEndIdx else UsedBegin s in
  if ElementEndIdx =? UE then
    if UB =? UE then closing (with_flags v (with_cursors 0 0 0 s))
    else if FU =? ElementIdx then
      closing (with_flags v (with_cursors ElementIdx UB ElementIdx s))
    else
      let s' :=
        with_flags v (with_cursors FU UB (u16 (lastNodeAllocated v ElementIdx)) s) in
      if FirstUnused s' <=? UsedEnd s' + 1 then closing s'
      else AssertionFailed s'
  else closing (with_flags v (with_cursors FU UB UE s)).

(** freeElement.  A node that is not allocated makes it return at once;
    a node that does not start an allocation fails its first assertion,
    after the node has been marked free. *)
Definition freeElement (ElementIdx : Z) (s : PoolSlab) : freed :=
  if negb (isNodeAllocated (NodeFlagsVector s) ElementIdx) then Returned s
  else
    let v := markNodeFree (NodeFlagsVector s) ElementIdx in
    if negb (isStartOfAllocation v ElementIdx) then AssertionFailed (with_flags v s)
    else
      let v := markNodeFree (clearStartBit v ElementIdx) ElementIdx in
      let UE := UsedEnd s in
      let '(ElementEndIdx, v) :=
        free_run (Z.to_nat (2 ^ 16)) (u16 (ElementIdx + 1)) UE v in
      update_cursors ElementIdx ElementEndIdx v s.

(** Node [n] has its pair of bits inside the flag words [v]. *)
Definition in_vec (v : list Z) (n : Z) : Prop :=
  0 <= n < 16 * Z.of_nat (length v).

(** The invariant behind assertOkay, for a slab that is not a single
    array: the cursors are ordered and inside the slab, whose size fits the
    [unsigned short] cursors and whose nodes all have their flag bits; no
    node from [UsedEnd] on is allocated, the node under [UsedEnd] is, and
    the node at [FirstUnused] is not. *)
Record slab_ok (s : PoolSlab) : Prop := mkSlabOk {
  ok_single : isSingleArray s = false;
  ok_size : 0 <= NumNodesInSlab s < 2 ^ 16;
  ok_words : NumNodesInSlab s <= 16 * Z.of_nat (length (NodeFlagsVector s));
  ok_cursors : 0 <= FirstUnused s <= UsedEnd s /\ UsedEnd s <= NumNodesInSlab s;
  ok_above : forall i, UsedEnd s <= i < NumNodesInSlab s ->
             isNodeAllocated (NodeFlagsVector s) i = false;
  ok_last : 0 < UsedEnd s ->
            isNodeAllocated (NodeFlagsVector s) (UsedEnd s - 1) = true;
  ok_first : FirstUnused s < NumNodesInSlab s ->
             isNodeAllocated (NodeFlagsVector s) (FirstUnused s) = false
}.

(** What the comment on [FirstUnused] says, the first empty node of the
    slab: every node below it is allocated. *)
Definition packed (s : PoolSlab) : Prop :=
  forall i, 0 <= i < FirstUnused s ->
  isNodeAllocated (NodeFlagsVector s) i = true.

(** The allocated nodes form runs that each begin at a start bit: a start
    bit sits on an allocated node only, and an allocated node without one
    follows an allocated node. *)
Definition runs_ok (s : PoolSlab) : Prop :=
  forall i, 0 <= i < NumNodesInSlab s ->
  (isStartOfAllocation (NodeFlagsVector s) i = true ->
   isNodeAllocated (NodeFlagsVector s) i = true) /\
  (isNodeAllocated (NodeFlagsVector s) i = true ->
   isStartOfAllocation (NodeFlagsVector s) i = false ->
   0 < i /\ isNodeAllocated (NodeFlagsVector s) (i - 1) = true).

(** A value of type [unsigned] returned as an [int]. *)
Definition to_int (x : Z) : Z := if x <? 2 ^ 31 then x else x - 2 ^ 32.

(** getSlabSize (Pool): the number of nodes of [NodeSize] bytes that a
    page of [PageSize] bytes holds beside the [sizeof_PoolSlab] bytes of the
    header and the flag words. *)
Definition getSlabSize_Pool (PageSize sizeof_PoolSlab NodeSize : Z) : Z :=
  let NumNodes := u32 (PageSize - sizeof_PoolSlab) in
  let NodeFlagsBytes := u32 (NumNodes / NodeSize * 2) / 8 in
  let NumNodes :=
    u32 (NumNodes - Z.land (u32 (NodeFlagsBytes + 3)) (not32 3)) in
  NumNodes / NodeSize.

(** [Size], which create asserts to be at most [PageSize]. *)
Definition create_Size (PageSize sizeof_PoolSlab NodeSize : Z) : Z :=
  let NodesPerSlab := getSlabSize_Pool PageSize sizeof_PoolSlab NodeSize in
  u32 (sizeof_PoolSlab + 4 * (u32 (NodesPerSlab + 15) / 16)
       + NodeSize * NodesPerSlab).

(** getElementAddress of the slab whose [NodeFlagsVector] is at the address
    [flags]: the nodes start after the flag words. *)
Definition getElementAddress (flags : Z) (s : PoolSlab)
    (ElementNum ElementSize : Z) : Z :=
  flags + 4 * (u32 (NumNodesInSlab s + 15) / 16) + u32 (ElementNum * ElementSize).

(** containsElement; [None] when it aborts on a pointer into the middle of
    an element. *)
Definition containsElement (flags : Z) (s : PoolSlab) (Ptr ElementSize : Z)
  : option Z :=
  let FirstElement := getElementAddress flags s 0 0 in
  if FirstElement <=? Ptr then
    let Delta := u32 (Ptr - FirstElement) in
    if isSingleArray s && (Delta <? NumNodesInSlab s)
    then Some (to_int (Delta / ElementSize))
    else
      let Index := Delta / ElementSize in
      if Index <? getSlabSize s then
        if negb (Delta mod ElementSize =? 0) then None
        else Some (to_int Index)
      else Some (-1)
  else Some (-1).

(** The while loop of getSize: the end of the run that begins before
    [ElementEndIdx]. *)
Fixpoint run_end (fuel : nat) (ElementEndIdx UE : Z) (v : list Z) : Z :=
  match fuel with
  | O => ElementEndIdx
  | S fuel' =>
    if negb (ElementEndIdx =? UE)
       && negb (isStartOfAllocation v ElementEndIdx)
       && isNodeAllocated v ElementEndIdx
    then run_end fuel' (u16 (ElementEndIdx + 1)) UE v
    else ElementEndIdx
  end.

(** getSize, in nodes; [None] when an assertion fails or it aborts. *)
Definition getSize (flags : Z) (s : PoolSlab) (Ptr ElementSize : Z) : option Z :=
  let FirstElement := getElementAddress flags s 0 0 in
  if FirstElement <=? Ptr then
    let Delta := u32 (Ptr - FirstElement) in
    let Index := Delta / ElementSize in
    if Index <? getSlabSize s then
      if isStartOfAllocation (NodeFlagsVector s) Index then
        let ElementEndIdx :=
          run_end (Z.to_nat (2 ^ 16)) (u16 (Index + 1)) (UsedEnd s)
                  (NodeFlagsVector s) in
        Some (u32 (ElementEndIdx - Index))
      else None
    else None
  else None.

(** [s'] is [s] with the [Size] nodes from [r] on, which were free,
    allocated as one run that starts at [r]. *)
Definition allocates (s s' : PoolSlab) (r Size : Z) : Prop :=
  0 <= r /\ r + Size <= NumNodesInSlab s /\
  (forall i, r <= i < r + Size ->
     isNodeAllocated (NodeFlagsVector s) i = false) /\
  forall m, 0 <= m ->
    isNodeAllocated (NodeFlagsVector s') m
      = isNodeAllocated (NodeFlagsVector s) m
        || ((r <=? m) && (m <? r + Size)) /\
    isStartOfAllocation (NodeFlagsVector s') m
      = isStartOfAllocation (NodeFlagsVector s) m || (m =? r).

(** No run of [Size] free nodes begins below [Idx]. *)
Definition no_free_run (s : PoolSlab) (Size Idx : Z) : Prop :=
  forall j, 0 <= j < Idx -> j + Size <= NumNodesInSlab s ->
  exists i, j <= i < j + Size /\
            isNodeAllocated (NodeFlagsVector s) i = true.

Definition isEmpty (s : PoolSlab) : bool := UsedEnd s =? 0.

Definition isFull (s : PoolSlab) : bool :=
  isSingleArray s || (FirstUnused s =? getSlabSize s).

(** One of the three loops of SearchForContainingSlab over a list of slabs,
    each with the address of its flag words: the slab it stops on, if any,
    and [Idx]; [None] when containsElement aborts. *)
Fixpoint search_slabs (PS : list (Z * PoolSlab)) (Node NodeSize : Z)
  : option (option (Z * PoolSlab) * Z) :=
  match PS with
  | [] => Some (None, -1)
  | S1 :: Next =>
    match containsElement (fst S1) (snd S1) Node NodeSize with
    | None => None
    | Some Idx =>
      if negb (Idx =? -1) then Some (Some S1, Idx)
      else search_slabs Next Node NodeSize
    end
  end.

(** SearchForContainingSlab over the lists [Ptr1], [Ptr2] and
    [LargeArrays] of a pool: the slab found, if any, and [TheIndex], which
    is [unsigned].  The assertions before the second and the third loop hold
    whenever they are reached: a loop that runs to the end of its list
    leaves [Idx] at -1. *)
Definition SearchForContainingSlab (Ptr1 Ptr2 LargeArrays : list (Z * PoolSlab))
    (Node NodeSize : Z) : option (option (Z * PoolSlab) * Z) :=
  match search_slabs Ptr1 Node NodeSize with
  | None => None
  | Some (Some PS, Idx) => Some (Some PS, u32 Idx)
  | Some (None, _) =>
    match search_slabs Ptr2 Node NodeSize with
    | None => None
    | Some (Some PS, Idx) => Some (Some PS, u32 Idx)
    | Some (None, _) =>
      match search_slabs LargeArrays Node NodeSize with
      | None => None
      | Some (PS, Idx) => Some (PS, u32 Idx)
      end
    end
  end.

(** [Node] is an address outside the nodes of the slab [PS], which is not
    a single array. *)
Definition outside_slab (PS : Z * PoolSlab) (Node NodeSize : Z) : Prop :=
  isSingleArray (snd PS) = false /\
  (Node < getElementAddress (fst PS) (snd PS) 0 0
   \/ getElementAddress (fst PS) (snd PS) 0 0 + NumNodesInSlab (snd PS) * NodeSize
        <= Node < getElementAddress (fst PS) (snd PS) 0 0 + 2 ^ 32).

End Slab.

(** *** The baggy bounds run-time *)

Module Baggy.

Import Machine.

Definition SLOT_SIZE : Z := 4.

(** [(unsigned)(1 << size)] on a 32-bit [int]: defined for a shift count
    below the width of [int], bit 31 read as 2^31. *)
Definition shl1 (size : Z) : option Z :=
  if (0 <=? size) && (size <? 32) then Some (u32 (Z.shiftl 1 size)) else None.

(** [while ((unsigned)(1 << size) < NumBytes) size++;]  [None] when the
    loop comes to a shift that is not defined. *)
Fixpoint size_loop (fuel : nat) (size NumBytes : Z) : option Z :=
  match fuel with
  | O => None
  | S fuel' =>
    match shl1 size with
    | None => None
    | Some pow =>
      if pow <? NumBytes then size_loop fuel' (size + 1) NumBytes
      else Some size
    end
  end.

(** The size class both poolalloc and __internal_register compute:
    the loop from 0, then [if (size < SLOT_SIZE) size = SLOT_SIZE]. *)
Definition size_class (NumBytes : Z) : option Z :=
  match size_loop 33 0 NumBytes with
  | Some size => Some (if size <? SLOT_SIZE then SLOT_SIZE else size)
  | None => None
  end.

(** The shadow table [__baggybounds_size_table_begin]: one byte for
    every slot, zero where nothing was written. *)
Definition table_get (t : gmap Z Z) (i : Z) : Z := default 0 (t !! i).

(** [memset (table + index, c, n)]. *)
Fixpoint memset (n : nat) (index c : Z) (t : gmap Z Z) : gmap Z Z :=
  match n with
  | O => t
  | S n' => memset n' (index + 1) c (<[index := c]> t)
  end.

Section WithLibc.

(** The C library's heap, and posix_memalign (alignment, size) on it: the
    pointer it stores, if any, and the heap it leaves. *)
Variable libc : Type.

Variable posix_memalign : Z -> Z -> libc -> option Z * libc.

Record BBState : Type := mkBB {
  table : gmap Z Z;
  bytes : Realloc.memory;
  heap : libc
}.

(** A call returns, stops at a failed assertion, or reaches a shift that
    C leaves undefined. *)
Inductive bb_result (A : Type) : Type :=
| BBReturns (v : A) (st : BBState)
| BBAssertFails
| BBUndefined.

Arguments BBReturns {A} v st.
Arguments BBAssertFails {A}.
Arguments BBUndefined {A}.

(** __sc_bb_src_poolalloc: the pointer posix_memalign stored in [p];
    [None] stands for the [p] that a failed posix_memalign leaves unset. *)
Definition __sc_bb_src_poolalloc (Pool NumBytes : Z) (st : BBState)
  : bb_result (option Z) :=
  match size_class NumBytes with
  | None => BBUndefined
  | Some size =>
    match shl1 size with
    | None => BBUndefined
    | Some alloc =>
      let '(p, h) := posix_memalign alloc alloc (heap st) in
      BBReturns p (mkBB (table st) (bytes st) h)
    end
  end.

(** __internal_register.  The mask [~((1 << size) - 1)] is an [int]
    widened to [uintptr_t] with its sign, which is what [Z.lnot] gives; a
    pointer that the mask changes runs into [assert (false)]. *)
Definition __internal_register (allocaptr NumBytes : Z) (st : BBState)
  : bb_result unit :=
  match size_class NumBytes with
  | None => BBUndefined
  | Some size =>
    let Source := allocaptr in
    let Source1 := Z.land Source (Z.lnot (Z.shiftl 1 size - 1)) in
    if negb (Source1 =? Source) then BBAssertFails
    else
      let index := Z.shiftr Source1 SLOT_SIZE in
      match shl1 (size - SLOT_SIZE) with
      | None => BBUndefined
      | Some range =>
        BBReturns tt
          (mkBB (memset (Z.to_nat range) index size (table st)) (bytes st) (heap st))
      end
  end.

Definition __sc_bb_src_poolregister (Pool allocaptr NumBytes : Z) (st : BBState)
  : bb_result unit :=
  __internal_register allocaptr NumBytes st.

Definition __sc_bb_poolregister (Pool allocaptr NumBytes : Z) (st : BBState)
  : bb_result unit :=
  __sc_bb_src_poolregister Pool allocaptr NumBytes st.

Definition __sc_bb_poolalloc (Pool NumBytes : Z) (st : BBState)
  : bb_result (option Z) :=
  __sc_bb_src_poolalloc Pool NumBytes st.

Definition bb_bind {A B : Type} (c : bb_result A) (k : A -> BBState -> bb_result B)
  : bb_result B :=
  match c with
  | BBReturns v st => k v st
  | BBAssertFails => BBAssertFails
  | BBUndefined => BBUndefined
  end.

(** __sc_bb_poolrealloc is written against __sc_bb_poolunregister and
    __sc_bb_poolfree; they are taken as they come. *)
Variable __sc_bb_poolunregister : Z -> Z -> BBState -> bb_result unit.

Variable __sc_bb_poolfree : Z -> Z -> BBState -> bb_result unit.

Definition bb_memcpy (dst src n : Z) (st : BBState) : BBState :=
  mkBB (table st) (Realloc.memcpy dst src n (bytes st)) (heap st).

(** The allocation and registration both branches of __sc_bb_poolrealloc
    start with; a [New] that posix_memalign left unset is not followed. *)
Definition bb_alloc_registered (Pool NumBytes : Z) (st : BBState) : bb_result Z :=
  bb_bind (__sc_bb_poolalloc Pool NumBytes st) (fun New st =>
  match New with
  | None => BBUndefined
  | Some New =>
    bb_bind (__sc_bb_poolregister Pool New NumBytes st) (fun _ st =>
    BBReturns New st)
  end).

Definition __sc_bb_poolrealloc (Pool Node NumBytes : Z) (st : BBState)
  : bb_result Z :=
  if Node =? 0 then bb_alloc_registered Pool NumBytes st
  else if NumBytes =? 0 then
    bb_bind (__sc_bb_poolunregister Pool Node st) (fun _ st =>
    bb_bind (__sc_bb_poolfree Pool Node st) (fun _ st =>
    BBReturns 0 st))
  else
    bb_bind (bb_alloc_registered Pool NumBytes st) (fun New st =>
    let e := table_get (table st) (Z.shiftr Node SLOT_SIZE) in
    match shl1 e with
    | None => BBUndefined
    | Some size =>
      let st := bb_memcpy New Node size st in
      bb_bind (__sc_bb_poolunregister Pool Node st) (fun _ st =>
      bb_bind (__sc_bb_poolfree Pool Node st) (fun _ st =>
      BBReturns New st))
    end).

End WithLibc.

Arguments mkBB {libc} table bytes heap.
Arguments table {libc} b.
Arguments bytes {libc} b.
Arguments heap {libc} b.
Arguments BBReturns {libc A} v st.
Arguments BBAssertFails {libc A}.
Arguments BBUndefined {libc A}.
Arguments __sc_bb_src_poolalloc {libc} posix_memalign Pool NumBytes st.
Arguments __internal_register {libc} allocaptr NumBytes st.
Arguments __sc_bb_src_poolregister {libc} Pool allocaptr NumBytes st.
Arguments __sc_bb_poolregister {libc} Pool allocaptr NumBytes st.
Arguments __sc_bb_poolalloc {libc} posix_memalign Pool NumBytes st.
Arguments bb_bind {libc A B} c k.
Arguments bb_memcpy {libc} dst src n st.
Arguments bb_alloc_registered {libc} posix_memalign Pool NumBytes st.
Arguments __sc_bb_poolrealloc {libc} posix_memalign __sc_bb_poolunregister
  __sc_bb_poolfree Pool Node NumBytes st.

End Baggy.

(** *** poolfree's page count, poolcalloc and poolstrdup *)

Module PoolLib.

Import Machine Realloc.

(** The number of pages poolfree protects and bus_error_handler
    unprotects, [PPageSize] being the page size, [len] the length of the
    object and [offset] the offset of the pointer in its page:
    [NumPPage = (len / PPageSize) + 1;
     if ((len - (NumPPage-1) * PPageSize) > (PPageSize - offset)) NumPPage++;]
    in [unsigned] arithmetic. *)
Definition NumPPage (PPageSize len offset : Z) : Z :=
  let NumPPage := u32 (len / PPageSize + 1) in
  if u32 (len - u32 (u32 (NumPPage - 1) * PPageSize)) >? u32 (PPageSize - offset)
  then u32 (NumPPage + 1)
  else NumPPage.

(** [bzero (p, n)]. *)
Fixpoint bzero_bytes (n : nat) (p : Z) (m : memory) : memory :=
  match n with
  | O => m
  | S n' => bzero_bytes n' (p + 1) (store m p 0)
  end.

Definition bzero (p n : Z) (m : memory) : memory := bzero_bytes (Z.to_nat n) p m.

(** [strlen (p)], reading at most [limit] bytes: [None] when none of them
    is the NUL. *)
Fixpoint strlen (limit : nat) (m : memory) (p : Z) : option Z :=
  match limit with
  | O => None
  | S limit' =>
    if m p =? 0 then Some 0
    else match strlen limit' m (p + 1) with
         | Some l => Some (l + 1)
         | None => None
         end
  end.

Section WithAllocator.

Variable heap : Type.

Variable poolalloc : Z -> Z -> world heap -> result heap Z.

(** The bytes strlen may read before the process faults. *)
Variable limit : nat.

Definition do_bzero (p n : Z) (w : world heap) : world heap :=
  mkWorld (bzero p n (mem w)) (allocator w).

Definition poolcalloc (Pool Number NumBytes : Z) (w : world heap) : result heap Z :=
  bind (poolalloc Pool (u32 (Number * NumBytes)) w) (fun New w =>
  Done New (if New =? 0 then w else do_bzero New (u32 (Number * NumBytes)) w)).

Definition poolstrdup (Pool Node : Z) (w : world heap) : result heap Z :=
  if Node =? 0 then Done 0 w
  else match strlen limit (mem w) Node with
       | None => Halt
       | Some l =>
         let NumBytes := u32 (l + 1) in
         bind (poolalloc Pool NumBytes w) (fun New w =>
         Done New (if New =? 0 then w
                   else do_memcpy New Node (u32 (NumBytes + 1)) w))
       end.

End WithAllocator.

Arguments do_bzero {heap} p n w.
Arguments poolcalloc {heap} poolalloc Pool Number NumBytes w.
Arguments poolstrdup {heap} poolalloc limit Pool Node w.

End PoolLib.

(** *** The baggy bounds pass: findP2Size *)

Module BaggyPass.

Import Machine.

Definition SLOT_SIZE : Z := 4.

(** [(unsigned int)(1u << size)]: defined for a shift count below the
    width of [unsigned int]. *)
Definition shl1u (size : Z) : option Z :=
  if (0 <=? size) && (size <? 32) then Some (u32 (Z.shiftl 1 size)) else None.

(** [while (((unsigned int)(1u << size)) < objectSize) ++size;]  [None]
    when the loop comes to a shift that is not defined. *)
Fixpoint findP2Size_loop (fuel : nat) (size objectSize : Z) : option Z :=
  match fuel with
  | O => None
  | S fuel' =>
    match shl1u size with
    | None => None
    | Some pow =>
      if pow <? objectSize then findP2Size_loop fuel' (size + 1) objectSize
      else Some size
    end
  end.

Definition findP2Size (objectSize : Z) : option Z :=
  findP2Size_loop 33 SLOT_SIZE objectSize.

End BaggyPass.

(** *** The baggy bounds run-time: unregister, free and calloc *)

Module BaggyLib.

Import Machine Baggy.

(** [1 << e] on an [int] that is then widened to [uintptr_t]: defined
    while the result is a positive [int]. *)
Definition shl_int (e : Z) : option Z :=
  if (0 <=? e) && (e <? 31) then Some (Z.shiftl 1 e) else None.

Section WithLibc.

Variable libc : Type.

Variable posix_memalign : Z -> Z -> libc -> option Z * libc.

(** [free (Node)] on the C library's heap. *)
Variable free : Z -> libc -> libc.

(** __sc_bb_poolunregister_debug: [e] is read from the slot of the pointer;
    [e - SLOT_SIZE] is [unsigned], and wraps for an [e] below [SLOT_SIZE]
    to a shift count that is not defined. *)
Definition __sc_bb_poolunregister_debug (Pool allocaptr : Z) (st : BBState libc)
  : bb_result libc unit :=
  let Source := allocaptr in
  let e := table_get (table st) (Z.shiftr Source SLOT_SIZE) in
  if e =? 0 then BBReturns tt st
  else
    match shl_int e with
    | None => BBUndefined
    | Some size =>
      let base := Z.land Source (Z.lnot (size - 1)) in
      let index := Z.shiftr base SLOT_SIZE in
      match shl1 (u32 (e - SLOT_SIZE)) with
      | None => BBUndefined
      | Some slots =>
        BBReturns tt
          (mkBB (memset (Z.to_nat slots) index 0 (table st)) (bytes st) (heap st))
      end
    end.

Definition __sc_bb_poolunregister (Pool allocaptr : Z) (st : BBState libc)
  : bb_result libc unit :=
  __sc_bb_poolunregister_debug Pool allocaptr st.

(** __sc_bb_poolunregister_stack_debug has the body of
    __sc_bb_poolunregister_debug. *)
Definition __sc_bb_poolunregister_stack_debug (Pool allocaptr : Z)
    (st : BBState libc) : bb_result libc unit :=
  let Source := allocaptr in
  let e := table_get (table st) (Z.shiftr Source SLOT_SIZE) in
  if e =? 0 then BBReturns tt st
  else
    match shl_int e with
    | None => BBUndefined
    | Some size =>
      let base := Z.land Source (Z.lnot (size - 1)) in
      let index := Z.shiftr base SLOT_SIZE in
      match shl1 (u32 (e - SLOT_SIZE)) with
      | None => BBUndefined
      | Some slots =>
        BBReturns tt
          (mkBB (memset (Z.to_nat slots) index 0 (table st)) (bytes st) (heap st))
      end
    end.

Definition __sc_bb_poolunregister_stack (Pool allocaptr : Z) (st : BBState libc)
  : bb_result libc unit :=
  __sc_bb_poolunregister_stack_debug Pool allocaptr st.

Definition __sc_bb_src_poolfree (Pool Node : Z) (st : BBState libc)
  : bb_result libc unit :=
  BBReturns tt (mkBB (table st) (bytes st) (free Node (heap st))).

Definition __sc_bb_poolfree (Pool Node : Z) (st : BBState libc)
  : bb_result libc unit :=
  __sc_bb_src_poolfree Pool Node st.

Definition bb_bzero (p n : Z) (st : BBState libc) : BBState libc :=
  mkBB (table st) (PoolLib.bzero p n (bytes st)) (heap st).

(** __sc_bb_src_poolcalloc, which registers the block itself; a [p] that
    posix_memalign left unset is not followed. *)
Definition __sc_bb_src_poolcalloc (Pool Number NumBytes : Z) (st : BBState libc)
  : bb_result libc (option Z) :=
  match size_class (u32 (NumBytes * Number)) with
  | None => BBUndefined
  | Some size =>
    match shl1 size with
    | None => BBUndefined
    | Some alloc =>
      let '(p, h) := posix_memalign alloc alloc (heap st) in
      let st := mkBB (table st) (bytes st) h in
      match p with
      | None => BBUndefined
      | Some p =>
        bb_bind (__sc_bb_src_poolregister Pool p (u32 (Number * NumBytes)) st)
          (fun _ st =>
           BBReturns (Some p)
             (if p =? 0 then st else bb_bzero p (u32 (Number * NumBytes)) st))
      end
    end
  end.

Definition __sc_bb_poolcalloc (Pool Number NumBytes : Z) (st : BBState libc)
  : bb_result libc (option Z) :=
  __sc_bb_src_poolcalloc Pool Number NumBytes st.

End WithLibc.

Arguments __sc_bb_poolunregister_debug {libc} Pool allocaptr st.
Arguments __sc_bb_poolunregister {libc} Pool allocaptr st.
Arguments __sc_bb_poolunregister_stack_debug {libc} Pool allocaptr st.
Arguments __sc_bb_poolunregister_stack {libc} Pool allocaptr st.
Arguments __sc_bb_src_poolfree {libc} free Pool Node st.
Arguments __sc_bb_poolfree {libc} free Pool Node st.
Arguments bb_bzero {libc} p n st.
Arguments __sc_bb_src_poolcalloc {libc} posix_memalign Pool Number NumBytes st.
Arguments __sc_bb_poolcalloc {libc} posix_memalign Pool Number NumBytes st.

End BaggyLib.

(** *** Sample states

    Concrete run-time states on which the lemmas of Part II are exercised:
    one pool at handle 64 with node size 8 and a 16-byte object at 4096, one
    external object at 8192, and the rewrite region of a 32-bit Linux
    process. *)

Module Sample.

Import Splay Pool.

Definition InvalidLower : Z := 3221225472.  (* 0xc0000000 *)

Definition InvalidUpper : Z := 4026531840.  (* 0xf0000000 *)

Definition pool : PoolTy := mkPool 8 [Node 4096 16 0] [] [].

Definition rt : Runtime :=
  mkRuntime {[ 64 := pool ]} [Node 8192 32 0] 0 0 [].

(** [rt] after poolregister (64, 12288, 24). *)
Definition rt_registered : Runtime :=
  set_pool 64 (set_Objects (adl_splay_insert (Objects pool) 12288 24 0) pool) rt.

(** The same run-time with its cursor at the last address below
    [InvalidUpper]. *)
Definition rt_exhausted : Runtime :=
  mkRuntime {[ 64 := pool ]} [Node 8192 32 0] (InvalidUpper - 1) 0 [].

(** The same with its cursor inside the region, at 0xcfffffff, and at the
    last address of the 32-bit space. *)
Definition rt_inside : Runtime :=
  mkRuntime {[ 64 := pool ]} [Node 8192 32 0] 3489660927 0 [].

Definition rt_wrap : Runtime :=
  mkRuntime {[ 64 := pool ]} [Node 8192 32 0] (2 ^ 32 - 1) 0 [].

(** A bump allocator in the place of poolalloc, and a poolfree that keeps
    the memory as it is: enough to run poolrealloc. *)
Definition bump_alloc (Pool NumBytes : Z) (w : Realloc.world Z)
  : Realloc.result Z Z :=
  Realloc.Done (Realloc.allocator w)
    (Realloc.mkWorld (Realloc.mem w) (Realloc.allocator w + NumBytes)).

Definition keep_free (Pool Node : Z) (w : Realloc.world Z)
  : Realloc.result Z unit :=
  Realloc.Done tt w.

(** Memory holding the byte [a mod 256] at every address [a], the
    allocator about to hand out address 8192. *)
Definition world0 : Realloc.world Z :=
  Realloc.mkWorld (fun a => a mod 256) 8192.

(** A slab of 8 nodes on a zeroed page after three calls of
    allocateSingle. *)
Definition slab3 : Slab.PoolSlab :=
  fst (Slab.allocateSingle
         (fst (Slab.allocateSingle
                 (fst (Slab.allocateSingle (Slab.create 8 [0])))))).

(** [slab3] after freeElement (1): nodes 0 and 2 allocated, node 1 a
    hole below [UsedEnd]. *)
Definition slab3_hole : Slab.PoolSlab := Slab.slab_of (Slab.freeElement 1 slab3).

(** A slab of 8 nodes, all allocated one by one, after freeElement (1): a
    hole at node 1 below [UsedEnd] = 8. *)
Definition slab8 : Slab.PoolSlab :=
  fst (Slab.allocateSingle
         (fst (Slab.allocateSingle
                 (fst (Slab.allocateSingle
                         (fst (Slab.allocateSingle
                                 (fst (Slab.allocateSingle slab3))))))))).

Definition slab8_hole : Slab.PoolSlab := Slab.slab_of (Slab.freeElement 1 slab8).

(** A posix_memalign that hands out the next multiple of the alignment at
    or above its break. *)
Definition bump_memalign (alignment size : Z) (brk : Z) : option Z * Z :=
  let p := (brk + alignment - 1) / alignment * alignment in
  (Some p, p + size).

(** The baggy run-time at start: an empty shadow table, the break at
    4100. *)
Definition bb0 : Baggy.BBState Z := Baggy.mkBB ∅ (fun a => a mod 256) 4100.

(** The same with a registered block of class 6 (64 bytes) at 4096. *)
Definition bb64 : Baggy.BBState Z :=
  Baggy.mkBB (Baggy.memset 4 256 6 ∅) (fun a => a mod 256) 4160.

(** An unregister and a free that leave the state as it is. *)
Definition bb_keep (Pool Node : Z) (st : Baggy.BBState Z)
  : Baggy.bb_result Z unit :=
  Baggy.BBReturns tt st.

(** Memory holding the string "ab" at 4100 (bytes 97, 98, 0) and 7 after
    its NUL; elsewhere the byte 1. *)
Definition string_mem : Realloc.memory :=
  fun a => if a =? 4100 then 97 else if a =? 4101 then 98
           else if a =? 4102 then 0 else if a =? 4103 then 7 else 1.

Definition world_ab : Realloc.world Z := Realloc.mkWorld string_mem 8192.

(** A free that leaves the break where it is. *)
Definition free_keep (Node brk : Z) : Z := brk.

End Sample.

(** ** Part II. Lemmas *)

(** *** Machine arithmetic *)

Section MachineFacts.

Import Machine.

Lemma u32_small (x : Z) : 0 <= x < 2 ^ 32 -> u32 x = x.
Proof. intros H. unfold u32. apply Z.mod_small. exact H. Qed.

Lemma u16_small (x : Z) : 0 <= x < 2 ^ 16 -> u16 x = x.
Proof. intros H. unfold u16. apply Z.mod_small. exact H. Qed.

Lemma u32_range (x : Z) : 0 <= u32 x < 2 ^ 32.
Proof. unfold u32. apply Z.mod_pos_bound. lia. Qed.

Lemma testbit_above (x i : Z) : 0 <= x < 2 ^ 32 -> 32 <= i -> Z.testbit x i = false.
Proof.
  intros Hx Hi.
  rewrite <- (Z.mod_small x (2 ^ 32)) by exact Hx.
  apply Z.mod_pow2_bits_high. lia.
Qed.

(** A word whose bits all lie under the mask [m] is at most [m]: this is
    what the test [p & ~m] decides. *)
Lemma land_not32_zero_le (p m : Z) :
  0 <= p < 2 ^ 32 -> 0 <= m < 2 ^ 32 ->
  Z.land p (not32 m) = 0 -> p <= m.
Proof.
  intros Hp Hm H0.
  assert (Hd : Z.ldiff p m = 0).
  { apply Z.bits_inj'. intros i Hi.
    rewrite Z.ldiff_spec, Z.bits_0.
    destruct (Z_lt_ge_dec i 32) as [Hlt | Hge].
    - assert (Hb : Z.testbit (Z.land p (not32 m)) i = false)
        by (rewrite H0; apply Z.bits_0).
      rewrite Z.land_spec in Hb. unfold not32, u32 in Hb.
      rewrite Z.mod_pow2_bits_low, Z.lnot_spec in Hb by lia.
      exact Hb.
    - rewrite (testbit_above p i) by lia. reflexivity. }
  pose proof (Z.sub_nocarry_ldiff m p Hd) as Hs.
  assert (0 <= Z.ldiff m p) by (apply Z.ldiff_nonneg; lia).
  lia.
Qed.

End MachineFacts.

(** *** The interval index *)

Section SplayFacts.

Import Splay.

Lemma retrieve_Some (t : tree) (k : Z) (n : node) :
  adl_splay_retrieve t k = Some n -> In n t /\ covers n k = true.
Proof. unfold adl_splay_retrieve. apply find_some. Qed.

Lemma retrieve_uncovered (t : tree) (k : Z) :
  uncovered t k -> adl_splay_retrieve t k = None.
Proof.
  unfold uncovered, adl_splay_retrieve.
  induction 1 as [| n t Hn _ IH]; simpl.
  - reflexivity.
  - rewrite Hn. exact IH.
Qed.

Lemma retrieve_None (t : tree) (k : Z) :
  adl_splay_retrieve t k = None -> uncovered t k.
Proof.
  unfold uncovered, adl_splay_retrieve.
  induction t as [| n t IH]; simpl; intros H.
  - constructor.
  - destruct (covers n k) eqn:E; [discriminate |].
    constructor; auto.
Qed.

Lemma retrieve_insert_hit (t : tree) (k l tg q : Z) :
  k <= q < k + l ->
  adl_splay_retrieve (adl_splay_insert t k l tg) q = Some (Node k l tg).
Proof.
  intros H. unfold adl_splay_retrieve, adl_splay_insert, covers. simpl.
  assert ((k <=? q) = true) as -> by (apply Z.leb_le; lia).
  assert ((q <? k + l) = true) as -> by (apply Z.ltb_lt; lia).
  reflexivity.
Qed.

Lemma covers_spec (n : node) (k : Z) :
  covers n k = true <-> key n <= k < key n + len n.
Proof.
  unfold covers. rewrite andb_true_iff, Z.leb_le, Z.ltb_lt. tauto.
Qed.

Lemma retrieve_inside (t : tree) (k : Z) :
  Exists (fun n => covers n k = true) t ->
  exists n, adl_splay_retrieve t k = Some n.
Proof.
  intros H. destruct (adl_splay_retrieve t k) as [n |] eqn:E.
  - exists n. reflexivity.
  - apply retrieve_None in E. unfold uncovered in E.
    apply Exists_exists in H. destruct H as (n & Hin & Hc).
    rewrite Forall_forall in E. specialize (E n Hin). congruence.
Qed.

(** In an index without overlap the answer of retrieve does not depend on
    the order in which the records are kept: it is the one record that
    contains the key. *)
Lemma retrieve_no_overlap (t : tree) (k : Z) (n : node) :
  no_overlap t -> In n t -> covers n k = true ->
  adl_splay_retrieve t k = Some n.
Proof.
  intros Hno Hin Hc.
  destruct (retrieve_inside t k) as [n' Hn'].
  { apply Exists_exists. exists n. split; [apply list_elem_of_In; exact Hin | exact Hc]. }
  destruct (retrieve_Some _ _ _ Hn') as [Hin' Hc'].
  rewrite Hn'. f_equal. exact (Hno n' n k Hin' Hin Hc' Hc).
Qed.

End SplayFacts.

(** *** Pool checks *)

Section PoolCheckFacts.

Import Machine Splay Pool.

Lemma in_bounds_covers (n : node) (q : Z) :
  fits n -> covers n q = true -> in_bounds 1 (key n) (len n) q = true.
Proof.
  intros (Hk & Hl & Hf) Hc. apply covers_spec in Hc.
  unfold in_bounds, ptr_add. rewrite u32_small by lia.
  rewrite Z.gtb_ltb. simpl.
  apply andb_true_intro. split; [apply Z.leb_le | apply Z.ltb_lt]; lia.
Qed.

Lemma in_bounds_not_found (Sp len q : Z) : in_bounds 0 Sp len q = false.
Proof. reflexivity. Qed.

Lemma retrieve_out_Some (t : tree) (q l0 : Z) (n : node) :
  adl_splay_retrieve t q = Some n -> retrieve_out t q l0 = (1, key n, len n).
Proof. intros H. unfold retrieve_out. rewrite H. reflexivity. Qed.

Lemma retrieve_out_None (t : tree) (q l0 : Z) :
  adl_splay_retrieve t q = None -> retrieve_out t q l0 = (0, q, l0).
Proof. intros H. unfold retrieve_out. rewrite H. reflexivity. Qed.

Lemma Forall_fits_retrieve (t : tree) (q : Z) (n : node) :
  Forall fits t -> adl_splay_retrieve t q = Some n -> fits n /\ covers n q = true.
Proof.
  intros Hf Hr. apply retrieve_Some in Hr. destruct Hr as [Hin Hc].
  split; [| exact Hc]. rewrite Forall_forall in Hf. apply Hf.
  apply list_elem_of_In. exact Hin.
Qed.

Lemma poolcheck_found (st : Runtime) (Pool q : Z) (D : PoolTy) (n : node) :
  Pool <> 0 -> pools st !! Pool = Some D ->
  adl_splay_retrieve (Objects D) q = Some n -> fits n ->
  poolcheck Pool q st = Returns tt st.
Proof.
  intros HP HD Hr Hf. unfold poolcheck.
  apply Z.eqb_neq in HP. rewrite HP, HD.
  rewrite (retrieve_out_Some _ _ _ _ Hr).
  destruct (retrieve_Some _ _ _ Hr) as [_ Hc].
  rewrite (in_bounds_covers n q Hf Hc). reflexivity.
Qed.

Lemma poolcheck_uncovered (st : Runtime) (Pool q : Z) (D : PoolTy) :
  Pool <> 0 -> pools st !! Pool = Some D -> uncovered (Objects D) q ->
  poolcheck Pool q st = Aborts (fprintf (PoolcheckFailed Pool 0 q 0) st).
Proof.
  intros HP HD Hu. unfold poolcheck.
  apply Z.eqb_neq in HP. rewrite HP, HD.
  rewrite (retrieve_out_None _ _ _ (retrieve_uncovered _ _ Hu)).
  reflexivity.
Qed.

Lemma pools_set_pool (st : Runtime) (Pool : Z) (D : PoolTy) :
  pools (set_pool Pool D st) !! Pool = Some D.
Proof. unfold set_pool. simpl. apply lookup_insert_eq. Qed.

(** C2. After poolregister (Pool, p, n) every q in [p, p+n) passes
    poolcheck; and in any state, a q that no live object of the pool
    contains makes poolcheck print its failure line and abort. *)
Theorem poolregister_poolcheck (st : Runtime) (Pool p n : Z) (D : PoolTy) :
  Pool <> 0 -> pools st !! Pool = Some D -> 0 <= p -> p + n < 2 ^ 32 ->
  let D' := set_Objects (adl_splay_insert (Objects D) p n 0) D in
  let st' := set_pool Pool D' st in
  poolregister Pool p n st = Returns tt st' /\
  (forall q, p <= q < p + n -> poolcheck Pool q st' = Returns tt st') /\
  (forall (st2 : Runtime) (D2 : PoolTy) (q : Z),
     pools st2 !! Pool = Some D2 -> uncovered (Objects D2) q ->
     poolcheck Pool q st2 = Aborts (fprintf (PoolcheckFailed Pool 0 q 0) st2)).
Proof.
  intros HP HD Hp Hn D' st'.
  split; [| split].
  - unfold poolregister. apply Z.eqb_neq in HP. rewrite HP, HD. reflexivity.
  - intros q Hq.
    apply (poolcheck_found st' Pool q D' (Node p n 0)); trivial.
    + apply pools_set_pool.
    + apply retrieve_insert_hit. exact Hq.
    + unfold fits. simpl. lia.
  - intros st2 D2 q HD2 Hu.
    exact (poolcheck_uncovered st2 Pool q D2 HP HD2 Hu).
Qed.

Lemma poolregister_poolcheck_witness :
  poolregister 64 12288 24 Sample.rt = Returns tt Sample.rt_registered /\
  (forall q, 12288 <= q < 12288 + 24 ->
     poolcheck 64 q Sample.rt_registered = Returns tt Sample.rt_registered) /\
  poolcheck 64 20000 Sample.rt_registered
    = Aborts (fprintf (PoolcheckFailed 64 0 20000 0) Sample.rt_registered).
Proof.
  destruct (poolregister_poolcheck Sample.rt 64 12288 24 Sample.pool)
    as (Hreg & Hin & Hout); [lia | reflexivity | lia | lia |].
  split; [exact Hreg | split; [exact Hin |]].
  refine (Hout Sample.rt_registered _ 20000 eq_refl _).
  repeat constructor.
Defined.

(** C10. With a NULL pool handle poolcheck, poolcheckui, poolregister and
    poolunregister return at once: the state, stderr included, is the one
    they were called in, whatever the pointer and whatever the state (no
    pool descriptor and no index is read). *)
Theorem null_pool_is_noop (st : Runtime) (Node NumBytes : Z) :
  poolcheck 0 Node st = Returns tt st /\
  poolcheckui 0 Node st = Returns tt st /\
  poolregister 0 Node NumBytes st = Returns tt st /\
  poolunregister 0 Node st = Returns tt st.
Proof. repeat split. Qed.

Lemma poolcheckui_found (st : Runtime) (Pool q : Z) (D : PoolTy) (n : node) :
  Pool <> 0 -> pools st !! Pool = Some D ->
  adl_splay_retrieve (Objects D) q = Some n -> fits n ->
  poolcheckui Pool q st = Returns tt st.
Proof.
  intros HP HD Hr Hf. unfold poolcheckui.
  apply Z.eqb_neq in HP. rewrite HP, HD.
  rewrite (retrieve_out_Some _ _ _ _ Hr).
  destruct (retrieve_Some _ _ _ Hr) as [_ Hc].
  rewrite (in_bounds_covers n q Hf Hc). reflexivity.
Qed.

Lemma poolcheckui_external (st : Runtime) (Pool q : Z) (D : PoolTy) (n : node) :
  Pool <> 0 -> pools st !! Pool = Some D ->
  adl_splay_retrieve (Objects D) q = None ->
  adl_splay_retrieve (ExternalObjects st) q = Some n -> fits n ->
  poolcheckui Pool q st = Returns tt st.
Proof.
  intros HP HD Hr He Hf. unfold poolcheckui.
  apply Z.eqb_neq in HP. rewrite HP, HD.
  rewrite (retrieve_out_None _ _ _ Hr), in_bounds_not_found.
  rewrite (retrieve_out_Some _ _ _ _ He).
  destruct (retrieve_Some _ _ _ He) as [_ Hc].
  rewrite (in_bounds_covers n q Hf Hc). reflexivity.
Qed.

(** C7. poolcheckui returns silently when the pointer lies in a live object
    of the pool or in a registered external object; when neither index
    contains it, poolcheckui prints a warning and returns, where poolcheck
    prints its failure line and aborts. *)
Theorem poolcheckui_warns (st : Runtime) (Pool q : Z) (D : PoolTy) :
  Pool <> 0 -> pools st !! Pool = Some D ->
  Forall fits (Objects D) -> Forall fits (ExternalObjects st) ->
  (inside (Objects D) q \/ inside (ExternalObjects st) q ->
     poolcheckui Pool q st = Returns tt st) /\
  (uncovered (Objects D) q -> uncovered (ExternalObjects st) q ->
     poolcheckui Pool q st
       = Returns tt (fprintf (PoolcheckUIFailed Pool 0 q 0) st) /\
     poolcheck Pool q st = Aborts (fprintf (PoolcheckFailed Pool 0 q 0) st)).
Proof.
  intros HP HD HfO HfE. split.
  - intros Hin.
    destruct (adl_splay_retrieve (Objects D) q) as [n |] eqn:Hr.
    + destruct (Forall_fits_retrieve _ _ _ HfO Hr) as [Hf _].
      exact (poolcheckui_found st Pool q D n HP HD Hr Hf).
    + destruct Hin as [Hin | Hin].
      * apply retrieve_inside in Hin. destruct Hin as [n Hn]. congruence.
      * apply retrieve_inside in Hin. destruct Hin as [n Hn].
        destruct (Forall_fits_retrieve _ _ _ HfE Hn) as [Hf _].
        exact (poolcheckui_external st Pool q D n HP HD Hr Hn Hf).
  - intros HuO HuE. split.
    + unfold poolcheckui. pose proof HP as HP'.
      apply Z.eqb_neq in HP'. rewrite HP', HD.
      rewrite (retrieve_out_None _ _ _ (retrieve_uncovered _ _ HuO)).
      rewrite in_bounds_not_found.
      rewrite (retrieve_out_None _ _ _ (retrieve_uncovered _ _ HuE)).
      reflexivity.
    + exact (poolcheck_uncovered st Pool q D HP HD HuO).
Qed.

Lemma sample_fits :
  Forall fits (Objects Sample.pool) /\ Forall fits (ExternalObjects Sample.rt).
Proof. split; repeat constructor; simpl; lia. Qed.

Lemma poolcheckui_warns_witness :
  poolcheckui 64 8200 Sample.rt = Returns tt Sample.rt /\
  poolcheckui 64 20000 Sample.rt
    = Returns tt (fprintf (PoolcheckUIFailed 64 0 20000 0) Sample.rt) /\
  poolcheck 64 20000 Sample.rt
    = Aborts (fprintf (PoolcheckFailed 64 0 20000 0) Sample.rt).
Proof.
  destruct (poolcheckui_warns Sample.rt 64 8200 Sample.pool) as [Hin _];
    [lia | reflexivity | apply sample_fits | apply sample_fits |].
  destruct (poolcheckui_warns Sample.rt 64 20000 Sample.pool) as [_ Hout];
    [lia | reflexivity | apply sample_fits | apply sample_fits |].
  split.
  - apply Hin. right. constructor. reflexivity.
  - apply Hout; repeat constructor.
Defined.

End PoolCheckFacts.

(** *** Out-of-bounds rewriting *)

Section RewriteFacts.

Import Machine Splay Pool.

Variables InvalidLower InvalidUpper : Z.

Hypothesis region : 0 <= InvalidLower < InvalidUpper /\ InvalidUpper < 2 ^ 32.

Local Abbreviation next_invalidptr := (next_invalidptr InvalidLower).
Local Abbreviation out_of_rewrite_ptrs := (out_of_rewrite_ptrs InvalidUpper).
Local Abbreviation cursor_ok := (cursor_ok InvalidLower).
Local Abbreviation boundscheck := (boundscheck InvalidLower InvalidUpper).
Local Abbreviation boundscheckui := (boundscheckui InvalidLower InvalidUpper).
Local Abbreviation pchk_getActualValue := (pchk_getActualValue InvalidLower InvalidUpper).

Lemma out_of_rewrite_ptrs_false (p : Z) :
  0 <= p < 2 ^ 32 -> out_of_rewrite_ptrs p = false -> p < InvalidUpper.
Proof.
  intros Hp H. unfold Pool.out_of_rewrite_ptrs in H.
  apply negb_false_iff, Z.eqb_eq in H.
  rewrite u32_small in H by lia.
  apply land_not32_zero_le in H; lia.
Qed.

Lemma out_of_rewrite_ptrs_above (p : Z) :
  0 <= p < 2 ^ 32 -> InvalidUpper <= p -> out_of_rewrite_ptrs p = true.
Proof.
  intros Hp H. destruct (out_of_rewrite_ptrs p) eqn:E; [reflexivity |].
  apply out_of_rewrite_ptrs_false in E; lia.
Qed.

Lemma next_invalidptr_range (st : Runtime) : 0 <= next_invalidptr st < 2 ^ 32.
Proof. unfold Pool.next_invalidptr, ptr_add. apply u32_range. Qed.

Lemma next_invalidptr_above (st : Runtime) :
  cursor_ok st -> InvalidLower < next_invalidptr st.
Proof.
  unfold Pool.cursor_ok, Pool.next_invalidptr, ptr_add. intros [H0 | Hc].
  - rewrite H0. simpl. rewrite u32_small; lia.
  - destruct (invalidptr st =? 0) eqn:E.
    + rewrite u32_small; lia.
    + rewrite u32_small; lia.
Qed.

Lemma getActualValue_outside (st : Runtime) (Pool src : Z) :
  0 <= src < 2 ^ 32 -> src < InvalidLower \/ InvalidUpper <= src ->
  pchk_getActualValue Pool src st = Returns src st.
Proof.
  intros Hs Ho. unfold Pool.pchk_getActualValue.
  destruct (src <=? InvalidLower) eqn:E; [reflexivity |].
  apply Z.leb_gt in E.
  rewrite out_of_rewrite_ptrs_above by lia. reflexivity.
Qed.

Lemma getActualValue_rewritten (st : Runtime) (Pool P Dest : Z) (D : PoolTy) :
  InvalidLower < P -> out_of_rewrite_ptrs P = false ->
  pchk_getActualValue Pool P (rewritten Pool P Dest D st)
    = Returns Dest (rewritten Pool P Dest D st).
Proof.
  intros Hl Ho. unfold Pool.pchk_getActualValue.
  assert ((P <=? InvalidLower) = false) as -> by (apply Z.leb_gt; lia).
  rewrite Ho. unfold rewritten at 1. rewrite pools_set_pool.
  unfold set_OOB, OOB at 1. rewrite retrieve_insert_hit by lia. reflexivity.
Qed.

Lemma in_bounds_past_end (n : node) (Dest : Z) :
  fits n -> key n + len n <= Dest -> in_bounds 1 (key n) (len n) Dest = false.
Proof.
  intros (Hk & Hl & Hf) Hd. unfold in_bounds, ptr_add.
  rewrite u32_small by lia. rewrite Z.gtb_ltb.
  assert ((Dest <? key n + len n) = false) as -> by (apply Z.ltb_ge; lia).
  apply andb_false_r.
Qed.

Lemma in_bounds_before (n : node) (Dest : Z) :
  Dest < key n -> in_bounds 1 (key n) (len n) Dest = false.
Proof.
  intros Hd. unfold in_bounds.
  assert ((key n <=? Dest) = false) as -> by (apply Z.leb_gt; lia).
  reflexivity.
Qed.

Lemma boundscheck_inside (st : Runtime) (Pool Source Dest : Z) (D : PoolTy) (n : node) :
  pools st !! Pool = Some D -> adl_splay_retrieve (Objects D) Source = Some n ->
  fits n -> key n <= Dest < key n + len n ->
  boundscheck Pool Source Dest st = Returns Dest st.
Proof.
  intros HD Hr Hf Hd. unfold Pool.boundscheck.
  rewrite HD, (retrieve_out_Some _ _ _ _ Hr).
  rewrite in_bounds_covers; [reflexivity | exact Hf | apply covers_spec; exact Hd].
Qed.

Lemma boundscheck_one_past (st : Runtime) (Pool Source : Z) (D : PoolTy) (n : node) :
  pools st !! Pool = Some D -> adl_splay_retrieve (Objects D) Source = Some n ->
  fits n ->
  boundscheck Pool Source (key n + len n) st =
    let P := next_invalidptr st in
    if out_of_rewrite_ptrs P
    then Returns (key n + len n)
           (fprintf (BoundscheckOutOfRewritePtrs Source (key n + len n))
                    (set_invalidptr P st))
    else Returns P (rewritten Pool P (key n + len n) D st).
Proof.
  intros HD Hr Hf. unfold Pool.boundscheck.
  rewrite HD, (retrieve_out_Some _ _ _ _ Hr).
  rewrite in_bounds_past_end by (trivial; lia).
  unfold ptr_add. destruct Hf as (Hk & Hl & Hf).
  rewrite u32_small by lia. rewrite Z.eqb_refl. reflexivity.
Qed.

Lemma boundscheck_outside (st : Runtime) (Pool Source Dest : Z) (D : PoolTy) (n : node) :
  pools st !! Pool = Some D -> adl_splay_retrieve (Objects D) Source = Some n ->
  fits n -> Dest < key n \/ key n + len n < Dest ->
  boundscheck Pool Source Dest st
    = Aborts (fprintf (BoundscheckOutOfObject Pool 1 Source Dest (len n)) st).
Proof.
  intros HD Hr Hf Hd. unfold Pool.boundscheck.
  rewrite HD, (retrieve_out_Some _ _ _ _ Hr).
  assert (in_bounds 1 (key n) (len n) Dest = false) as ->.
  { destruct Hd; [apply in_bounds_before | apply in_bounds_past_end]; trivial; lia. }
  unfold ptr_add. pose proof Hf as (Hk & Hl & Hf').
  rewrite u32_small by lia.
  assert ((Dest =? key n + len n) = false) as -> by (apply Z.eqb_neq; lia).
  reflexivity.
Qed.

Lemma boundscheckui_one_past (st : Runtime) (Pool Source : Z) (D : PoolTy) (n : node) :
  pools st !! Pool = Some D -> adl_splay_retrieve (Objects D) Source = Some n ->
  fits n ->
  boundscheckui Pool Source (key n + len n) st =
    let P := next_invalidptr st in
    if out_of_rewrite_ptrs P
    then Returns (key n + len n)
           (fprintf (BoundscheckuiOutOfRewritePtrs Source (key n + len n))
                    (set_invalidptr P st))
    else Returns P (rewritten Pool P (key n + len n) D st).
Proof.
  intros HD Hr Hf. unfold Pool.boundscheckui.
  rewrite HD, (retrieve_out_Some _ _ _ _ Hr).
  pose proof (in_bounds_past_end n (key n + len n) Hf (Z.le_refl _)) as Hb.
  unfold in_bounds in Hb. rewrite <- andb_assoc in Hb. rewrite Hb.
  unfold ptr_add. destruct Hf as (Hk & Hl & Hf).
  rewrite u32_small by lia. rewrite Z.eqb_refl. reflexivity.
Qed.

(** When [InvalidUpper] is a power of two, the mask test of the run-time
    says that the pointer is below [InvalidUpper]; in general it only
    implies it. *)
Lemma out_of_rewrite_ptrs_pow2 (p k : Z) :
  0 <= p < 2 ^ 32 -> 0 <= k -> InvalidUpper = 2 ^ k ->
  (out_of_rewrite_ptrs p = false <-> p < InvalidUpper).
Proof.
  intros Hp Hk HU. split.
  - apply out_of_rewrite_ptrs_false. exact Hp.
  - intros Hlt. unfold Pool.out_of_rewrite_ptrs.
    apply negb_false_iff, Z.eqb_eq.
    destruct region as [_ Hup].
    assert (Hk32 : k < 32).
    { apply (Z.pow_lt_mono_r_iff 2); [lia | lia |]. rewrite <- HU. exact Hup. }
    rewrite u32_small by lia.
    apply Z.bits_inj'. intros i Hi. rewrite Z.land_spec, Z.bits_0.
    destruct (Z_lt_le_dec i k) as [Hik | Hki].
    + unfold not32, u32. rewrite Z.mod_pow2_bits_low by lia.
      rewrite Z.lnot_spec by lia.
      rewrite HU, Z.sub_1_r, <- Z.ones_equiv.
      rewrite Z.ones_spec_low by lia. apply andb_false_r.
    + assert (Z.testbit p i = false) as ->; [| reflexivity].
      rewrite <- (Z.mod_small p (2 ^ k)) by lia.
      apply Z.mod_pow2_bits_high. lia.
Qed.

Lemma cursor_below_next (st : Runtime) :
  cursor_ok st -> invalidptr st < next_invalidptr st.
Proof.
  unfold Pool.cursor_ok, Pool.next_invalidptr, ptr_add. intros [H0 | Hc].
  - rewrite H0. simpl. rewrite u32_small; lia.
  - destruct (Z.eqb_spec (invalidptr st) 0) as [E | E]; rewrite u32_small; lia.
Qed.

(** C1, amended. With [Source] inside a live record [n] of the pool,
    boundscheck returns [Dest] itself when [Dest] lies in
    [key n, key n + len n), and for every [Dest] other than these and the
    one-past-the-end address it prints its failure line and aborts.  For the
    one-past-the-end address, in a state whose cursor is unset or in
    [InvalidLower, 2^32 - 1), it moves the cursor up to the next pointer [P],
    which is above [InvalidLower] and above the cursor, and stores it.  When
    the mask test [P & ~(InvalidUpper - 1)] gives zero it records (P, Dest)
    in the OOB index of the pool and returns [P], which lies in the
    reserved region and which pchk_getActualValue maps back to [Dest]; when
    the test does not give zero it prints the out-of-rewrite-pointers line
    and returns [Dest].  The test gives zero only for a [P] below
    [InvalidUpper], and for every such [P] when [InvalidUpper] is a power of
    two. *)
Theorem boundscheck_three_ways
  (st : Runtime) (Pool Source Dest : Z) (D : PoolTy) (n : node) :
  pools st !! Pool = Some D ->
  adl_splay_retrieve (Objects D) Source = Some n -> fits n ->
  (key n <= Dest < key n + len n ->
     boundscheck Pool Source Dest st = Returns Dest st) /\
  (Dest = key n + len n -> cursor_ok st ->
     invalidptr st < next_invalidptr st /\
     InvalidLower < next_invalidptr st /\
     (out_of_rewrite_ptrs (next_invalidptr st) = false ->
        boundscheck Pool Source Dest st
          = Returns (next_invalidptr st)
              (rewritten Pool (next_invalidptr st) Dest D st) /\
        invalidptr (rewritten Pool (next_invalidptr st) Dest D st)
          = next_invalidptr st /\
        pools (rewritten Pool (next_invalidptr st) Dest D st) !! Pool
          = Some (set_OOB (adl_splay_insert (OOB D) (next_invalidptr st) 1 Dest) D) /\
        InvalidLower < next_invalidptr st < InvalidUpper /\
        pchk_getActualValue Pool (next_invalidptr st)
            (rewritten Pool (next_invalidptr st) Dest D st)
          = Returns Dest (rewritten Pool (next_invalidptr st) Dest D st)) /\
     (out_of_rewrite_ptrs (next_invalidptr st) = true ->
        boundscheck Pool Source Dest st
          = Returns Dest
              (fprintf (BoundscheckOutOfRewritePtrs Source Dest)
                 (set_invalidptr (next_invalidptr st) st))) /\
     (forall k : Z, 0 <= k -> InvalidUpper = 2 ^ k ->
        (out_of_rewrite_ptrs (next_invalidptr st) = false
         <-> next_invalidptr st < InvalidUpper))) /\
  (Dest < key n \/ key n + len n < Dest ->
     boundscheck Pool Source Dest st
       = Aborts (fprintf (BoundscheckOutOfObject Pool 1 Source Dest (len n)) st)).
Proof.
  intros HD Hr Hf. split; [| split].
  - intros Hd. exact (boundscheck_inside st Pool Source Dest D n HD Hr Hf Hd).
  - intros -> Hc.
    pose proof (next_invalidptr_above st Hc) as Hlo.
    pose proof (boundscheck_one_past st Pool Source D n HD Hr Hf) as Hcall.
    cbv zeta in Hcall.
    split; [exact (cursor_below_next st Hc) | split; [exact Hlo | split; [| split]]].
    + intros Ho.
      pose proof (out_of_rewrite_ptrs_false _ (next_invalidptr_range st) Ho) as Hhi.
      rewrite Ho in Hcall.
      split; [exact Hcall | split; [reflexivity | split; [| split]]].
      * unfold rewritten. apply pools_set_pool.
      * lia.
      * apply getActualValue_rewritten; assumption.
    + intros Ho. rewrite Ho in Hcall. exact Hcall.
    + intros k Hk HU.
      exact (out_of_rewrite_ptrs_pow2 _ k (next_invalidptr_range st) Hk HU).
  - intros Hd. exact (boundscheck_outside st Pool Source Dest D n HD Hr Hf Hd).
Qed.

Lemma boundscheckui_outside
  (st : Runtime) (Pool Source Dest : Z) (D : PoolTy) (n : node) :
  pools st !! Pool = Some D -> adl_splay_retrieve (Objects D) Source = Some n ->
  fits n -> Dest < key n \/ key n + len n < Dest -> Source <> 0 ->
  exists st', boundscheckui Pool Source Dest st = Returns Dest st'.
Proof.
  intros HD Hr Hf Hd HS. unfold Pool.boundscheckui.
  rewrite HD, (retrieve_out_Some _ _ _ _ Hr).
  assert (Hb : in_bounds 1 (key n) (len n) Dest = false).
  { destruct Hd; [apply in_bounds_before | apply in_bounds_past_end]; trivial; lia. }
  unfold in_bounds in Hb. rewrite <- andb_assoc in Hb. rewrite Hb.
  unfold ptr_add. pose proof Hf as (Hk & Hl & Hf').
  rewrite u32_small by lia.
  assert ((Dest =? key n + len n) = false) as -> by (apply Z.eqb_neq; lia).
  apply Z.eqb_neq in HS. rewrite HS. cbn [negb andb].
  destruct (retrieve_out (ExternalObjects st) Source 0) as [[fs Sp] len].
  destruct (negb (fs =? 0)); [| eexists; reflexivity].
  destruct ((Sp <=? Dest) && (u32 (Sp + len) >? Dest)); eexists; reflexivity.
Qed.

End RewriteFacts.

Section RewriteSamples.

Import Machine Splay Pool.

Local Abbreviation boundscheck := (boundscheck Sample.InvalidLower Sample.InvalidUpper).
Local Abbreviation pchk_getActualValue :=
  (pchk_getActualValue Sample.InvalidLower Sample.InvalidUpper).

Lemma sample_region :
  0 <= Sample.InvalidLower < Sample.InvalidUpper /\ Sample.InvalidUpper < 2 ^ 32.
Proof. unfold Sample.InvalidLower, Sample.InvalidUpper. lia. Qed.

Lemma sample_object_fits : fits (Node 4096 16 0).
Proof. unfold fits. simpl. lia. Qed.

(** The 16-byte object at 4096 and its one-past-the-end address 4112: the
    call returns the rewrite pointer 0xc0000001, not 4112. *)
Example boundscheck_sample_one_past :
  exists st', boundscheck 64 4096 4112 Sample.rt = Returns 3221225473 st'.
Proof. eexists. vm_compute. reflexivity. Qed.

(** C1 as stated fails: for the one-past-the-end address boundscheck does
    not return [Dest]. *)
Lemma boundscheck_one_past_is_rewritten :
  ~ ((exists st', boundscheck 64 4096 4112 Sample.rt = Returns 4112 st')
     <-> (covers (Node 4096 16 0) 4112 = true \/ 4112 = 4096 + 16)).
Proof.
  intros [_ H]. destruct H as [st' H]; [right; reflexivity |].
  destruct boundscheck_sample_one_past as [st'' H'].
  rewrite H' in H. discriminate H.
Qed.

Lemma sample_cursor_ok : Pool.cursor_ok Sample.InvalidLower Sample.rt.
Proof. left. reflexivity. Qed.

Lemma boundscheck_three_ways_witness :
  boundscheck 64 4100 4104 Sample.rt = Returns 4104 Sample.rt /\
  (invalidptr Sample.rt < 3221225473 /\
   boundscheck 64 4100 4112 Sample.rt
     = Returns 3221225473 (rewritten 64 3221225473 4112 Sample.pool Sample.rt) /\
   invalidptr (rewritten 64 3221225473 4112 Sample.pool Sample.rt) = 3221225473 /\
   Sample.InvalidLower < 3221225473 < Sample.InvalidUpper /\
   pchk_getActualValue 64 3221225473
       (rewritten 64 3221225473 4112 Sample.pool Sample.rt)
     = Returns 4112 (rewritten 64 3221225473 4112 Sample.pool Sample.rt)) /\
  boundscheck 64 4100 5000 Sample.rt
    = Aborts (fprintf (BoundscheckOutOfObject 64 1 4100 5000 16) Sample.rt).
Proof.
  split; [| split].
  - refine (proj1 (boundscheck_three_ways Sample.InvalidLower Sample.InvalidUpper
              sample_region Sample.rt 64 4100 4104 Sample.pool (Node 4096 16 0)
              eq_refl eq_refl sample_object_fits) _).
    simpl. lia.
  - destruct (proj1 (proj2 (boundscheck_three_ways Sample.InvalidLower
                Sample.InvalidUpper sample_region Sample.rt 64 4100 4112 Sample.pool
                (Node 4096 16 0) eq_refl eq_refl sample_object_fits))
              eq_refl sample_cursor_ok) as (Hfresh & _ & Hmint & _ & _).
    destruct (Hmint eq_refl) as (Hcall & Hcur & _ & Hin & Hget).
    split; [exact Hfresh | split; [exact Hcall | split; [exact Hcur |
      split; [exact Hin | exact Hget]]]].
  - refine (proj2 (proj2 (boundscheck_three_ways Sample.InvalidLower Sample.InvalidUpper
              sample_region Sample.rt 64 4100 5000 Sample.pool (Node 4096 16 0)
              eq_refl eq_refl sample_object_fits)) _).
    right. simpl. lia.
Defined.

(** The mask test and the region differ when [InvalidUpper] is not a power
    of two: with the region ending at 0xf0000000 and the cursor at
    0xcfffffff, the next pointer 0xd0000000 lies in the region, the test
    fires on it and boundscheck returns 4112. *)
Example boundscheck_mask_inside_region :
  Sample.InvalidLower < Pool.next_invalidptr Sample.InvalidLower Sample.rt_inside
    < Sample.InvalidUpper /\
  boundscheck 64 4100 4112 Sample.rt_inside
    = Returns 4112
        (fprintf (BoundscheckOutOfRewritePtrs 4100 4112)
           (set_invalidptr 3489660928 Sample.rt_inside)).
Proof. split; [split; reflexivity | vm_compute; reflexivity]. Qed.

(** With a region that ends at a power of two, here 2^31, the mask test
    is the comparison with [InvalidUpper]. *)
Example mask_test_power_of_two :
  Pool.out_of_rewrite_ptrs (2 ^ 31) (2 ^ 31 - 1) = false /\
  Pool.out_of_rewrite_ptrs (2 ^ 31) (2 ^ 31) = true.
Proof. split; reflexivity. Qed.

End RewriteSamples.

(** *** Indirect call targets *)

Section FunccheckFacts.

Import Machine Pool.

Lemma funccheck_scan_spec (f : Z) (ap : list Z) :
  forall i : Z, 0 <= i -> i + Z.of_nat (length ap) < 2 ^ 32 ->
  funccheck_scan i (i + Z.of_nat (length ap)) f ap = Some (existsb (Z.eqb f) ap).
Proof.
  induction ap as [| h ap IH]; intros i Hi Hlen.
  - simpl. rewrite Z.add_0_r, Z.eqb_refl. reflexivity.
  - cbn [funccheck_scan existsb]. cbn [length] in *.
    assert ((i =? i + Z.of_nat (S (length ap))) = false) as ->
      by (apply Z.eqb_neq; lia).
    destruct (f =? h); [reflexivity |].
    rewrite u32_small by lia.
    replace (i + Z.of_nat (S (length ap))) with (i + 1 + Z.of_nat (length ap)) by lia.
    rewrite IH by lia. reflexivity.
Qed.

Lemma existsb_eqb_In (f : Z) (l : list Z) : existsb (Z.eqb f) l = true <-> In f l.
Proof.
  rewrite existsb_exists. split.
  - intros (x & Hin & Heq). apply Z.eqb_eq in Heq. subst. exact Hin.
  - intros Hin. exists f. split; [exact Hin | apply Z.eqb_refl].
Qed.

(** C9. Called with the count and the list of its candidates, funccheck
    returns, leaving the state as it was, when [f] is one of the
    candidates, and aborts when it is none of them. *)
Theorem funccheck_iff_listed (st : Runtime) (f g : Z) (rest : list Z) :
  Z.of_nat (length (g :: rest)) < 2 ^ 32 ->
  (In f (g :: rest) ->
     funccheck (Z.of_nat (length (g :: rest))) f g rest st = Returns tt st) /\
  (~ In f (g :: rest) ->
     funccheck (Z.of_nat (length (g :: rest))) f g rest st = Aborts st).
Proof.
  intros Hlen. unfold funccheck.
  change (u32 (0 + 1)) with 1.
  replace (Z.of_nat (length (g :: rest))) with (1 + Z.of_nat (length rest))
    by (cbn [length]; lia).
  rewrite funccheck_scan_spec by (cbn [length] in Hlen; lia).
  split.
  - intros Hin. destruct (f =? g) eqn:E; [reflexivity |].
    destruct Hin as [Hg | Hin].
    + apply Z.eqb_neq in E. congruence.
    + apply existsb_eqb_In in Hin. rewrite Hin. reflexivity.
  - intros Hnot. destruct (f =? g) eqn:E.
    + apply Z.eqb_eq in E. exfalso. apply Hnot. left. congruence.
    + destruct (existsb (Z.eqb f) rest) eqn:Ex.
      * apply existsb_eqb_In in Ex. exfalso. apply Hnot. right. exact Ex.
      * reflexivity.
Qed.

Lemma funccheck_iff_listed_witness :
  funccheck 3 1000 1000 [2000; 3000] Sample.rt = Returns tt Sample.rt /\
  funccheck 3 4000 1000 [2000; 3000] Sample.rt = Aborts Sample.rt.
Proof.
  split.
  - refine (proj1 (funccheck_iff_listed Sample.rt 1000 1000 [2000; 3000] _) _).
    + simpl. lia.
    + left. reflexivity.
  - refine (proj2 (funccheck_iff_listed Sample.rt 4000 1000 [2000; 3000] _) _).
    + simpl. lia.
    + simpl. lia.
Defined.

(** A count of 0 is not a call of this shape: [g] is compared all the
    same, and the loop then asks va_arg for arguments that were not
    passed. *)
Example funccheck_count_0 :
  funccheck 0 1000 1000 [] Sample.rt = Returns tt Sample.rt /\
  funccheck 0 4000 1000 [] Sample.rt = Faults.
Proof. split; reflexivity. Qed.

End FunccheckFacts.

(** *** poolrealloc *)

Section ReallocFacts.

Import Realloc.

Lemma memcpy_bytes_outside (n : nat) :
  forall (dst src : Z) (m : memory) (a : Z),
  ~ (dst <= a < dst + Z.of_nat n) -> memcpy_bytes n dst src m a = m a.
Proof.
  induction n as [| n IH]; intros dst src m a Ha.
  - reflexivity.
  - cbn [memcpy_bytes]. rewrite IH by lia.
    unfold store. destruct (a =? dst) eqn:E; [| reflexivity].
    apply Z.eqb_eq in E. lia.
Qed.

Lemma memcpy_bytes_copied (n : nat) :
  forall (dst src : Z) (m : memory) (i : Z),
  apart dst src (Z.of_nat n) -> 0 <= i < Z.of_nat n ->
  memcpy_bytes n dst src m (dst + i) = m (src + i).
Proof.
  unfold apart. induction n as [| n IH]; intros dst src m i Hap Hi.
  - lia.
  - cbn [memcpy_bytes].
    destruct (Z.eq_dec i 0) as [-> | Hne].
    + rewrite memcpy_bytes_outside by lia.
      unfold store. rewrite !Z.add_0_r, Z.eqb_refl. reflexivity.
    + replace (dst + i) with (dst + 1 + (i - 1)) by lia.
      rewrite IH by lia.
      unfold store.
      assert ((src + 1 + (i - 1) =? dst) = false) as -> by (apply Z.eqb_neq; lia).
      f_equal. lia.
Qed.

Lemma memcpy_copied (dst src n : Z) (m : memory) (i : Z) :
  apart dst src n -> 0 <= i < n -> memcpy dst src n m (dst + i) = m (src + i).
Proof.
  intros Hap Hi. unfold memcpy.
  apply memcpy_bytes_copied; rewrite Z2Nat.id by lia; assumption.
Qed.

Lemma memcpy_outside (dst src n : Z) (m : memory) (a : Z) :
  ~ (dst <= a < dst + n) -> memcpy dst src n m a = m a.
Proof.
  intros Ha. unfold memcpy. apply memcpy_bytes_outside.
  destruct (Z_le_gt_dec 0 n).
  - rewrite Z2Nat.id by lia. exact Ha.
  - rewrite Z2Nat.nonpos by lia. simpl. lia.
Qed.

Variable heap : Type.

Variable poolalloc : Z -> Z -> world heap -> result heap Z.

Variable poolfree : Z -> Z -> world heap -> result heap unit.

Local Abbreviation poolrealloc := (poolrealloc poolalloc poolfree).

(** The three cases of the pool allocator's poolrealloc, and what the copy
    of the third leaves in memory. *)
Lemma poolrealloc_cases (Pool Node NumBytes : Z) (w : world heap) :
  (Node = 0 -> poolrealloc Pool Node NumBytes w = poolalloc Pool NumBytes w) /\
  (Node <> 0 -> NumBytes = 0 ->
     poolrealloc Pool Node NumBytes w
       = bind (poolfree Pool Node w) (fun _ w' => Done 0 w')) /\
  (Node <> 0 -> NumBytes <> 0 ->
     forall (New : Z) (w1 : world heap),
     poolalloc Pool NumBytes w = Done New w1 ->
     poolrealloc Pool Node NumBytes w
       = bind (poolfree Pool Node (do_memcpy New Node NumBytes w1))
              (fun _ w' => Done New w') /\
     allocator (do_memcpy New Node NumBytes w1) = allocator w1 /\
     (forall a, ~ (New <= a < New + NumBytes) ->
        mem (do_memcpy New Node NumBytes w1) a = mem w1 a) /\
     (apart New Node NumBytes ->
      forall i, 0 <= i < NumBytes ->
        mem (do_memcpy New Node NumBytes w1) (New + i) = mem w1 (Node + i))).
Proof.
  split; [| split].
  - intros ->. reflexivity.
  - intros HN ->. unfold Realloc.poolrealloc.
    apply Z.eqb_neq in HN. rewrite HN. reflexivity.
  - intros HN Hn New w1 Ha. unfold Realloc.poolrealloc.
    apply Z.eqb_neq in HN, Hn. rewrite HN, Hn, Ha.
    split; [reflexivity | split; [reflexivity | split]].
    + intros a Hout. apply memcpy_outside. exact Hout.
    + intros Hap i Hi. apply memcpy_copied; assumption.
Qed.

End ReallocFacts.

(** *** Slabs: the flag bits *)

Section SlabBits.

Import Machine Slab.

Lemma land_bit_testbit (w k : Z) :
  0 <= k -> negb (Z.land w (Z.shiftl 1 k) =? 0) = Z.testbit w k.
Proof.
  intros Hk. rewrite Z.shiftl_1_l.
  destruct (Z.testbit w k) eqn:E.
  - apply negb_true_iff, Z.eqb_neq. intros H0.
    assert (Hb : Z.testbit (Z.land w (2 ^ k)) k = true)
      by (rewrite Z.land_spec, E, Z.pow2_bits_true by exact Hk; reflexivity).
    rewrite H0, Z.bits_0 in Hb. discriminate.
  - apply negb_false_iff, Z.eqb_eq, Z.bits_inj'. intros i Hi.
    rewrite Z.land_spec, Z.bits_0, Z.pow2_bits_eqb by exact Hk.
    destruct (Z.eqb_spec k i) as [<- | _]; [rewrite E |]; auto using andb_false_r.
Qed.

Lemma test_bit_testbit (v : list Z) (n sh : Z) :
  0 <= sh ->
  test_bit v n sh = Z.testbit (flags_word v (n / 16)) (Z.land n 15 + sh).
Proof.
  intros Hsh. unfold test_bit. apply land_bit_testbit.
  assert (0 <= Z.land n 15) by (apply Z.land_nonneg; lia). lia.
Qed.

Lemma land_15 (n : Z) : Z.land n 15 = n mod 16.
Proof. change 15 with (Z.ones 4). rewrite Z.land_ones by lia. reflexivity. Qed.

Lemma land_15_range (n : Z) : 0 <= Z.land n 15 < 16.
Proof. rewrite land_15. apply Z.mod_pos_bound. lia. Qed.

Lemma same_node (m n : Z) :
  (m / 16 =? n / 16) && (Z.land m 15 =? Z.land n 15) = (m =? n).
Proof.
  rewrite !land_15.
  destruct (Z.eqb_spec m n) as [-> | Hne].
  - rewrite !Z.eqb_refl. reflexivity.
  - destruct (Z.eqb_spec (m / 16) (n / 16)) as [Hd |]; [| reflexivity].
    destruct (Z.eqb_spec (m mod 16) (n mod 16)) as [Hm |]; [| reflexivity].
    exfalso. apply Hne.
    rewrite (Z.div_mod m 16), (Z.div_mod n 16) by lia. congruence.
Qed.

Lemma in_vec_word (v : list Z) (n : Z) :
  in_vec v n -> (Z.to_nat (n / 16) < length v)%nat.
Proof.
  unfold in_vec. intros H.
  assert (0 <= n / 16 < Z.of_nat (length v)).
  { split; [apply Z.div_pos; lia | apply Z.div_lt_upper_bound; lia]. }
  lia.
Qed.

Lemma flags_word_set (v : list Z) (i j w : Z) :
  0 <= i -> 0 <= j -> (Z.to_nat i < length v)%nat ->
  flags_word (set_flags_word v i w) j = if i =? j then w else flags_word v j.
Proof.
  intros Hi Hj Hlen. unfold flags_word, set_flags_word.
  destruct (Z.eqb_spec i j) as [-> | Hne].
  - rewrite list_lookup_insert_eq by exact Hlen. reflexivity.
  - rewrite list_lookup_insert_ne by lia. reflexivity.
Qed.

Lemma length_set_flags_word (v : list Z) (i w : Z) :
  length (set_flags_word v i w) = length v.
Proof. unfold set_flags_word. apply length_insert. Qed.

Lemma test_bit_or_bit (v : list Z) (n m sh sh' : Z) :
  in_vec v n -> 0 <= m -> 0 <= sh <= 16 -> 0 <= sh' ->
  test_bit (or_bit v n sh) m sh' =
    test_bit v m sh'
    || ((m / 16 =? n / 16) && (Z.land m 15 + sh' =? Z.land n 15 + sh)).
Proof.
  intros Hn Hm Hsh Hsh'. pose proof (in_vec_word v n Hn) as Hw.
  pose proof (land_15_range n) as Hb. pose proof (land_15_range m) as Hb'.
  rewrite !test_bit_testbit by lia. unfold or_bit.
  rewrite flags_word_set; [| apply Z.div_pos; unfold in_vec in Hn; lia
                            | apply Z.div_pos; lia | exact Hw].
  rewrite (Z.eqb_sym (m / 16)).
  destruct (Z.eqb_spec (n / 16) (m / 16)) as [He | Hne].
  - rewrite He. rewrite Z.lor_spec. f_equal.
    rewrite Z.shiftl_1_l, u32_small.
    + rewrite Z.pow2_bits_eqb by lia. rewrite Z.eqb_sym. reflexivity.
    + split; [apply Z.pow_nonneg; lia | apply Z.pow_lt_mono_r; lia].
  - rewrite orb_false_r. reflexivity.
Qed.

Lemma test_bit_clear_bit (v : list Z) (n m sh sh' : Z) :
  in_vec v n -> 0 <= m -> 0 <= sh <= 16 -> 0 <= sh' <= 16 ->
  test_bit (clear_bit v n sh) m sh' =
    test_bit v m sh'
    && negb ((m / 16 =? n / 16) && (Z.land m 15 + sh' =? Z.land n 15 + sh)).
Proof.
  intros Hn Hm Hsh Hsh'. pose proof (in_vec_word v n Hn) as Hw.
  pose proof (land_15_range n) as Hb. pose proof (land_15_range m) as Hb'.
  rewrite !test_bit_testbit by lia. unfold clear_bit.
  rewrite flags_word_set; [| apply Z.div_pos; unfold in_vec in Hn; lia
                            | apply Z.div_pos; lia | exact Hw].
  rewrite (Z.eqb_sym (m / 16)).
  destruct (Z.eqb_spec (n / 16) (m / 16)) as [He | Hne].
  - rewrite He. rewrite Z.land_spec. f_equal.
    unfold not32, u32. rewrite Z.mod_pow2_bits_low by lia.
    rewrite Z.lnot_spec by lia. rewrite Z.shiftl_1_l.
    rewrite Z.pow2_bits_eqb by lia. rewrite Z.eqb_sym. reflexivity.
  - rewrite andb_true_r. reflexivity.
Qed.

Lemma isNodeAllocated_markNodeAllocated (v : list Z) (n m : Z) :
  in_vec v n -> 0 <= m ->
  isNodeAllocated (markNodeAllocated v n) m = isNodeAllocated v m || (m =? n).
Proof.
  intros Hn Hm. unfold isNodeAllocated, markNodeAllocated.
  rewrite test_bit_or_bit by (trivial; lia).
  rewrite !Z.add_0_r, same_node. reflexivity.
Qed.

Lemma isNodeAllocated_markNodeFree (v : list Z) (n m : Z) :
  in_vec v n -> 0 <= m ->
  isNodeAllocated (markNodeFree v n) m = isNodeAllocated v m && negb (m =? n).
Proof.
  intros Hn Hm. unfold isNodeAllocated, markNodeFree.
  rewrite test_bit_clear_bit by (trivial; lia).
  rewrite !Z.add_0_r, same_node. reflexivity.
Qed.

Lemma isNodeAllocated_setStartBit (v : list Z) (n m : Z) :
  in_vec v n -> 0 <= m ->
  isNodeAllocated (setStartBit v n) m = isNodeAllocated v m.
Proof.
  intros Hn Hm. unfold isNodeAllocated, setStartBit.
  rewrite test_bit_or_bit by (trivial; lia).
  pose proof (land_15_range n). pose proof (land_15_range m).
  assert ((Z.land m 15 + 0 =? Z.land n 15 + 16) = false) as ->
    by (apply Z.eqb_neq; lia).
  rewrite andb_false_r, orb_false_r. reflexivity.
Qed.

Lemma isNodeAllocated_clearStartBit (v : list Z) (n m : Z) :
  in_vec v n -> 0 <= m ->
  isNodeAllocated (clearStartBit v n) m = isNodeAllocated v m.
Proof.
  intros Hn Hm. unfold isNodeAllocated, clearStartBit.
  rewrite test_bit_clear_bit by (trivial; lia).
  pose proof (land_15_range n). pose proof (land_15_range m).
  assert ((Z.land m 15 + 0 =? Z.land n 15 + 16) = false) as ->
    by (apply Z.eqb_neq; lia).
  rewrite andb_false_r, andb_true_r. reflexivity.
Qed.

Lemma length_or_bit (v : list Z) (n sh : Z) : length (or_bit v n sh) = length v.
Proof. apply length_set_flags_word. Qed.

Lemma length_clear_bit (v : list Z) (n sh : Z) : length (clear_bit v n sh) = length v.
Proof. apply length_set_flags_word. Qed.

End SlabBits.

(** *** Slabs: the cursor invariant under create and allocation *)

Section SlabInvariant.

Import Machine Slab.

Lemma length_clear_nodes (n : nat) :
  forall (i : Z) (v : list Z), length (clear_nodes n i v) = length v.
Proof.
  induction n as [| n IH]; intros i v; cbn [clear_nodes]; [reflexivity |].
  rewrite IH. unfold clearStartBit, markNodeFree.
  rewrite !length_clear_bit. reflexivity.
Qed.

Lemma isNodeAllocated_clear_nodes (n : nat) :
  forall (i : Z) (v : list Z) (m : Z),
  0 <= i -> i + Z.of_nat n <= 16 * Z.of_nat (length v) -> 0 <= m ->
  isNodeAllocated (clear_nodes n i v) m =
    isNodeAllocated v m && negb ((i <=? m) && (m <? i + Z.of_nat n)).
Proof.
  induction n as [| n IH]; intros i v m Hi Hlen Hm; cbn [clear_nodes].
  - replace (m <? i + Z.of_nat 0) with (m <? i) by (f_equal; lia).
    destruct (Z.leb_spec i m), (Z.ltb_spec m i); try lia;
      cbn [andb negb]; rewrite andb_true_r; reflexivity.
  - assert (Hv : in_vec v i) by (unfold in_vec; lia).
    assert (Hv' : in_vec (markNodeFree v i) i).
    { unfold in_vec, markNodeFree. rewrite length_clear_bit. exact Hv. }
    rewrite IH; [| lia
                 | unfold clearStartBit, markNodeFree;
                   rewrite !length_clear_bit; lia
                 | exact Hm].
    rewrite isNodeAllocated_clearStartBit by assumption.
    rewrite isNodeAllocated_markNodeFree by assumption.
    destruct (Z.eqb_spec m i), (Z.leb_spec i m), (Z.leb_spec (i + 1) m),
      (Z.ltb_spec m (i + 1 + Z.of_nat n)), (Z.ltb_spec m (i + Z.of_nat (S n)));
      try lia; cbn [andb negb]; rewrite ?andb_true_r, ?andb_false_r; reflexivity.
Qed.

Lemma length_mark_run (n : nat) :
  forall (i : Z) (v : list Z), length (mark_run n i v) = length v.
Proof.
  induction n as [| n IH]; intros i v; cbn [mark_run]; [reflexivity |].
  rewrite IH. unfold markNodeAllocated. apply length_or_bit.
Qed.

Lemma isNodeAllocated_mark_run (n : nat) :
  forall (i : Z) (v : list Z) (m : Z),
  0 <= i -> i + Z.of_nat n <= 16 * Z.of_nat (length v) -> 0 <= m ->
  isNodeAllocated (mark_run n i v) m =
    isNodeAllocated v m || ((i <=? m) && (m <? i + Z.of_nat n)).
Proof.
  induction n as [| n IH]; intros i v m Hi Hlen Hm; cbn [mark_run].
  - replace (m <? i + Z.of_nat 0) with (m <? i) by (f_equal; lia).
    destruct (Z.leb_spec i m), (Z.ltb_spec m i); try lia;
      cbn [andb]; rewrite orb_false_r; reflexivity.
  - assert (Hv : in_vec v i) by (unfold in_vec; lia).
    rewrite IH; [| lia | unfold markNodeAllocated; rewrite length_or_bit; lia
                 | exact Hm].
    rewrite isNodeAllocated_markNodeAllocated by assumption.
    destruct (Z.eqb_spec m i), (Z.leb_spec i m), (Z.leb_spec (i + 1) m),
      (Z.ltb_spec m (i + 1 + Z.of_nat n)), (Z.ltb_spec m (i + Z.of_nat (S n)));
      try lia; cbn [andb orb]; rewrite ?orb_true_r, ?orb_false_r; reflexivity.
Qed.

(** The invariant gives the three assertions of assertOkay. *)
Lemma slab_ok_assertOkay (s : PoolSlab) : slab_ok s -> assertOkay s = true.
Proof.
  intros [_ Hsz _ [[H0 Hfu] Hue] Habove _ Hfirst].
  unfold assertOkay, getSlabSize.
  assert ((FirstUnused s <=? UsedEnd s) = true) as -> by (apply Z.leb_le; lia).
  cbn [andb]. apply andb_true_intro. split.
  - destruct (Z.eqb_spec (UsedEnd s) (NumNodesInSlab s)); [reflexivity |].
    rewrite Habove by lia. reflexivity.
  - destruct (Z.eqb_spec (FirstUnused s) (NumNodesInSlab s)); [reflexivity |].
    rewrite Hfirst by lia. reflexivity.
Qed.

(** A new slab satisfies the invariant, whatever the page held. *)
Lemma create_ok (NodesPerSlab : Z) (page : list Z) :
  0 <= NodesPerSlab < 2 ^ 16 ->
  NodesPerSlab <= 16 * Z.of_nat (length page) ->
  slab_ok (create NodesPerSlab page).
Proof.
  intros Hn Hp. unfold create.
  constructor; cbn [isSingleArray NumNodesInSlab NodeFlagsVector FirstUnused
                    UsedEnd UsedBegin].
  - reflexivity.
  - exact Hn.
  - rewrite length_clear_nodes. exact Hp.
  - lia.
  - intros i Hi. rewrite isNodeAllocated_clear_nodes by (rewrite ?Z2Nat.id; lia).
    rewrite Z2Nat.id by lia.
    assert ((0 <=? i) = true) as -> by (apply Z.leb_le; lia).
    assert ((i <? 0 + NodesPerSlab) = true) as -> by (apply Z.ltb_lt; lia).
    apply andb_false_r.
  - lia.
  - intros Hi. rewrite isNodeAllocated_clear_nodes by (rewrite ?Z2Nat.id; lia).
    rewrite Z2Nat.id by lia.
    assert ((0 <? 0 + NodesPerSlab) = true) as -> by (apply Z.ltb_lt; lia).
    apply andb_false_r.
Qed.

(** The do-while loop of allocateSingle stops on the first node above
    [FU] that is free, or on [SlabSize]. *)
Lemma next_unused_spec (v : list Z) (SlabSize : Z) (fuel : nat) :
  forall FU : Z,
  0 <= FU < SlabSize -> SlabSize < 2 ^ 16 -> SlabSize - FU <= Z.of_nat fuel ->
  FU < next_unused fuel FU SlabSize v <= SlabSize /\
  (next_unused fuel FU SlabSize v < SlabSize ->
   isNodeAllocated v (next_unused fuel FU SlabSize v) = false).
Proof.
  induction fuel as [| fuel IH]; intros FU HFU Hsz Hfuel.
  - lia.
  - cbn [next_unused]. rewrite u16_small by lia.
    destruct (Z.eqb_spec (FU + 1) SlabSize) as [He | Hne]; cbn [negb andb].
    + lia.
    + destruct (isNodeAllocated v (FU + 1)) eqn:Ea.
      * destruct (IH (FU + 1)) as [Hr Hf]; [lia | lia | lia |].
        split; [lia | exact Hf].
      * split; [lia | intros _; exact Ea].
Qed.

(** allocateSingle keeps the invariant. *)
Theorem allocateSingle_ok (s : PoolSlab) :
  slab_ok s -> slab_ok (fst (allocateSingle s)).
Proof.
  intros Hok. pose proof Hok as [Hsingle Hsz Hw [[H0 Hfu] Hue] Habove Hlast Hfirst].
  unfold allocateSingle, getSlabSize. rewrite Hsingle.
  destruct (Z.ltb_spec (UsedEnd s) (NumNodesInSlab s)) as [Hlt | Hge].
  - (* room after UsedEnd *)
    assert (Hv : in_vec (NodeFlagsVector s) (UsedEnd s)) by (unfold in_vec; lia).
    assert (Hv' : in_vec (markNodeAllocated (NodeFlagsVector s) (UsedEnd s)) (UsedEnd s)).
    { unfold in_vec, markNodeAllocated. rewrite length_or_bit. exact Hv. }
    assert (Hbit : forall m, 0 <= m ->
              isNodeAllocated
                (setStartBit (markNodeAllocated (NodeFlagsVector s) (UsedEnd s))
                             (UsedEnd s)) m
              = isNodeAllocated (NodeFlagsVector s) m || (m =? UsedEnd s)).
    { intros m Hm. rewrite isNodeAllocated_setStartBit by assumption.
      apply isNodeAllocated_markNodeAllocated; assumption. }
    cbn [fst]. constructor;
      cbn [with_flags with_cursors isSingleArray NumNodesInSlab NodeFlagsVector
           FirstUnused UsedEnd UsedBegin].
    + exact Hsingle.
    + exact Hsz.
    + unfold setStartBit, markNodeAllocated. rewrite !length_or_bit. exact Hw.
    + rewrite (u16_small (UsedEnd s + 1)) by lia.
      destruct (Z.eqb_spec (FirstUnused s) (UsedEnd s)).
      * rewrite u16_small by lia. lia.
      * lia.
    + rewrite (u16_small (UsedEnd s + 1)) by lia. intros i Hi.
      rewrite Hbit by lia. rewrite Habove by lia.
      apply orb_false_intro; [reflexivity | apply Z.eqb_neq; lia].
    + rewrite (u16_small (UsedEnd s + 1)) by lia. intros _.
      rewrite Hbit by lia.
      replace (UsedEnd s + 1 - 1) with (UsedEnd s) by lia.
      rewrite Z.eqb_refl. apply orb_true_r.
    + destruct (Z.eqb_spec (FirstUnused s) (UsedEnd s)) as [He | Hne].
      * rewrite u16_small by lia. intros Hi.
        rewrite Hbit by lia. rewrite Habove by lia.
        apply orb_false_intro; [reflexivity | apply Z.eqb_neq; lia].
      * intros Hi. rewrite Hbit by lia. rewrite Hfirst by lia.
        apply orb_false_intro; [reflexivity | apply Z.eqb_neq; lia].
  - destruct (Z.ltb_spec (FirstUnused s) (NumNodesInSlab s)) as [Hlt | Hge'].
    + (* a free node below UsedEnd *)
      assert (Hv : in_vec (NodeFlagsVector s) (FirstUnused s)) by (unfold in_vec; lia).
      assert (Hv' : in_vec (markNodeAllocated (NodeFlagsVector s) (FirstUnused s))
                           (FirstUnused s)).
      { unfold in_vec, markNodeAllocated. rewrite length_or_bit. exact Hv. }
      set (v := setStartBit (markNodeAllocated (NodeFlagsVector s) (FirstUnused s))
                            (FirstUnused s)).
      assert (Hbit : forall m, 0 <= m ->
                isNodeAllocated v m
                = isNodeAllocated (NodeFlagsVector s) m || (m =? FirstUnused s)).
      { intros m Hm. unfold v. rewrite isNodeAllocated_setStartBit by assumption.
        apply isNodeAllocated_markNodeAllocated; assumption. }
      destruct (next_unused_spec v (NumNodesInSlab s) (Z.to_nat (2 ^ 16))
                  (FirstUnused s)) as [Hr Hfree]; [lia | lia | lia |].
      cbn [fst]. constructor;
        cbn [with_flags with_cursors isSingleArray NumNodesInSlab NodeFlagsVector
             FirstUnused UsedEnd UsedBegin].
      * exact Hsingle.
      * exact Hsz.
      * unfold v, setStartBit, markNodeAllocated. rewrite !length_or_bit. exact Hw.
      * lia.
      * intros i Hi. lia.
      * intros Hpos. rewrite Hbit by lia. rewrite Hlast by lia. reflexivity.
      * exact Hfree.
    + (* the slab is full *)
      cbn [fst]. exact Hok.
Qed.

Lemma scan_unused_spec (v : list Z) (stop : Z) (fuel : nat) :
  forall L : Z,
  0 <= L <= stop -> stop < 2 ^ 32 -> stop - L <= Z.of_nat fuel ->
  L <= scan_unused fuel L stop v <= stop /\
  (forall i, L <= i < scan_unused fuel L stop v -> isNodeAllocated v i = false) /\
  (scan_unused fuel L stop v < stop ->
   isNodeAllocated v (scan_unused fuel L stop v) = true).
Proof.
  induction fuel as [| fuel IH]; intros L HL Hstop Hfuel.
  - cbn [scan_unused]. repeat split; lia.
  - cbn [scan_unused].
    destruct (Z.eqb_spec L stop) as [He | Hne]; cbn [negb andb].
    + repeat split; lia.
    + destruct (isNodeAllocated v L) eqn:Ea; cbn [negb].
      * repeat split; try lia. intros _. exact Ea.
      * rewrite u32_small by lia.
        destruct (IH (L + 1)) as (Hr & Hfree & Hstopd); [lia | lia | lia |].
        split; [lia | split; [| exact Hstopd]].
        intros i Hi. destruct (Z.eq_dec i L) as [-> | Hn]; [exact Ea |].
        apply Hfree. lia.
Qed.

Lemma skip_allocated_spec (v : list Z) (Size SlabSize : Z) (fuel : nat) :
  forall Idx : Z,
  0 <= Idx <= SlabSize -> 1 <= Size <= SlabSize -> SlabSize < 2 ^ 16 ->
  SlabSize - Idx + 1 <= Z.of_nat fuel ->
  exists r : Z,
    skip_allocated fuel Idx Size SlabSize v = Some r /\
    Idx <= r <= SlabSize /\
    (r + Size <= SlabSize -> isNodeAllocated v r = false).
Proof.
  induction fuel as [| fuel IH]; intros Idx HIdx HSize Hsz Hfuel.
  - lia.
  - cbn [skip_allocated]. rewrite u32_small by lia.
    destruct (Z.leb_spec (Idx + Size) SlabSize) as [Hle | Hgt]; cbn [andb].
    + destruct (isNodeAllocated v Idx) eqn:Ea.
      * rewrite u32_small by lia.
        destruct (IH (Idx + 1)) as (r & Hr & Hrange & Hfree); [lia | lia | lia | lia |].
        exists r. split; [exact Hr | split; [lia | exact Hfree]].
      * exists Idx. split; [reflexivity | split; [lia | intros _; exact Ea]].
    + exists Idx. split; [reflexivity | split; [lia | lia]].
Qed.

Lemma first_unused_below_spec (v : list Z) (UE : Z) (fuel : nat) :
  forall i : Z,
  0 <= i -> UE < 2 ^ 16 -> i < 2 ^ 17 -> UE - i <= Z.of_nat fuel ->
  i <= first_unused_below fuel i UE v <= Z.max i UE /\
  (first_unused_below fuel i UE v < UE ->
   isNodeAllocated v (first_unused_below fuel i UE v) = false).
Proof.
  induction fuel as [| fuel IH]; intros i Hi HUE Hi' Hfuel.
  - cbn [first_unused_below]. split; lia.
  - cbn [first_unused_below].
    destruct (Z.ltb_spec i UE) as [Hlt | Hge]; cbn [andb].
    + destruct (isNodeAllocated v i) eqn:Ea.
      * rewrite u32_small by lia.
        destruct (IH (i + 1)) as [Hr Hfree]; [lia | lia | lia | lia |].
        split; [lia | exact Hfree].
      * split; [lia | intros _; exact Ea].
    + split; lia.
Qed.

(** The bits after a run of [Size] nodes is marked from [Idx] on. *)
Lemma isNodeAllocated_block (v : list Z) (Idx Size m : Z) :
  0 <= Idx -> 0 <= Size -> Idx + Size <= 16 * Z.of_nat (length v) ->
  0 < Size -> 0 <= m ->
  isNodeAllocated (mark_run (Z.to_nat Size) Idx (setStartBit v Idx)) m =
    isNodeAllocated v m || ((Idx <=? m) && (m <? Idx + Size)).
Proof.
  intros HIdx HSize Hlen Hpos Hm.
  rewrite isNodeAllocated_mark_run;
    [| exact HIdx
     | unfold setStartBit; rewrite length_or_bit, Z2Nat.id by lia; exact Hlen
     | exact Hm].
  rewrite Z2Nat.id by lia.
  rewrite isNodeAllocated_setStartBit; [reflexivity | unfold in_vec; lia | exact Hm].
Qed.

Lemma search_unused_ok (s : PoolSlab) (Size : Z) (fuel : nat) :
  slab_ok s -> 1 <= Size <= NumNodesInSlab s ->
  NumNodesInSlab s < UsedEnd s + Size ->
  forall Idx : Z,
  FirstUnused s <= Idx <= NumNodesInSlab s ->
  (Idx + Size <= NumNodesInSlab s ->
   isNodeAllocated (NodeFlagsVector s) Idx = false) ->
  NumNodesInSlab s - Idx + 2 <= Z.of_nat fuel ->
  exists (s' : PoolSlab) (r : Z),
    search_unused fuel Idx Size s = Some (s', r) /\ slab_ok s'.
Proof.
  intros Hok HSize Hfull.
  pose proof Hok as [Hsingle Hsz Hw [[H0 Hfu] Hue] Habove Hlast Hfirst].
  induction fuel as [| fuel IH]; intros Idx HIdx Hfree Hfuel.
  - lia.
  - cbn [search_unused]. unfold getSlabSize.
    rewrite (u32_small (Idx + Size)) by lia.
    destruct (Z.leb_spec (Idx + Size) (NumNodesInSlab s)) as [Hfit | Hnofit];
      [| exists s, (-1); split; [reflexivity | exact Hok]].
    rewrite (u32_small (Size - 1)), (u32_small (Idx + 1)) by lia.
    destruct (scan_unused_spec (NodeFlagsVector s) (Idx + Size)
                (Z.to_nat (Size - 1)) (Idx + 1))
      as (HL & HLfree & HLstop); [lia | lia | lia |].
    set (LastUnused := scan_unused (Z.to_nat (Size - 1)) (Idx + 1) (Idx + Size)
                                   (NodeFlagsVector s)) in *.
    destruct (Z.eqb_spec LastUnused (Idx + Size)) as [Hall | Hstop].
    + (* [Size] free nodes from [Idx] on *)
      assert (Hblock : forall i, Idx <= i < Idx + Size ->
                isNodeAllocated (NodeFlagsVector s) i = false).
      { intros i Hi. destruct (Z.eq_dec i Idx) as [-> | Hn]; [auto |].
        apply HLfree. lia. }
      assert (Hbelow : Idx + Size <= UsedEnd s - 1).
      { assert (Hpos : 0 < UsedEnd s) by lia. specialize (Hlast Hpos).
        destruct (Z_lt_le_dec (UsedEnd s - 1) Idx).
        - lia.
        - destruct (Z_lt_le_dec (UsedEnd s - 1) (Idx + Size)); [| lia].
          rewrite Hblock in Hlast by lia. discriminate. }
      rewrite (u32_small Size) by lia.
      set (v := mark_run (Z.to_nat Size) Idx (setStartBit (NodeFlagsVector s) Idx)).
      assert (Hbit : forall m, 0 <= m ->
                isNodeAllocated v m =
                  isNodeAllocated (NodeFlagsVector s) m
                  || ((Idx <=? m) && (m <? Idx + Size))).
      { intros m Hm. apply isNodeAllocated_block; lia. }
      assert (Hlenv : length v = length (NodeFlagsVector s)).
      { unfold v. rewrite length_mark_run. apply length_or_bit. }
      eexists _, Idx. split; [reflexivity |].
      constructor;
        cbn [with_flags with_cursors isSingleArray NumNodesInSlab NodeFlagsVector
             FirstUnused UsedEnd UsedBegin].
      * exact Hsingle.
      * exact Hsz.
      * rewrite Hlenv. exact Hw.
      * destruct (Z.eqb_spec Idx (FirstUnused s)) as [He | Hne]; [| lia].
        rewrite (u32_small (FirstUnused s + Size)) by lia.
        destruct (first_unused_below_spec v (UsedEnd s) (Z.to_nat (2 ^ 16))
                    (FirstUnused s + Size)) as [Hr Hrfree]; [lia | lia | lia | lia |].
        set (i := first_unused_below (Z.to_nat (2 ^ 16)) (FirstUnused s + Size)
                                     (UsedEnd s) v) in *.
        destruct (isNodeAllocated v i) eqn:Ei.
        -- rewrite u16_small by lia.
           assert (Hi : i = UsedEnd s).
           { destruct (Z_lt_le_dec i (UsedEnd s)) as [Hlt | Hge]; [| lia].
             specialize (Hrfree Hlt). discriminate. }
           destruct (Z_lt_le_dec (UsedEnd s) (NumNodesInSlab s)) as [Hlt | Hge]; [| lia].
           rewrite Hi, Hbit, Habove in Ei by lia.
           assert ((UsedEnd s <? Idx + Size) = false) as Hout by (apply Z.ltb_ge; lia).
           rewrite Hout, andb_false_r in Ei. discriminate.
        -- rewrite u16_small by lia. lia.
      * intros i Hi. rewrite Hbit, Habove by lia.
        assert ((i <? Idx + Size) = false) as -> by (apply Z.ltb_ge; lia).
        rewrite andb_false_r. reflexivity.
      * intros Hpos. rewrite Hbit, (Hlast Hpos) by lia. reflexivity.
      * destruct (Z.eqb_spec Idx (FirstUnused s)) as [He | Hne].
        -- rewrite (u32_small (FirstUnused s + Size)) by lia.
           destruct (isNodeAllocated v _) eqn:Ei.
           ++ rewrite u16_small by lia. lia.
           ++ destruct (first_unused_below_spec v (UsedEnd s) (Z.to_nat (2 ^ 16))
                          (FirstUnused s + Size)) as [Hr _]; [lia | lia | lia | lia |].
              rewrite u16_small by lia. intros _. exact Ei.
        -- intros Hi. rewrite Hbit, Hfirst by lia.
           assert ((Idx <=? FirstUnused s) = false) as -> by (apply Z.leb_gt; lia).
           reflexivity.
    + (* an allocated node stops the run: try further on *)
      destruct (skip_allocated_spec (NodeFlagsVector s) Size (NumNodesInSlab s)
                  fuel LastUnused) as (Idx' & Hskip & Hrange & Hfree');
        [lia | lia | lia | lia |].
      rewrite Hskip. apply IH; [lia | exact Hfree' | lia].
Qed.

(** allocateMultiple, asked for a run that a slab can hold, returns (its
    search has fuel enough) and keeps the invariant. *)
Theorem allocateMultiple_ok (s : PoolSlab) (Size : Z) :
  slab_ok s -> 1 <= Size <= NumNodesInSlab s ->
  exists (s' : PoolSlab) (r : Z),
    allocateMultiple Size s = Some (s', r) /\ slab_ok s'.
Proof.
  intros Hok HSize.
  pose proof Hok as [Hsingle Hsz Hw [[H0 Hfu] Hue] Habove Hlast Hfirst].
  unfold allocateMultiple, getSlabSize. rewrite Hsingle.
  rewrite (u32_small (UsedEnd s + Size)) by lia.
  destruct (Z.leb_spec (UsedEnd s + Size) (NumNodesInSlab s)) as [Hfit | Hnofit].
  - rewrite (u32_small Size) by lia.
    set (v := mark_run (Z.to_nat Size) (UsedEnd s)
                       (setStartBit (NodeFlagsVector s) (UsedEnd s))).
    assert (Hbit : forall m, 0 <= m ->
              isNodeAllocated v m =
                isNodeAllocated (NodeFlagsVector s) m
                || ((UsedEnd s <=? m) && (m <? UsedEnd s + Size))).
    { intros m Hm. apply isNodeAllocated_block; lia. }
    assert (Hlenv : length v = length (NodeFlagsVector s)).
    { unfold v. rewrite length_mark_run. apply length_or_bit. }
    eexists _, (UsedEnd s). split; [reflexivity |].
    constructor;
      cbn [with_flags with_cursors isSingleArray NumNodesInSlab NodeFlagsVector
           FirstUnused UsedEnd UsedBegin].
    + exact Hsingle.
    + exact Hsz.
    + rewrite Hlenv. exact Hw.
    + rewrite (u16_small (UsedEnd s + Size)) by lia.
      destruct (Z.eqb_spec (FirstUnused s) (UsedEnd s)).
      * rewrite u16_small by lia. lia.
      * lia.
    + rewrite (u16_small (UsedEnd s + Size)) by lia. intros i Hi.
      rewrite Hbit, Habove by lia.
      assert ((i <? UsedEnd s + Size) = false) as -> by (apply Z.ltb_ge; lia).
      rewrite andb_false_r. reflexivity.
    + rewrite (u16_small (UsedEnd s + Size)) by lia. intros _.
      rewrite Hbit by lia.
      assert ((UsedEnd s <=? UsedEnd s + Size - 1) = true) as -> by (apply Z.leb_le; lia).
      assert ((UsedEnd s + Size - 1 <? UsedEnd s + Size) = true) as ->
        by (apply Z.ltb_lt; lia).
      apply orb_true_r.
    + destruct (Z.eqb_spec (FirstUnused s) (UsedEnd s)) as [He | Hne].
      * rewrite u16_small by lia. intros Hi. rewrite Hbit, Habove by lia.
        assert ((FirstUnused s + Size <? UsedEnd s + Size) = false) as ->
          by (apply Z.ltb_ge; lia).
        rewrite andb_false_r. reflexivity.
      * intros Hi. rewrite Hbit, Hfirst by lia.
        assert ((UsedEnd s <=? FirstUnused s) = false) as -> by (apply Z.leb_gt; lia).
        reflexivity.
  - apply search_unused_ok; trivial; try lia.
    intros Hi. apply Hfirst. lia.
Qed.

(** The sample slab with nodes 0, 1 and 2 allocated satisfies the
    invariant; the slab that freeElement (1) and freeElement (2) leave does
    not. *)
Lemma slab3_ok : slab_ok Sample.slab3.
Proof.
  unfold Sample.slab3. repeat apply allocateSingle_ok.
  apply create_ok; simpl; lia.
Qed.

Lemma freeElement_leaves_not_ok :
  ~ slab_ok (slab_of (freeElement 2 (slab_of (freeElement 1 Sample.slab3)))).
Proof.
  intros H. apply slab_ok_assertOkay in H. vm_compute in H. discriminate H.
Qed.

End SlabInvariant.

(** *** Slabs: freeElement *)

Section SlabFacts.

Import Slab.

(** C5 (defect of freeElement). On a slab of 8 nodes with nodes 0, 1 and 2
    allocated one by one, freeing node 1 returns and keeps assertOkay;
    freeing node 2 next takes the branch that calls lastNodeAllocated, which
    answers 0, the index of the allocated node 0.  The slab is left with
    FirstUnused = 1 above UsedEnd = 0, and UsedEnd on an allocated node: the
    assertOkay that ends freeElement fails. *)
Theorem freeElement_breaks_assertOkay :
  assertOkay Sample.slab3 = true /\
  (exists s1 : PoolSlab,
     freeElement 1 Sample.slab3 = Returned s1 /\
     assertOkay s1 = true /\
     exists s2 : PoolSlab,
       freeElement 2 s1 = AssertionFailed s2 /\
       lastNodeAllocated (NodeFlagsVector s2) 2 = 0 /\
       FirstUnused s2 = 1 /\
       UsedEnd s2 = 0 /\
       isNodeAllocated (NodeFlagsVector s2) 0 = true /\
       assertOkay s2 = false) /\
  assertOkay (slab_of (freeElement 1 Sample.slab3)) = true /\
  FirstUnused (slab_of (freeElement 2 (slab_of (freeElement 1 Sample.slab3)))) = 1 /\
  UsedEnd (slab_of (freeElement 2 (slab_of (freeElement 1 Sample.slab3)))) = 0 /\
  isNodeAllocated
    (NodeFlagsVector
       (slab_of (freeElement 2 (slab_of (freeElement 1 Sample.slab3))))) 0 = true /\
  assertOkay (slab_of (freeElement 2 (slab_of (freeElement 1 Sample.slab3)))) = false.
Proof.
  split; [reflexivity |].
  split; [| vm_compute; repeat split].
  eexists. split; [vm_compute; reflexivity |].
  split; [reflexivity |].
  eexists. split; [vm_compute; reflexivity |].
  vm_compute. repeat split.
Qed.

End SlabFacts.

(** *** The baggy bounds run-time *)

Section BaggyFacts.

Import Machine Baggy.

Lemma shl1_small (size : Z) : 0 <= size < 32 -> shl1 size = Some (2 ^ size).
Proof.
  intros H. unfold shl1.
  assert ((0 <=? size) = true) as -> by (apply Z.leb_le; lia).
  assert ((size <? 32) = true) as -> by (apply Z.ltb_lt; lia).
  simpl. rewrite Z.shiftl_1_l, u32_small; [reflexivity |].
  split; [apply Z.pow_nonneg; lia | apply Z.pow_lt_mono_r; lia].
Qed.

Lemma size_loop_log2_up (n : Z) (fuel : nat) :
  forall size : Z,
  0 < n -> 0 <= size <= Z.log2_up n -> Z.log2_up n < 32 ->
  Z.log2_up n - size < Z.of_nat fuel ->
  size_loop fuel size n = Some (Z.log2_up n).
Proof.
  induction fuel as [| fuel IH]; intros size Hn Hs Hl Hf.
  - lia.
  - cbn [size_loop]. rewrite shl1_small by lia.
    destruct (2 ^ size <? n) eqn:E.
    + apply Z.ltb_lt in E. apply Z.log2_up_lt_pow2 in E; [| exact Hn].
      apply IH; lia.
    + apply Z.ltb_ge in E. apply Z.log2_up_le_pow2 in E; [| exact Hn].
      f_equal. lia.
Qed.

Lemma log2_up_bound (n : Z) : 0 < n <= 2 ^ 31 -> 0 <= Z.log2_up n <= 31.
Proof.
  intros H. split; [apply Z.log2_up_nonneg |].
  apply Z.log2_up_le_pow2; lia.
Qed.

(** The size class is the least exponent, from [SLOT_SIZE] up, whose power
    of two holds the request. *)
Lemma size_class_least (n : Z) :
  1 <= n <= 2 ^ 31 ->
  exists s : Z,
    size_class n = Some s /\ SLOT_SIZE <= s <= 31 /\ n <= 2 ^ s /\
    (forall t : Z, SLOT_SIZE <= t -> n <= 2 ^ t -> s <= t).
Proof.
  intros Hn. pose proof (log2_up_bound n ltac:(lia)) as Hb.
  unfold size_class.
  rewrite (size_loop_log2_up n 33 0) by lia.
  unfold SLOT_SIZE.
  destruct (Z.log2_up n <? 4) eqn:E; eexists; (split; [reflexivity |]).
  - apply Z.ltb_lt in E. split; [lia | split].
    + transitivity (2 ^ Z.log2_up n).
      * apply Z.log2_up_le_pow2; lia.
      * apply Z.pow_le_mono_r; lia.
    + intros t Ht _. exact Ht.
  - apply Z.ltb_ge in E. split; [lia | split].
    + apply Z.log2_up_le_pow2; lia.
    + intros t _ Ht. apply Z.log2_up_le_pow2; lia.
Qed.

Lemma table_get_insert (t : gmap Z Z) (i j c : Z) :
  table_get (<[i := c]> t) j = if i =? j then c else table_get t j.
Proof.
  unfold table_get. destruct (Z.eqb_spec i j) as [-> | Hne].
  - rewrite lookup_insert_eq. reflexivity.
  - rewrite lookup_insert_ne by exact Hne. reflexivity.
Qed.

Lemma table_get_memset (n : nat) :
  forall (index c : Z) (t : gmap Z Z) (j : Z),
  table_get (memset n index c t) j =
    if (index <=? j) && (j <? index + Z.of_nat n) then c else table_get t j.
Proof.
  induction n as [| n IH]; intros index c t j.
  - cbn [memset]. destruct (index <=? j) eqn:E1; [| reflexivity].
    assert ((j <? index + Z.of_nat 0) = false) as ->; [| reflexivity].
    apply Z.ltb_ge. apply Z.leb_le in E1. lia.
  - cbn [memset]. rewrite IH, table_get_insert.
    destruct (Z.leb_spec index j), (Z.leb_spec (index + 1) j),
      (Z.ltb_spec j (index + 1 + Z.of_nat n)),
      (Z.ltb_spec j (index + Z.of_nat (S n))), (Z.eqb_spec index j);
      simpl; try reflexivity; lia.
Qed.

Lemma aligned_mask (p s : Z) :
  0 <= s -> p mod 2 ^ s = 0 -> Z.land p (Z.lnot (Z.shiftl 1 s - 1)) = p.
Proof.
  intros Hs Hp.
  rewrite Z.shiftl_1_l, Z.sub_1_r, <- Z.ones_equiv, <- Z.ldiff_land.
  rewrite Z.ldiff_ones_r, Z.shiftr_div_pow2, Z.shiftl_mul_pow2 by exact Hs.
  assert (0 < 2 ^ s) by (apply Z.pow_pos_nonneg; lia).
  rewrite (Z.div_mod p (2 ^ s)) at 2 by lia. lia.
Qed.

Variable libc : Type.

Variable posix_memalign : Z -> Z -> libc -> option Z * libc.

(** What POSIX promises of posix_memalign: the pointer it stores is a
    multiple of the alignment. *)
Hypothesis posix_memalign_aligned :
  forall (alignment size : Z) (h h' : libc) (p : Z),
  posix_memalign alignment size h = (Some p, h') -> p mod alignment = 0.

Lemma internal_register_aligned (p n s : Z) (st : BBState libc) :
  size_class n = Some s -> SLOT_SIZE <= s <= 31 -> p mod 2 ^ s = 0 ->
  __internal_register p n st
    = BBReturns tt
        (mkBB (memset (Z.to_nat (2 ^ (s - SLOT_SIZE))) (Z.shiftr p SLOT_SIZE) s
                      (table st))
              (bytes st) (heap st)).
Proof.
  unfold SLOT_SIZE. intros Hsc Hs Hp. unfold __internal_register.
  rewrite Hsc, aligned_mask by (trivial; lia).
  rewrite Z.eqb_refl. cbn [negb]. unfold SLOT_SIZE.
  rewrite shl1_small by lia. reflexivity.
Qed.

(** C4, amended. For a request of 1 <= n <= 2^31 bytes, poolalloc picks the
    least size class s >= SLOT_SIZE with n <= 2^s, asks posix_memalign for
    2^s bytes aligned to 2^s and returns that pointer; it leaves the shadow
    table as it was.  The registration that follows the allocation writes s
    into the 2^(s - SLOT_SIZE) slots that cover the block, and into no
    other. *)
Theorem bb_alloc_then_register (Pool n : Z) (st : BBState libc) :
  1 <= n <= 2 ^ 31 ->
  exists s : Z,
    size_class n = Some s /\ SLOT_SIZE <= s /\ n <= 2 ^ s /\
    (forall t : Z, SLOT_SIZE <= t -> n <= 2 ^ t -> s <= t) /\
    __sc_bb_src_poolalloc posix_memalign Pool n st
      = BBReturns (fst (posix_memalign (2 ^ s) (2 ^ s) (heap st)))
          (mkBB (table st) (bytes st)
                (snd (posix_memalign (2 ^ s) (2 ^ s) (heap st)))) /\
    forall p : Z, fst (posix_memalign (2 ^ s) (2 ^ s) (heap st)) = Some p ->
      p mod 2 ^ s = 0 /\
      forall st1 : BBState libc,
      exists st2 : BBState libc,
        __sc_bb_src_poolregister Pool p n st1 = BBReturns tt st2 /\
        heap st2 = heap st1 /\ bytes st2 = bytes st1 /\
        forall j : Z,
          table_get (table st2) j =
            if (Z.shiftr p SLOT_SIZE <=? j)
               && (j <? Z.shiftr p SLOT_SIZE + 2 ^ (s - SLOT_SIZE))
            then s else table_get (table st1) j.
Proof.
  intros Hn. destruct (size_class_least n Hn) as (s & Hsc & Hs & Hle & Hmin).
  exists s. repeat (split; [first [exact Hsc | exact Hle | exact Hmin | lia] |]).
  split.
  - unfold __sc_bb_src_poolalloc. rewrite Hsc.
    unfold SLOT_SIZE in Hs. rewrite shl1_small by lia.
    destruct (posix_memalign (2 ^ s) (2 ^ s) (heap st)) as [q h]. reflexivity.
  - intros p Hp.
    assert (Hal : p mod 2 ^ s = 0).
    { destruct (posix_memalign (2 ^ s) (2 ^ s) (heap st)) as [q h] eqn:E.
      simpl in Hp. subst q. exact (posix_memalign_aligned _ _ _ _ _ E). }
    split; [exact Hal |]. intros st1. eexists. split; [| split; [| split]].
    + unfold __sc_bb_src_poolregister.
      apply (internal_register_aligned p n s st1 Hsc Hs Hal).
    + reflexivity.
    + reflexivity.
    + intros j. cbn [table]. rewrite table_get_memset.
      rewrite Z2Nat.id; [reflexivity |].
      apply Z.pow_nonneg. lia.
Qed.

Variable __sc_bb_poolunregister : Z -> Z -> BBState libc -> bb_result libc unit.

Variable __sc_bb_poolfree : Z -> Z -> BBState libc -> bb_result libc unit.

(** The baggy realloc does not copy the new size: it copies 1 << e bytes,
    e the size class the table holds for the old block. *)
Lemma bb_poolrealloc_copy_length
  (Pool Node NumBytes New size : Z) (st st2 : BBState libc) :
  Node <> 0 -> NumBytes <> 0 ->
  bb_alloc_registered posix_memalign Pool NumBytes st = BBReturns New st2 ->
  shl1 (table_get (table st2) (Z.shiftr Node SLOT_SIZE)) = Some size ->
  __sc_bb_poolrealloc posix_memalign __sc_bb_poolunregister __sc_bb_poolfree
      Pool Node NumBytes st
    = bb_bind (__sc_bb_poolunregister Pool Node (bb_memcpy New Node size st2))
        (fun _ st3 => bb_bind (__sc_bb_poolfree Pool Node st3)
                        (fun _ st4 => BBReturns New st4)).
Proof.
  intros HN Hn Ha He. unfold __sc_bb_poolrealloc.
  apply Z.eqb_neq in HN, Hn. rewrite HN, Hn, Ha.
  cbn [bb_bind]. rewrite He. reflexivity.
Qed.

End BaggyFacts.

Section BaggySamples.

Import Baggy.

Lemma bump_memalign_aligned (alignment size : Z) (h h' : Z) (p : Z) :
  Sample.bump_memalign alignment size h = (Some p, h') -> p mod alignment = 0.
Proof.
  unfold Sample.bump_memalign. intros [= <- _].
  destruct (Z.eq_dec alignment 0) as [-> | Hne].
  - rewrite Z.mul_0_r. reflexivity.
  - apply Z.mod_mul. exact Hne.
Qed.

Lemma bb_alloc_then_register_witness :
  __sc_bb_src_poolalloc Sample.bump_memalign 0 5 Sample.bb0
    = BBReturns (Some 4112) (mkBB ∅ (bytes Sample.bb0) 4128) /\
  exists st2 : BBState Z,
    __sc_bb_src_poolregister 0 4112 5 (mkBB ∅ (bytes Sample.bb0) 4128)
      = BBReturns tt st2 /\
    table_get (table st2) (Z.shiftr 4112 4) = 4.
Proof.
  destruct (bb_alloc_then_register Z Sample.bump_memalign bump_memalign_aligned
              0 5 Sample.bb0) as (s & Hsc & _ & _ & _ & Halloc & Hreg); [lia |].
  assert (Hs : s = 4) by (vm_compute in Hsc; congruence). subst s.
  split; [exact Halloc |].
  destruct (Hreg 4112 eq_refl) as [_ Hst].
  destruct (Hst (mkBB ∅ (bytes Sample.bb0) 4128)) as (st2 & Hr & _ & _ & Ht).
  exists st2. split; [exact Hr |]. rewrite Ht. reflexivity.
Defined.

(** C4 as stated fails: poolalloc (5) returns its block and the slot of the
    block still holds 0. *)
Lemma bb_alloc_leaves_table :
  ~ (exists (p : Z) (st' : BBState Z),
       __sc_bb_src_poolalloc Sample.bump_memalign 0 5 Sample.bb0
         = BBReturns (Some p) st' /\
       table_get (table st') (Z.shiftr p 4) = 4).
Proof.
  intros (p & st' & H & Ht). vm_compute in H.
  injection H as <- <-. vm_compute in Ht. discriminate Ht.
Qed.

(** Shrinking the 64-byte block at 4096 to 5 bytes: the new block is the
    16 bytes at 4160, and 64 bytes are copied into it; the byte at 4176,
    past its end, now holds the old block's byte 16. *)
Example bb_poolrealloc_shrink :
  exists st' : BBState Z,
    __sc_bb_poolrealloc Sample.bump_memalign Sample.bb_keep Sample.bb_keep
        0 4096 5 Sample.bb64 = BBReturns 4160 st' /\
    table_get (table st') (Z.shiftr 4160 4) = 4 /\
    bytes Sample.bb64 4176 = 80 /\
    bytes st' 4176 = 16.
Proof. eexists. split; [reflexivity |]. vm_compute. repeat split. Qed.

End BaggySamples.

(** *** poolrealloc in the two run-times *)

Section ReallocSpec.

Import Machine Realloc Baggy.

Variable pool_heap : Type.

Variable poolalloc : Z -> Z -> world pool_heap -> result pool_heap Z.

Variable poolfree : Z -> Z -> world pool_heap -> result pool_heap unit.

Variable libc : Type.

Variable posix_memalign : Z -> Z -> libc -> option Z * libc.

(** What POSIX promises of posix_memalign: the pointer it stores is a
    multiple of the alignment. *)
Hypothesis posix_memalign_aligned :
  forall (alignment size : Z) (h h' : libc) (p : Z),
  posix_memalign alignment size h = (Some p, h') -> p mod alignment = 0.

Variable __sc_bb_poolunregister : Z -> Z -> BBState libc -> bb_result libc unit.

Variable __sc_bb_poolfree : Z -> Z -> BBState libc -> bb_result libc unit.

Local Abbreviation poolrealloc := (poolrealloc poolalloc poolfree).
Local Abbreviation __sc_bb_poolrealloc :=
  (__sc_bb_poolrealloc posix_memalign __sc_bb_poolunregister __sc_bb_poolfree).
Local Abbreviation bb_alloc_registered := (bb_alloc_registered posix_memalign).

(** The allocation followed by the registration, when posix_memalign
    stores a pointer: the slots of the new block hold its class. *)
Lemma bb_alloc_registered_returns
  (Pool NumBytes s New : Z) (h' : libc) (st : BBState libc) :
  size_class NumBytes = Some s -> SLOT_SIZE <= s <= 31 ->
  posix_memalign (2 ^ s) (2 ^ s) (heap st) = (Some New, h') ->
  __sc_bb_poolalloc posix_memalign Pool NumBytes st
    = BBReturns (Some New) (mkBB (table st) (bytes st) h') /\
  bb_alloc_registered Pool NumBytes st
    = BBReturns New
        (mkBB (memset (Z.to_nat (2 ^ (s - SLOT_SIZE))) (Z.shiftr New SLOT_SIZE) s
                      (table st))
              (bytes st) h').
Proof.
  intros Hsc Hs Hmem.
  pose proof (posix_memalign_aligned _ _ _ _ _ Hmem) as Hal.
  assert (Halloc : __sc_bb_poolalloc posix_memalign Pool NumBytes st
                   = BBReturns (Some New) (mkBB (table st) (bytes st) h')).
  { unfold __sc_bb_poolalloc, __sc_bb_src_poolalloc. rewrite Hsc.
    unfold SLOT_SIZE in Hs. rewrite shl1_small by lia. rewrite Hmem. reflexivity. }
  split; [exact Halloc |].
  unfold Baggy.bb_alloc_registered. rewrite Halloc. cbn [bb_bind].
  unfold __sc_bb_poolregister, __sc_bb_src_poolregister.
  rewrite (internal_register_aligned libc New NumBytes s _ Hsc Hs Hal).
  reflexivity.
Qed.


End ReallocSpec.

Section ReallocSpecSamples.

Import Machine Realloc Baggy BaggyLib.

Local Abbreviation poolrealloc :=
  (poolrealloc Sample.bump_alloc Sample.keep_free).
Local Abbreviation __sc_bb_poolrealloc :=
  (Baggy.__sc_bb_poolrealloc Sample.bump_memalign __sc_bb_poolunregister
     (__sc_bb_poolfree Sample.free_keep)).



End ReallocSpecSamples.

(** ** Part III. Further properties of the run-times *)

(** Linear arithmetic with division and remainder by constants, and the
    comparisons of closed terms. *)
Ltac div_lia := Z.to_euclidean_division_equations; lia.

Ltac by_computation :=
  vm_compute;
  first [reflexivity | discriminate | split; [discriminate | reflexivity]].

(** *** Checked and unchecked variants *)

Section VariantFacts.

Import Machine Splay Pool.

Variables InvalidLower InvalidUpper : Z.

Local Abbreviation next_invalidptr := (next_invalidptr InvalidLower).
Local Abbreviation out_of_rewrite_ptrs := (out_of_rewrite_ptrs InvalidUpper).
Local Abbreviation boundscheck := (boundscheck InvalidLower InvalidUpper).
Local Abbreviation boundscheckui := (boundscheckui InvalidLower InvalidUpper).
Local Abbreviation pchk_getActualValue := (pchk_getActualValue InvalidLower InvalidUpper).

(** X1. Whatever poolcheck lets through, poolcheckui lets through without a
    word on stderr; neither changes the state. *)
Theorem poolcheck_returns_poolcheckui (st st' : Runtime) (Pool Node : Z) :
  poolcheck Pool Node st = Returns tt st' ->
  st' = st /\ poolcheckui Pool Node st = Returns tt st.
Proof.
  unfold poolcheck, poolcheckui.
  destruct (Pool =? 0); [intros [= <-]; split; reflexivity |].
  destruct (pools st !! Pool) as [D |]; [| discriminate].
  destruct (retrieve_out (Objects D) Node 0) as [[fs Sp] len].
  destruct (in_bounds fs Sp len Node); [| discriminate].
  intros [= <-]. split; reflexivity.
Qed.

(** X2. boundscheckui on a pool that exists and a source that is not NULL
    never aborts: it returns [Dest] or the rewrite pointer it has just
    minted. *)
Theorem boundscheckui_returns
  (st : Runtime) (Pool Source Dest : Z) (D : PoolTy) :
  pools st !! Pool = Some D -> Source <> 0 ->
  exists (r : Z) (st' : Runtime),
    boundscheckui Pool Source Dest st = Returns r st' /\
    (r = Dest \/ r = next_invalidptr st).
Proof.
  intros HD HS. unfold Pool.boundscheckui. rewrite HD.
  destruct (retrieve_out (Objects D) Source 0) as [[fs Sp] len].
  destruct (negb (fs =? 0) && ((Sp <=? Dest) && (ptr_add Sp len >? Dest)));
    [eexists _, _; split; [reflexivity | left; reflexivity] |].
  destruct (negb (fs =? 0) && (Dest =? ptr_add Sp len)).
  - change (log_regs (BoundscheckRewriteLog Sp Source Dest len) st) with st.
    destruct (out_of_rewrite_ptrs (next_invalidptr st));
      eexists _, _; (split; [reflexivity |]); [left | right]; reflexivity.
  - apply Z.eqb_neq in HS. rewrite HS.
    destruct (retrieve_out (ExternalObjects st) Source 0) as [[fs' Sp'] len'].
    destruct (negb (fs' =? 0));
      [destruct ((Sp' <=? Dest) && (ptr_add Sp' len' >? Dest)) |];
      eexists _, _; (split; [reflexivity | left; reflexivity]).
Qed.

(** X3. Where boundscheck returns, boundscheckui returns the same pointer and
    leaves the same pools and the same cursor. *)
Theorem boundscheck_returns_boundscheckui
  (st st' : Runtime) (Pool Source Dest r : Z) :
  boundscheck Pool Source Dest st = Returns r st' ->
  exists st'' : Runtime,
    boundscheckui Pool Source Dest st = Returns r st'' /\
    pools st'' = pools st' /\ invalidptr st'' = invalidptr st'.
Proof.
  unfold Pool.boundscheck, Pool.boundscheckui.
  destruct (pools st !! Pool) as [D |]; [| discriminate].
  destruct (retrieve_out (Objects D) Source 0) as [[fs Sp] len].
  unfold in_bounds. rewrite <- andb_assoc.
  destruct (negb (fs =? 0) && ((Sp <=? Dest) && (ptr_add Sp len >? Dest))).
  { intros [= <- <-]. eexists. repeat split. }
  destruct (negb (fs =? 0) && (Dest =? ptr_add Sp len)).
  - change (log_regs (BoundscheckRewriteLog Sp Source Dest len) st) with st.
    destruct (out_of_rewrite_ptrs (next_invalidptr st));
      intros [= <- <-]; eexists; repeat split.
  - destruct (negb (fs =? 0)); discriminate.
Qed.

End VariantFacts.

Section VariantSamples.

Import Machine Splay Pool.

Lemma poolcheck_returns_poolcheckui_witness :
  poolcheckui 64 4100 Sample.rt = Returns tt Sample.rt.
Proof.
  exact (proj2 (poolcheck_returns_poolcheckui Sample.rt Sample.rt 64 4100 eq_refl)).
Defined.

Lemma boundscheckui_returns_witness :
  exists (r : Z) (st' : Runtime),
    Pool.boundscheckui Sample.InvalidLower Sample.InvalidUpper 64 4100 9000 Sample.rt
      = Returns r st' /\
    (r = 9000 \/ r = Pool.next_invalidptr Sample.InvalidLower Sample.rt).
Proof.
  apply (boundscheckui_returns Sample.InvalidLower Sample.InvalidUpper
           Sample.rt 64 4100 9000 Sample.pool); [reflexivity | lia].
Defined.

Lemma boundscheck_returns_boundscheckui_witness :
  exists st'' : Runtime,
    Pool.boundscheckui Sample.InvalidLower Sample.InvalidUpper 64 4100 4112 Sample.rt
      = Returns 3221225473 st'' /\
    pools st'' = pools (rewritten 64 3221225473 4112 Sample.pool Sample.rt) /\
    invalidptr st'' = 3221225473.
Proof.
  exact (boundscheck_returns_boundscheckui Sample.InvalidLower Sample.InvalidUpper
           Sample.rt
           (rewritten 64 3221225473 4112 Sample.pool Sample.rt)
           64 4100 4112 3221225473 eq_refl).
Defined.

End VariantSamples.

(** *** Rewrite pointers over several calls *)

Section RewriteSequence.

Import Machine Splay Pool.

Variables InvalidLower InvalidUpper : Z.

Hypothesis region : 0 <= InvalidLower < InvalidUpper /\ InvalidUpper < 2 ^ 32.

Local Abbreviation next_invalidptr := (next_invalidptr InvalidLower).
Local Abbreviation out_of_rewrite_ptrs := (out_of_rewrite_ptrs InvalidUpper).
Local Abbreviation boundscheck := (boundscheck InvalidLower InvalidUpper).
Local Abbreviation boundscheckui := (boundscheckui InvalidLower InvalidUpper).
Local Abbreviation pchk_getActualValue := (pchk_getActualValue InvalidLower InvalidUpper).

Lemma getActualValue_pools_step (st st2 : Runtime) (Pool r d : Z) :
  InvalidLower < r -> out_of_rewrite_ptrs r = false ->
  pchk_getActualValue Pool r st = Returns d st ->
  pools_step r st st2 ->
  pchk_getActualValue Pool r st2 = Returns d st2.
Proof.
  intros Hlo Hout. unfold Pool.pchk_getActualValue.
  assert ((r <=? InvalidLower) = false) as -> by (apply Z.leb_gt; lia).
  rewrite Hout.
  destruct (pools st !! Pool) as [D0 |] eqn:HD0; [| discriminate].
  destruct (adl_splay_retrieve (OOB D0) r) as [n |] eqn:Hn; [| discriminate].
  intros [= Hd] [Hsame | (Pool' & P & Dest & D & HP & HD & Hst2)].
  - rewrite Hsame, HD0, Hn, Hd. reflexivity.
  - rewrite Hst2. destruct (Z.eq_dec Pool' Pool) as [-> | Hne].
    + rewrite lookup_insert_eq. rewrite HD0 in HD. injection HD as <-.
      unfold set_OOB, OOB at 1, adl_splay_insert, adl_splay_retrieve. cbn [find].
      assert (covers (Node P 1 Dest) r = false) as ->.
      { unfold covers. cbn [key len].
        assert ((P <=? r) = false) as -> by (apply Z.leb_gt; lia). reflexivity. }
      unfold adl_splay_retrieve in Hn. rewrite Hn, Hd. reflexivity.
    + rewrite lookup_insert_ne by exact Hne. rewrite HD0, Hn, Hd. reflexivity.
Qed.

Lemma next_invalidptr_succ (st : Runtime) (r : Z) :
  InvalidLower < r -> r <= invalidptr st < 2 ^ 32 - 1 ->
  next_invalidptr st = invalidptr st + 1.
Proof.
  intros Hlo Hc. unfold Pool.next_invalidptr, ptr_add.
  assert ((invalidptr st =? 0) = false) as -> by (apply Z.eqb_neq; lia).
  apply u32_small. lia.
Qed.

Lemma boundscheck_pools_step (st st2 : Runtime) (Pool' Source Dest r r' : Z) :
  InvalidLower < r -> r <= invalidptr st < 2 ^ 32 - 1 ->
  boundscheck Pool' Source Dest st = Returns r' st2 ->
  pools_step r st st2 /\ r <= invalidptr st2 <= invalidptr st + 1.
Proof.
  intros Hlo Hc. pose proof (next_invalidptr_succ st r Hlo Hc) as Hnext.
  unfold Pool.boundscheck.
  destruct (pools st !! Pool') as [D |] eqn:HD; [| discriminate].
  destruct (retrieve_out (Objects D) Source 0) as [[fs Sp] len].
  destruct (in_bounds fs Sp len Dest).
  { intros [= _ <-]. split; [left; reflexivity | lia]. }
  destruct (negb (fs =? 0) && (Dest =? ptr_add Sp len)).
  - change (log_regs (BoundscheckRewriteLog Sp Source Dest len) st) with st.
    destruct (out_of_rewrite_ptrs (next_invalidptr st)); intros [= _ <-].
    + split; [left; reflexivity | cbn [invalidptr fprintf set_invalidptr]; lia].
    + split; [| cbn [invalidptr set_pool set_invalidptr]; lia].
      right. exists Pool', (next_invalidptr st), Dest, D.
      split; [lia | split; [exact HD | reflexivity]].
  - destruct (negb (fs =? 0)); discriminate.
Qed.

Lemma boundscheckui_pools_step (st st2 : Runtime) (Pool' Source Dest r r' : Z) :
  InvalidLower < r -> r <= invalidptr st < 2 ^ 32 - 1 ->
  boundscheckui Pool' Source Dest st = Returns r' st2 ->
  pools_step r st st2 /\ r <= invalidptr st2 <= invalidptr st + 1.
Proof.
  intros Hlo Hc. pose proof (next_invalidptr_succ st r Hlo Hc) as Hnext.
  unfold Pool.boundscheckui.
  destruct (pools st !! Pool') as [D |] eqn:HD; [| discriminate].
  destruct (retrieve_out (Objects D) Source 0) as [[fs Sp] len].
  destruct (negb (fs =? 0) && ((Sp <=? Dest) && (ptr_add Sp len >? Dest))).
  { intros [= _ <-]. split; [left; reflexivity | lia]. }
  destruct (negb (fs =? 0) && (Dest =? ptr_add Sp len)).
  - change (log_regs (BoundscheckRewriteLog Sp Source Dest len) st) with st.
    destruct (out_of_rewrite_ptrs (next_invalidptr st)); intros [= _ <-].
    + split; [left; reflexivity | cbn [invalidptr fprintf set_invalidptr]; lia].
    + split; [| cbn [invalidptr set_pool set_invalidptr]; lia].
      right. exists Pool', (next_invalidptr st), Dest, D.
      split; [lia | split; [exact HD | reflexivity]].
  - destruct (Source =? 0); [discriminate |].
    destruct (retrieve_out (ExternalObjects st) Source 0) as [[fs' Sp'] len'].
    destruct (negb (fs' =? 0));
      [destruct ((Sp' <=? Dest) && (ptr_add Sp' len' >? Dest)) |];
      intros [= _ <-]; (split; [left; reflexivity | cbn [invalidptr fprintf]; lia]).
Qed.

(** X4. A rewrite pointer that pchk_getActualValue resolves keeps its value
    through every later boundscheck or boundscheckui that returns, on any
    pool, as long as the cursor, which only moves up, has not come to the
    end of the 32-bit space. *)
Theorem rewrite_pointer_stays_valid
  (st st2 : Runtime) (Pool Pool' Source Dest r d r' : Z) :
  InvalidLower < r -> out_of_rewrite_ptrs r = false ->
  r <= invalidptr st < 2 ^ 32 - 1 ->
  pchk_getActualValue Pool r st = Returns d st ->
  boundscheck Pool' Source Dest st = Returns r' st2 \/
  boundscheckui Pool' Source Dest st = Returns r' st2 ->
  pchk_getActualValue Pool r st2 = Returns d st2 /\
  r <= invalidptr st2 <= invalidptr st + 1.
Proof.
  intros Hlo Hout Hc Hres [Hb | Hb].
  - destruct (boundscheck_pools_step st st2 Pool' Source Dest r r' Hlo Hc Hb)
      as [Hstep Hcur].
    split; [| exact Hcur].
    exact (getActualValue_pools_step st st2 Pool r d Hlo Hout Hres Hstep).
  - destruct (boundscheckui_pools_step st st2 Pool' Source Dest r r' Hlo Hc Hb)
      as [Hstep Hcur].
    split; [| exact Hcur].
    exact (getActualValue_pools_step st st2 Pool r d Hlo Hout Hres Hstep).
Qed.

(** What a call that returns something other than [Dest] has done: it has
    minted the next pointer. *)
Lemma minted (st st1 : Runtime) (Pool Source Dest r : Z) :
  boundscheck Pool Source Dest st = Returns r st1 \/
  boundscheckui Pool Source Dest st = Returns r st1 ->
  r <> Dest ->
  exists D : PoolTy,
    pools st !! Pool = Some D /\ r = next_invalidptr st /\
    out_of_rewrite_ptrs r = false /\ st1 = rewritten Pool r Dest D st.
Proof.
  intros [Hb | Hb] Hne.
  - unfold Pool.boundscheck in Hb.
    destruct (pools st !! Pool) as [D |]; [| discriminate].
    destruct (retrieve_out (Objects D) Source 0) as [[fs Sp] len].
    destruct (in_bounds fs Sp len Dest); [congruence |].
    destruct (negb (fs =? 0) && (Dest =? ptr_add Sp len)).
    + change (log_regs (BoundscheckRewriteLog Sp Source Dest len) st) with st in Hb.
      destruct (out_of_rewrite_ptrs (next_invalidptr st)) eqn:Ho; [congruence |].
      injection Hb as <- <-. exists D. repeat split; trivial.
    + destruct (negb (fs =? 0)); discriminate.
  - unfold Pool.boundscheckui in Hb.
    destruct (pools st !! Pool) as [D |]; [| discriminate].
    destruct (retrieve_out (Objects D) Source 0) as [[fs Sp] len].
    destruct (negb (fs =? 0) && ((Sp <=? Dest) && (ptr_add Sp len >? Dest)));
      [congruence |].
    destruct (negb (fs =? 0) && (Dest =? ptr_add Sp len)).
    + change (log_regs (BoundscheckRewriteLog Sp Source Dest len) st) with st in Hb.
      destruct (out_of_rewrite_ptrs (next_invalidptr st)) eqn:Ho; [congruence |].
      injection Hb as <- <-. exists D. repeat split; trivial.
    + destruct (Source =? 0); [discriminate |].
      destruct (retrieve_out (ExternalObjects st) Source 0) as [[fs' Sp'] len'].
      destruct (negb (fs' =? 0));
        [destruct ((Sp' <=? Dest) && (ptr_add Sp' len' >? Dest)) |]; congruence.
Qed.

(** C3, amended. pchk_getActualValue returns every pointer at or below
    [InvalidLower], and every pointer on which the mask test fires (those
    from [InvalidUpper] on among them), as it is.  A pointer that
    boundscheck or boundscheckui has returned in place of [Dest], in a state
    whose cursor was unset or in [InvalidLower, 2^32 - 1), is mapped back to
    [Dest] in the state that call has left and in every state that a run of
    further bounds checks reaches from it. *)
Theorem getActualValue_left_inverse
  (st st0 st1 st2 : Runtime) (Pool Source Dest r src : Z) :
  (src <= InvalidLower \/ out_of_rewrite_ptrs src = true \/
   (0 <= src < 2 ^ 32 /\ InvalidUpper <= src) ->
     pchk_getActualValue Pool src st = Returns src st) /\
  (cursor_ok InvalidLower st0 ->
   boundscheck Pool Source Dest st0 = Returns r st1 \/
   boundscheckui Pool Source Dest st0 = Returns r st1 ->
   r <> Dest ->
   checks_run InvalidLower InvalidUpper st1 st2 ->
     InvalidLower < r < InvalidUpper /\
     invalidptr st0 < r <= invalidptr st2 /\
     pchk_getActualValue Pool r st2 = Returns Dest st2).
Proof.
  split.
  - intros [Hlow | [Hmask | [Hr Hup]]]; unfold Pool.pchk_getActualValue.
    + assert ((src <=? InvalidLower) = true) as -> by (apply Z.leb_le; lia).
      reflexivity.
    + rewrite Hmask. destruct (src <=? InvalidLower); reflexivity.
    + rewrite (out_of_rewrite_ptrs_above InvalidLower InvalidUpper region src)
        by assumption.
      destruct (src <=? InvalidLower); reflexivity.
  - intros Hc Hcall Hne Hrun.
    destruct (minted st0 st1 Pool Source Dest r Hcall Hne)
      as (D & HD & Hr & Ho & Hst1).
    assert (Hlo : InvalidLower < r).
    { rewrite Hr. apply (next_invalidptr_above InvalidLower InvalidUpper region); assumption. }
    assert (Hhi : r < InvalidUpper).
    { apply (out_of_rewrite_ptrs_false InvalidLower InvalidUpper region);
        [rewrite Hr; apply next_invalidptr_range | exact Ho]. }
    assert (Hfresh : invalidptr st0 < r).
    { rewrite Hr. apply (cursor_below_next InvalidLower InvalidUpper region); assumption. }
    assert (Hinv : r <= invalidptr st2 /\
                   pchk_getActualValue Pool r st2 = Returns Dest st2).
    { induction Hrun as [st1 | st1 sta stb Pool' Source' Dest' r' Hrun IH Hcur Hstep].
      - subst st1. split; [cbn [rewritten invalidptr set_pool set_invalidptr]; lia |].
        apply (getActualValue_rewritten InvalidLower InvalidUpper); assumption.
      - destruct (IH Hcall Hst1) as [Hle Hval].
        destruct Hstep as [Hb | Hb].
        + destruct (boundscheck_pools_step sta stb Pool' Source' Dest' r r' Hlo
                      ltac:(lia) Hb) as [Hstep Hcur'].
          split; [lia |].
          exact (getActualValue_pools_step sta stb Pool r Dest Hlo Ho Hval Hstep).
        + destruct (boundscheckui_pools_step sta stb Pool' Source' Dest' r r' Hlo
                      ltac:(lia) Hb) as [Hstep Hcur'].
          split; [lia |].
          exact (getActualValue_pools_step sta stb Pool r Dest Hlo Ho Hval Hstep). }
    split; [lia | split; [lia | apply Hinv]].
Qed.

(** With the cursor at the end of the region or past it, and below the last
    address of the 32-bit space, the next pointer is one above the cursor
    and the mask test fires on it. *)
Lemma exhausted_next (st : Runtime) :
  InvalidUpper - 1 <= invalidptr st < 2 ^ 32 - 1 ->
  next_invalidptr st = invalidptr st + 1 /\
  out_of_rewrite_ptrs (invalidptr st + 1) = true.
Proof.
  intros Hc. split.
  - unfold Pool.next_invalidptr, ptr_add.
    destruct (Z.eqb_spec (invalidptr st) 0) as [H0 | Hn0].
    + rewrite H0. replace InvalidLower with 0 by lia. reflexivity.
    + apply u32_small. lia.
  - apply (out_of_rewrite_ptrs_above InvalidLower InvalidUpper region); lia.
Qed.

(** A call that returns with the cursor at the end of the region or past
    it leaves the pools as they are and moves the cursor up by one at
    most. *)
Lemma exhausted_step (st st2 : Runtime) (Pool Source Dest r : Z) :
  InvalidUpper - 1 <= invalidptr st < 2 ^ 32 - 1 ->
  boundscheck Pool Source Dest st = Returns r st2 \/
  boundscheckui Pool Source Dest st = Returns r st2 ->
  r = Dest /\ pools st2 = pools st /\
  invalidptr st <= invalidptr st2 <= invalidptr st + 1.
Proof.
  intros Hc Hcall. destruct (exhausted_next st Hc) as [Hnext Hmask].
  destruct Hcall as [Hb | Hb].
  - unfold Pool.boundscheck in Hb.
    destruct (pools st !! Pool) as [D |]; [| discriminate].
    destruct (retrieve_out (Objects D) Source 0) as [[fs Sp] len].
    destruct (in_bounds fs Sp len Dest).
    { injection Hb as <- <-. split; [reflexivity | split; [reflexivity | lia]]. }
    destruct (negb (fs =? 0) && (Dest =? ptr_add Sp len)).
    + change (log_regs (BoundscheckRewriteLog Sp Source Dest len) st) with st in Hb.
      rewrite Hnext, Hmask in Hb. injection Hb as <- <-.
      split; [reflexivity | split; [reflexivity |]].
      cbn [invalidptr fprintf set_invalidptr]. lia.
    + destruct (negb (fs =? 0)); discriminate.
  - unfold Pool.boundscheckui in Hb.
    destruct (pools st !! Pool) as [D |]; [| discriminate].
    destruct (retrieve_out (Objects D) Source 0) as [[fs Sp] len].
    destruct (negb (fs =? 0) && ((Sp <=? Dest) && (ptr_add Sp len >? Dest))).
    { injection Hb as <- <-. split; [reflexivity | split; [reflexivity | lia]]. }
    destruct (negb (fs =? 0) && (Dest =? ptr_add Sp len)).
    + change (log_regs (BoundscheckRewriteLog Sp Source Dest len) st) with st in Hb.
      rewrite Hnext, Hmask in Hb. injection Hb as <- <-.
      split; [reflexivity | split; [reflexivity |]].
      cbn [invalidptr fprintf set_invalidptr]. lia.
    + destruct (Source =? 0); [discriminate |].
      destruct (retrieve_out (ExternalObjects st) Source 0) as [[fs' Sp'] len'].
      destruct (negb (fs' =? 0));
        [destruct ((Sp' <=? Dest) && (ptr_add Sp' len' >? Dest)) |];
        injection Hb as <- <-;
        (split; [reflexivity | split; [reflexivity | cbn [invalidptr fprintf]; lia]]).
Qed.

(** C6, amended. Once the cursor has come to the end of the rewrite region,
    in every state that a run of bounds checks reaches, as long as the
    cursor is below the last address of the 32-bit space: no pool has
    changed, the cursor has not moved down, and a one-past-the-end result
    handled by boundscheck or by boundscheckui prints the
    out-of-rewrite-pointers line, moves the cursor up by one and returns
    [Dest].  Any other violation is handled as it is before exhaustion:
    boundscheck prints its failure line and aborts, boundscheckui returns
    [Dest] when [Source] is not NULL.  The run-time has no mode in which
    the one-past-the-end result aborts. *)
Theorem exhausted_cursor_returns_Dest
  (st st1 : Runtime) (Pool Source : Z) (D : PoolTy) (n : node) :
  InvalidUpper - 1 <= invalidptr st ->
  checks_run InvalidLower InvalidUpper st st1 ->
  invalidptr st1 < 2 ^ 32 - 1 ->
  pools st1 !! Pool = Some D ->
  adl_splay_retrieve (Objects D) Source = Some n -> fits n ->
  pools st1 = pools st /\ invalidptr st <= invalidptr st1 /\
  boundscheck Pool Source (key n + len n) st1
    = Returns (key n + len n)
        (fprintf (BoundscheckOutOfRewritePtrs Source (key n + len n))
           (set_invalidptr (invalidptr st1 + 1) st1)) /\
  boundscheckui Pool Source (key n + len n) st1
    = Returns (key n + len n)
        (fprintf (BoundscheckuiOutOfRewritePtrs Source (key n + len n))
           (set_invalidptr (invalidptr st1 + 1) st1)) /\
  (forall Dest : Z, Dest < key n \/ key n + len n < Dest ->
     boundscheck Pool Source Dest st1
       = Aborts (fprintf (BoundscheckOutOfObject Pool 1 Source Dest (len n)) st1) /\
     (Source <> 0 ->
      exists st', boundscheckui Pool Source Dest st1 = Returns Dest st')).
Proof.
  intros Hx Hrun Hcur HD Hr Hf.
  assert (Hinv : pools st1 = pools st /\ invalidptr st <= invalidptr st1).
  { clear Hcur HD Hr Hf.
    induction Hrun as [st | st sta stb Pool' Source' Dest' r' Hrun IH Hcur Hstep].
    - split; [reflexivity | lia].
    - destruct (IH Hx) as [Hp Hle].
      destruct (exhausted_step sta stb Pool' Source' Dest' r' ltac:(lia) Hstep)
        as (_ & Hp' & Hc').
      split; [congruence | lia]. }
  destruct Hinv as [Hp Hle].
  destruct (exhausted_next st1 ltac:(lia)) as [Hnext Hmask].
  split; [exact Hp | split; [exact Hle | split; [| split]]].
  - rewrite (boundscheck_one_past InvalidLower InvalidUpper st1 Pool Source D n
               HD Hr Hf).
    cbv zeta. rewrite Hnext, Hmask. reflexivity.
  - rewrite (boundscheckui_one_past InvalidLower InvalidUpper st1 Pool Source D n
               HD Hr Hf).
    cbv zeta. rewrite Hnext, Hmask. reflexivity.
  - intros Dest Hd. split.
    + exact (boundscheck_outside InvalidLower InvalidUpper st1 Pool Source Dest D n
               HD Hr Hf Hd).
    + intros HS.
      exact (boundscheckui_outside InvalidLower InvalidUpper st1 Pool Source Dest D n
               HD Hr Hf Hd HS).
Qed.

End RewriteSequence.

Section RewriteSequenceSamples.

Import Machine Splay Pool.

Lemma rewrite_pointer_stays_valid_witness :
  exists st2 : Runtime,
    Pool.boundscheck Sample.InvalidLower Sample.InvalidUpper 64 4100 4112
        (rewritten 64 3221225473 4112 Sample.pool Sample.rt)
      = Returns 3221225474 st2 /\
    Pool.pchk_getActualValue Sample.InvalidLower Sample.InvalidUpper 64 3221225473 st2
      = Returns 4112 st2.
Proof.
  eexists. split; [reflexivity |].
  refine (proj1 (rewrite_pointer_stays_valid Sample.InvalidLower Sample.InvalidUpper
                   sample_region
                   (rewritten 64 3221225473 4112 Sample.pool Sample.rt) _
                   64 64 4100 4112 3221225473 4112 3221225474 _ _ _ _ _)).
  - unfold Sample.InvalidLower. lia.
  - reflexivity.
  - cbn. lia.
  - reflexivity.
  - left. reflexivity.
Defined.

Lemma getActualValue_left_inverse_witness :
  Pool.pchk_getActualValue Sample.InvalidLower Sample.InvalidUpper 64 100 Sample.rt
    = Returns 100 Sample.rt /\
  exists st2 : Runtime,
    Pool.boundscheckui Sample.InvalidLower Sample.InvalidUpper 64 4100 4112
        (rewritten 64 3221225473 4112 Sample.pool Sample.rt)
      = Returns 3221225474 st2 /\
    Pool.pchk_getActualValue Sample.InvalidLower Sample.InvalidUpper 64 3221225473 st2
      = Returns 4112 st2.
Proof.
  assert (H2 : exists st2 : Runtime,
             Pool.boundscheckui Sample.InvalidLower Sample.InvalidUpper 64 4100 4112
                 (rewritten 64 3221225473 4112 Sample.pool Sample.rt)
               = Returns 3221225474 st2)
    by (eexists; vm_compute; reflexivity).
  destruct H2 as [st2 H2].
  destruct (getActualValue_left_inverse Sample.InvalidLower Sample.InvalidUpper
              sample_region Sample.rt Sample.rt
              (rewritten 64 3221225473 4112 Sample.pool Sample.rt) st2
              64 4100 4112 3221225473 100) as [Hid Hinv].
  split.
  - apply Hid. left. by_computation.
  - exists st2. split; [exact H2 |].
    apply Hinv.
    + left. reflexivity.
    + left. reflexivity.
    + lia.
    + eapply run_call; [apply run_none | by_computation | right; exact H2].
Defined.

(** C3 as stated fails: with the cursor at the last address of the 32-bit
    space boundscheck hands out 0 in place of 4112 and records it, and
    pchk_getActualValue returns 0 as it is. *)
Lemma getActualValue_not_left_inverse :
  ~ (forall (st st1 : Runtime) (Pool Source Dest r : Z),
       Pool.boundscheck Sample.InvalidLower Sample.InvalidUpper Pool Source Dest st
         = Returns r st1 ->
       r <> Dest ->
       Pool.pchk_getActualValue Sample.InvalidLower Sample.InvalidUpper Pool r st1
         = Returns Dest st1).
Proof.
  intros H.
  assert (Hw : exists st1 : Runtime,
             Pool.boundscheck Sample.InvalidLower Sample.InvalidUpper 64 4100 4112
                 Sample.rt_wrap = Returns 0 st1 /\
             Pool.pchk_getActualValue Sample.InvalidLower Sample.InvalidUpper 64 0 st1
               = Returns 0 st1)
    by (eexists; split; vm_compute; reflexivity).
  destruct Hw as (st1 & Hcall & Hget).
  specialize (H Sample.rt_wrap st1 64 4100 4112 0 Hcall ltac:(lia)).
  rewrite Hget in H. discriminate H.
Qed.

(** At the last address of the 32-bit space the cursor wraps: the call
    returns 0, and the cursor starts again from 0. *)
Example boundscheck_cursor_wraps :
  exists st1 : Runtime,
    Pool.boundscheck Sample.InvalidLower Sample.InvalidUpper 64 4100 4112
        Sample.rt_wrap = Returns 0 st1 /\
    invalidptr st1 = 0.
Proof. eexists. split; vm_compute; reflexivity. Qed.

Lemma exhausted_cursor_returns_Dest_witness :
  exists st1 : Runtime,
    Pool.boundscheck Sample.InvalidLower Sample.InvalidUpper 64 4100 4112
        Sample.rt_exhausted = Returns 4112 st1 /\
    invalidptr st1 = Sample.InvalidUpper /\
    Pool.boundscheck Sample.InvalidLower Sample.InvalidUpper 64 4100 4112 st1
      = Returns 4112
          (fprintf (BoundscheckOutOfRewritePtrs 4100 4112)
             (set_invalidptr (invalidptr st1 + 1) st1)) /\
    Pool.boundscheckui Sample.InvalidLower Sample.InvalidUpper 64 4100 4112 st1
      = Returns 4112
          (fprintf (BoundscheckuiOutOfRewritePtrs 4100 4112)
             (set_invalidptr (invalidptr st1 + 1) st1)).
Proof.
  assert (H1 : exists st1 : Runtime,
             Pool.boundscheck Sample.InvalidLower Sample.InvalidUpper 64 4100 4112
                 Sample.rt_exhausted = Returns 4112 st1 /\
             invalidptr st1 = Sample.InvalidUpper /\
             pools st1 !! 64 = Some Sample.pool)
    by (eexists; split; [| split]; vm_compute; reflexivity).
  destruct H1 as (st1 & Hcall & Hcur & Hpool).
  exists st1. split; [exact Hcall | split; [exact Hcur |]].
  destruct (exhausted_cursor_returns_Dest Sample.InvalidLower Sample.InvalidUpper
              sample_region Sample.rt_exhausted st1 64 4100 Sample.pool
              (Node 4096 16 0)) as (_ & _ & Hb & Hui & _).
  - by_computation.
  - eapply run_call; [apply run_none | by_computation | left; exact Hcall].
  - rewrite Hcur. by_computation.
  - exact Hpool.
  - reflexivity.
  - exact sample_object_fits.
  - split; [exact Hb | exact Hui].
Defined.

(** C6 as stated fails: the run-time has no strict mode.  Whatever the
    state, and so with the region exhausted too, boundscheck does not abort
    on the one-past-the-end address. *)
Lemma exhausted_boundscheck_never_aborts :
  ~ (exists st st' : Runtime,
       pools st !! 64 = Some Sample.pool /\
       Sample.InvalidUpper - 1 <= invalidptr st /\
       Pool.boundscheck Sample.InvalidLower Sample.InvalidUpper 64 4100 4112 st
         = Aborts st').
Proof.
  intros (st & st' & Hpool & _ & Hcall).
  pose proof (boundscheck_one_past Sample.InvalidLower Sample.InvalidUpper st 64 4100
                Sample.pool (Node 4096 16 0) Hpool eq_refl sample_object_fits) as Hp.
  change (key (Node 4096 16 0) + len (Node 4096 16 0)) with 4112 in Hp.
  rewrite Hp in Hcall. cbv zeta in Hcall.
  destruct (Pool.out_of_rewrite_ptrs Sample.InvalidUpper
              (Pool.next_invalidptr Sample.InvalidLower st)); discriminate Hcall.
Qed.

End RewriteSequenceSamples.

(** *** Registering and unregistering *)

Section UnregisterFacts.

Import Machine Splay Pool.

Lemma delete_starts_elsewhere (t : tree) (p : Z) :
  Forall (fun m => key m <> p) t -> adl_splay_delete t p = t.
Proof.
  unfold adl_splay_delete. induction 1 as [| m t Hm _ IH]; cbn [List.filter].
  - reflexivity.
  - apply Z.eqb_neq in Hm. rewrite Hm. cbn [negb]. rewrite IH. reflexivity.
Qed.

Lemma set_pool_back (st : Runtime) (Pool : Z) (D D' : PoolTy) :
  pools st !! Pool = Some D -> set_pool Pool D (set_pool Pool D' st) = st.
Proof.
  intros HD. destruct st as [ps ext ip ro soe err]. unfold set_pool.
  cbn [pools ExternalObjects invalidptr RemapObjects stderr] in *.
  rewrite insert_insert_eq, insert_id by exact HD. reflexivity.
Qed.

(** X5. poolregister followed by poolunregister of the same pointer gives the
    run-time state back as it was, when no other record of the pool starts
    at that pointer. *)
Theorem poolregister_poolunregister (st : Runtime) (Pool p n : Z) (D : PoolTy) :
  Pool <> 0 -> pools st !! Pool = Some D ->
  Forall (fun m => key m <> p) (Objects D) ->
  exists st1 : Runtime,
    poolregister Pool p n st = Returns tt st1 /\
    poolunregister Pool p st1 = Returns tt st.
Proof.
  intros HP HD Hp. eexists. split.
  - unfold poolregister. pose proof HP as HP'. apply Z.eqb_neq in HP'.
    rewrite HP', HD. reflexivity.
  - change (log_regs (PoolregisterLog p n) ?s) with s.
    unfold poolunregister. apply Z.eqb_neq in HP. rewrite HP.
    rewrite pools_set_pool.
    change (log_regs (PoolunregisterLog p) ?s) with s.
    f_equal. unfold set_Objects.
    cbn [Objects NodeSize OOB DPTree].
    unfold adl_splay_insert, adl_splay_delete. cbn [List.filter key].
    rewrite Z.eqb_refl. cbn [negb].
    fold (adl_splay_delete (Objects D) p).
    rewrite delete_starts_elsewhere by exact Hp.
    destruct D as [ns objs oob dp]. cbn [Objects NodeSize OOB DPTree].
    assert (Hst : pools st !! Pool = Some (mkPool ns objs oob dp)) by exact HD.
    rewrite <- (set_pool_back st Pool (mkPool ns objs oob dp)
                  (mkPool ns (Node p n 0 :: objs) oob dp) Hst) at 2.
    destruct st as [ps ext ip ro soe err]. unfold set_pool.
    cbn [pools ExternalObjects invalidptr RemapObjects stderr].
    rewrite !insert_insert_eq. reflexivity.
Qed.

Lemma poolregister_poolunregister_witness :
  exists st1 : Runtime,
    poolregister 64 12288 24 Sample.rt = Returns tt st1 /\
    poolunregister 64 12288 st1 = Returns tt Sample.rt.
Proof.
  apply (poolregister_poolunregister Sample.rt 64 12288 24 Sample.pool);
    [lia | reflexivity | repeat constructor; cbn; lia].
Defined.

(** X6. After poolunregister of the start of a live object, poolcheck aborts
    on every address of that object, in a pool whose objects do not
    overlap. *)
Theorem poolunregister_poolcheck
  (st : Runtime) (Pool q : Z) (D : PoolTy) (n : node) :
  Pool <> 0 -> pools st !! Pool = Some D -> no_overlap (Objects D) ->
  In n (Objects D) -> covers n q = true ->
  exists st1 : Runtime,
    poolunregister Pool (key n) st = Returns tt st1 /\
    poolcheck Pool q st1 = Aborts (fprintf (PoolcheckFailed Pool 0 q 0) st1).
Proof.
  intros HP HD Hno Hin Hc. eexists. split.
  - unfold poolunregister. pose proof HP as HP'. apply Z.eqb_neq in HP'.
    rewrite HP', HD. reflexivity.
  - change (log_regs (PoolunregisterLog (key n)) ?s) with s.
    apply (poolcheck_uncovered _ Pool q _ HP (pools_set_pool _ _ _)).
    unfold set_Objects, uncovered. cbn [Objects].
    apply Forall_forall. intros m Hm.
    apply list_elem_of_In in Hm. unfold adl_splay_delete in Hm.
    apply filter_In in Hm. destruct Hm as [Hm Hk].
    destruct (covers m q) eqn:Hcm; [| reflexivity].
    rewrite (Hno m n q Hm Hin Hcm Hc) in Hk.
    rewrite Z.eqb_refl in Hk. discriminate.
Qed.

Lemma sample_no_overlap : no_overlap (Objects Sample.pool).
Proof.
  intros m n k [<- | []] [<- | []] _ _. reflexivity.
Qed.

Lemma poolunregister_poolcheck_witness :
  exists st1 : Runtime,
    poolunregister 64 4096 Sample.rt = Returns tt st1 /\
    poolcheck 64 4100 st1 = Aborts (fprintf (PoolcheckFailed 64 0 4100 0) st1).
Proof.
  apply (poolunregister_poolcheck Sample.rt 64 4100 Sample.pool (Node 4096 16 0));
    [lia | reflexivity | exact sample_no_overlap | left; reflexivity | reflexivity].
Defined.

End UnregisterFacts.

(** *** poolfree's page count *)

Section PageCountFacts.

Import Machine PoolLib.



End PageCountFacts.

(** *** poolcalloc and poolstrdup *)

Section PoolLibFacts.

Import Machine Realloc PoolLib.

Lemma bzero_bytes_outside (n : nat) :
  forall (p : Z) (m : memory) (a : Z),
  ~ (p <= a < p + Z.of_nat n) -> bzero_bytes n p m a = m a.
Proof.
  induction n as [| n IH]; intros p m a Ha; cbn [bzero_bytes].
  - reflexivity.
  - rewrite IH by lia. unfold store.
    destruct (Z.eqb_spec a p); [lia | reflexivity].
Qed.

Lemma bzero_bytes_inside (n : nat) :
  forall (p : Z) (m : memory) (i : Z),
  0 <= i < Z.of_nat n -> bzero_bytes n p m (p + i) = 0.
Proof.
  induction n as [| n IH]; intros p m i Hi; cbn [bzero_bytes].
  - lia.
  - destruct (Z.eq_dec i 0) as [-> | Hne].
    + rewrite bzero_bytes_outside by lia. unfold store.
      rewrite Z.add_0_r, Z.eqb_refl. reflexivity.
    + replace (p + i) with (p + 1 + (i - 1)) by lia. apply IH. lia.
Qed.

(** What strlen returns is the offset of the first NUL. *)
Lemma strlen_spec (limit : nat) :
  forall (m : memory) (p l : Z),
  strlen limit m p = Some l ->
  0 <= l < Z.of_nat limit /\ m (p + l) = 0 /\
  forall i, 0 <= i < l -> m (p + i) <> 0.
Proof.
  induction limit as [| limit IH]; intros m p l; cbn [strlen].
  - discriminate.
  - destruct (Z.eqb_spec (m p) 0) as [H0 | Hn0].
    + intros [= <-]. rewrite Z.add_0_r.
      split; [lia | split; [exact H0 | intros i Hi; lia]].
    + destruct (strlen limit m (p + 1)) as [l' |] eqn:E; [| discriminate].
      intros [= <-]. destruct (IH m (p + 1) l' E) as (Hl & Hz & Hnz).
      split; [lia | split].
      * replace (p + (l' + 1)) with (p + 1 + l') by lia. exact Hz.
      * intros i Hi. destruct (Z.eq_dec i 0) as [-> | Hne].
        -- rewrite Z.add_0_r. exact Hn0.
        -- replace (p + i) with (p + 1 + (i - 1)) by lia. apply Hnz. lia.
Qed.

Variable heap : Type.

Variable poolalloc : Z -> Z -> world heap -> result heap Z.

Variable limit : nat.

(** X8. poolcalloc asks poolalloc for Number * NumBytes bytes, the product
    taken in 32 bits, and sets exactly that many bytes of the new object to
    zero; every other byte of memory stays as poolalloc left it. *)
Theorem poolcalloc_zero_fills
  (Pool Number NumBytes New : Z) (w w1 : world heap) :
  poolalloc Pool (u32 (Number * NumBytes)) w = Done New w1 -> New <> 0 ->
  poolcalloc poolalloc Pool Number NumBytes w
    = Done New (do_bzero New (u32 (Number * NumBytes)) w1) /\
  allocator (do_bzero New (u32 (Number * NumBytes)) w1) = allocator w1 /\
  (forall i, 0 <= i < u32 (Number * NumBytes) ->
     mem (do_bzero New (u32 (Number * NumBytes)) w1) (New + i) = 0) /\
  (forall a, ~ (New <= a < New + u32 (Number * NumBytes)) ->
     mem (do_bzero New (u32 (Number * NumBytes)) w1) a = mem w1 a).
Proof.
  intros Ha HN. pose proof (u32_range (Number * NumBytes)) as Hr.
  split; [| split; [reflexivity | split]].
  - unfold poolcalloc. rewrite Ha. cbn [bind].
    apply Z.eqb_neq in HN. rewrite HN. reflexivity.
  - intros i Hi. cbn [do_bzero mem]. unfold bzero.
    apply bzero_bytes_inside. rewrite Z2Nat.id by lia. exact Hi.
  - intros a Hout. cbn [do_bzero mem]. unfold bzero.
    apply bzero_bytes_outside. rewrite Z2Nat.id by lia. exact Hout.
Qed.

(** X9. poolstrdup of a string of length [l] asks poolalloc for l + 1 bytes
    and copies l + 2: the characters, the NUL, and the byte that follows the
    NUL, which lands one byte past the end of the new object. *)
Theorem poolstrdup_copies_one_more
  (Pool Node New l : Z) (w w1 : world heap) :
  Node <> 0 -> strlen limit (mem w) Node = Some l -> l + 2 < 2 ^ 32 ->
  poolalloc Pool (l + 1) w = Done New w1 -> New <> 0 ->
  apart New Node (l + 2) ->
  poolstrdup poolalloc limit Pool Node w
    = Done New (do_memcpy New Node (l + 2) w1) /\
  (forall i, 0 <= i <= l + 1 ->
     mem (do_memcpy New Node (l + 2) w1) (New + i) = mem w1 (Node + i)) /\
  (forall a, ~ (New <= a < New + (l + 2)) ->
     mem (do_memcpy New Node (l + 2) w1) a = mem w1 a).
Proof.
  intros HN Hs Hl Ha HNew Hap.
  destruct (strlen_spec limit (mem w) Node l Hs) as (Hl0 & _ & _).
  split; [| split].
  - unfold poolstrdup. apply Z.eqb_neq in HN. rewrite HN, Hs.
    cbv zeta. rewrite (u32_small (l + 1)) by lia. rewrite Ha. cbn [bind].
    apply Z.eqb_neq in HNew. rewrite HNew.
    rewrite u32_small by lia. replace (l + 1 + 1) with (l + 2) by lia.
    reflexivity.
  - intros i Hi. cbn [do_memcpy mem]. apply memcpy_copied; [exact Hap | lia].
  - intros a Hout. cbn [do_memcpy mem]. apply memcpy_outside. exact Hout.
Qed.

End PoolLibFacts.

Section PoolLibSamples.

Import Machine Realloc PoolLib.

Lemma poolcalloc_zero_fills_witness :
  poolcalloc Sample.bump_alloc 64 3 4 Sample.world0
    = Done 8192 (do_bzero 8192 12 (mkWorld (mem Sample.world0) 8204)) /\
  (forall i, 0 <= i < 12 ->
     mem (do_bzero 8192 12 (mkWorld (mem Sample.world0) 8204)) (8192 + i) = 0).
Proof.
  destruct (poolcalloc_zero_fills Z Sample.bump_alloc 64 3 4 8192 Sample.world0
              (mkWorld (mem Sample.world0) 8204) eq_refl)
    as (Hc & _ & Hz & _); [lia |].
  split; [exact Hc | exact Hz].
Defined.

(** The product wraps: 65536 objects of 65536 bytes are a request for no
    byte at all, and nothing is set to zero. *)
Example poolcalloc_wraps :
  poolcalloc Sample.bump_alloc 64 65536 65536 Sample.world0
    = Done 8192 (do_bzero 8192 0 (mkWorld (mem Sample.world0) 8192)).
Proof. reflexivity. Qed.

Lemma poolstrdup_copies_one_more_witness :
  poolstrdup Sample.bump_alloc 10 64 4100 Sample.world_ab
    = Done 8192 (do_memcpy 8192 4100 4 (mkWorld Sample.string_mem 8195)) /\
  mem (do_memcpy 8192 4100 4 (mkWorld Sample.string_mem 8195)) (8192 + 3)
    = Sample.string_mem (4100 + 3).
Proof.
  destruct (poolstrdup_copies_one_more Z Sample.bump_alloc 10 64 4100 8192 2
              Sample.world_ab (mkWorld Sample.string_mem 8195))
    as (Hd & Hc & _);
    [lia | reflexivity | lia | reflexivity | lia | unfold apart; lia |].
  split; [exact Hd | apply Hc; lia].
Defined.

End PoolLibSamples.

(** *** Slabs: the start bits *)

Section SlabStartBits.

Import Machine Slab.

Lemma isStartOfAllocation_markNodeAllocated (v : list Z) (n m : Z) :
  in_vec v n -> 0 <= m ->
  isStartOfAllocation (markNodeAllocated v n) m = isStartOfAllocation v m.
Proof.
  intros Hn Hm. unfold isStartOfAllocation, markNodeAllocated.
  rewrite test_bit_or_bit by (trivial; lia).
  pose proof (land_15_range n). pose proof (land_15_range m).
  assert ((Z.land m 15 + 16 =? Z.land n 15 + 0) = false) as ->
    by (apply Z.eqb_neq; lia).
  rewrite andb_false_r, orb_false_r. reflexivity.
Qed.

Lemma isStartOfAllocation_markNodeFree (v : list Z) (n m : Z) :
  in_vec v n -> 0 <= m ->
  isStartOfAllocation (markNodeFree v n) m = isStartOfAllocation v m.
Proof.
  intros Hn Hm. unfold isStartOfAllocation, markNodeFree.
  rewrite test_bit_clear_bit by (trivial; lia).
  pose proof (land_15_range n). pose proof (land_15_range m).
  assert ((Z.land m 15 + 16 =? Z.land n 15 + 0) = false) as ->
    by (apply Z.eqb_neq; lia).
  rewrite andb_false_r, andb_true_r. reflexivity.
Qed.

Lemma eqb_add_16 (a b : Z) : (a + 16 =? b + 16) = (a =? b).
Proof. destruct (Z.eqb_spec a b), (Z.eqb_spec (a + 16) (b + 16)); lia || reflexivity. Qed.

Lemma isStartOfAllocation_setStartBit (v : list Z) (n m : Z) :
  in_vec v n -> 0 <= m ->
  isStartOfAllocation (setStartBit v n) m = isStartOfAllocation v m || (m =? n).
Proof.
  intros Hn Hm. unfold isStartOfAllocation, setStartBit.
  rewrite test_bit_or_bit by (trivial; lia).
  rewrite eqb_add_16, same_node. reflexivity.
Qed.

Lemma isStartOfAllocation_clearStartBit (v : list Z) (n m : Z) :
  in_vec v n -> 0 <= m ->
  isStartOfAllocation (clearStartBit v n) m
    = isStartOfAllocation v m && negb (m =? n).
Proof.
  intros Hn Hm. unfold isStartOfAllocation, clearStartBit.
  rewrite test_bit_clear_bit by (trivial; lia).
  rewrite eqb_add_16, same_node. reflexivity.
Qed.

Lemma isStartOfAllocation_clear_nodes (n : nat) :
  forall (i : Z) (v : list Z) (m : Z),
  0 <= i -> i + Z.of_nat n <= 16 * Z.of_nat (length v) -> 0 <= m ->
  isStartOfAllocation (clear_nodes n i v) m =
    isStartOfAllocation v m && negb ((i <=? m) && (m <? i + Z.of_nat n)).
Proof.
  induction n as [| n IH]; intros i v m Hi Hlen Hm; cbn [clear_nodes].
  - replace (m <? i + Z.of_nat 0) with (m <? i) by (f_equal; lia).
    destruct (Z.leb_spec i m), (Z.ltb_spec m i); try lia;
      cbn [andb negb]; rewrite andb_true_r; reflexivity.
  - assert (Hv : in_vec v i) by (unfold in_vec; lia).
    assert (Hv' : in_vec (markNodeFree v i) i).
    { unfold in_vec, markNodeFree. rewrite length_clear_bit. exact Hv. }
    rewrite IH; [| lia
                 | unfold clearStartBit, markNodeFree;
                   rewrite !length_clear_bit; lia
                 | exact Hm].
    rewrite isStartOfAllocation_clearStartBit by assumption.
    rewrite isStartOfAllocation_markNodeFree by assumption.
    destruct (Z.eqb_spec m i), (Z.leb_spec i m), (Z.leb_spec (i + 1) m),
      (Z.ltb_spec m (i + 1 + Z.of_nat n)), (Z.ltb_spec m (i + Z.of_nat (S n)));
      try lia; cbn [andb negb]; rewrite ?andb_true_r, ?andb_false_r; reflexivity.
Qed.

Lemma isStartOfAllocation_mark_run (n : nat) :
  forall (i : Z) (v : list Z) (m : Z),
  0 <= i -> i + Z.of_nat n <= 16 * Z.of_nat (length v) -> 0 <= m ->
  isStartOfAllocation (mark_run n i v) m = isStartOfAllocation v m.
Proof.
  induction n as [| n IH]; intros i v m Hi Hlen Hm; cbn [mark_run].
  - reflexivity.
  - assert (Hv : in_vec v i) by (unfold in_vec; lia).
    rewrite IH; [| lia | unfold markNodeAllocated; rewrite length_or_bit; lia
                 | exact Hm].
    apply isStartOfAllocation_markNodeAllocated; assumption.
Qed.

(** The start bits after a run of [Size] nodes is marked from [Idx] on. *)
Lemma isStartOfAllocation_block (v : list Z) (Idx Size m : Z) :
  0 <= Idx -> Idx + Size <= 16 * Z.of_nat (length v) -> 0 < Size -> 0 <= m ->
  isStartOfAllocation (mark_run (Z.to_nat Size) Idx (setStartBit v Idx)) m =
    isStartOfAllocation v m || (m =? Idx).
Proof.
  intros HIdx Hlen Hpos Hm.
  rewrite isStartOfAllocation_mark_run;
    [| exact HIdx
     | unfold setStartBit; rewrite length_or_bit, Z2Nat.id by lia; exact Hlen
     | exact Hm].
  apply isStartOfAllocation_setStartBit; [unfold in_vec; lia | exact Hm].
Qed.

(** The bits of one node after it is allocated on its own. *)
Lemma bits_allocate_one (v : list Z) (n : Z) :
  in_vec v n ->
  forall m, 0 <= m ->
  isNodeAllocated (setStartBit (markNodeAllocated v n) n) m
    = isNodeAllocated v m || (m =? n) /\
  isStartOfAllocation (setStartBit (markNodeAllocated v n) n) m
    = isStartOfAllocation v m || (m =? n).
Proof.
  intros Hv m Hm.
  assert (Hv' : in_vec (markNodeAllocated v n) n).
  { unfold in_vec, markNodeAllocated. rewrite length_or_bit. exact Hv. }
  split.
  - rewrite isNodeAllocated_setStartBit by assumption.
    apply isNodeAllocated_markNodeAllocated; assumption.
  - rewrite isStartOfAllocation_setStartBit by assumption.
    rewrite isStartOfAllocation_markNodeAllocated by assumption. reflexivity.
Qed.

End SlabStartBits.

(** *** Slabs: what create and the allocators return *)

Section SlabAllocation.

Import Machine Slab.

(** create clears both bits of every node. *)
Lemma create_free (NodesPerSlab : Z) (page : list Z) (m : Z) :
  0 <= NodesPerSlab < 2 ^ 16 ->
  NodesPerSlab <= 16 * Z.of_nat (length page) ->
  0 <= m < NodesPerSlab ->
  isNodeAllocated (NodeFlagsVector (create NodesPerSlab page)) m = false /\
  isStartOfAllocation (NodeFlagsVector (create NodesPerSlab page)) m = false.
Proof.
  intros Hn Hp Hm. unfold create. cbn [NodeFlagsVector].
  rewrite isNodeAllocated_clear_nodes, isStartOfAllocation_clear_nodes
    by (rewrite ?Z2Nat.id; lia).
  rewrite Z2Nat.id by lia.
  assert ((0 <=? m) = true) as -> by (apply Z.leb_le; lia).
  assert ((m <? 0 + NodesPerSlab) = true) as -> by (apply Z.ltb_lt; lia).
  rewrite !andb_false_r. split; reflexivity.
Qed.

Lemma create_packed (NodesPerSlab : Z) (page : list Z) :
  packed (create NodesPerSlab page).
Proof. intros i Hi. unfold create in Hi. cbn [FirstUnused] in Hi. lia. Qed.

Lemma create_runs_ok (NodesPerSlab : Z) (page : list Z) :
  0 <= NodesPerSlab < 2 ^ 16 ->
  NodesPerSlab <= 16 * Z.of_nat (length page) ->
  runs_ok (create NodesPerSlab page).
Proof.
  intros Hn Hp i Hi. unfold create in Hi. cbn [NumNodesInSlab] in Hi.
  destruct (create_free NodesPerSlab page i Hn Hp Hi) as [Ha Hs].
  rewrite Ha, Hs. split; intros; discriminate.
Qed.

(** X10. A slab that create returns satisfies the invariants, passes assertOkay,
    and has no node allocated and no start bit set, whatever the page held
    before. *)
Theorem create_empty (NodesPerSlab : Z) (page : list Z) :
  0 <= NodesPerSlab < 2 ^ 16 ->
  NodesPerSlab <= 16 * Z.of_nat (length page) ->
  slab_ok (create NodesPerSlab page) /\
  packed (create NodesPerSlab page) /\
  runs_ok (create NodesPerSlab page) /\
  assertOkay (create NodesPerSlab page) = true /\
  forall m, 0 <= m < NodesPerSlab ->
    isNodeAllocated (NodeFlagsVector (create NodesPerSlab page)) m = false /\
    isStartOfAllocation (NodeFlagsVector (create NodesPerSlab page)) m = false.
Proof.
  intros Hn Hp.
  pose proof (create_ok NodesPerSlab page Hn Hp) as Hok.
  split; [exact Hok | split; [apply create_packed | split; [| split]]].
  - apply create_runs_ok; assumption.
  - apply slab_ok_assertOkay. exact Hok.
  - intros m Hm. apply create_free; assumption.
Qed.

(** The nodes that the do-while loop of allocateSingle steps over are
    allocated. *)
Lemma next_unused_between (v : list Z) (SlabSize : Z) (fuel : nat) :
  forall FU : Z,
  0 <= FU < SlabSize -> SlabSize < 2 ^ 16 -> SlabSize - FU <= Z.of_nat fuel ->
  forall i, FU < i < next_unused fuel FU SlabSize v ->
  isNodeAllocated v i = true.
Proof.
  induction fuel as [| fuel IH]; intros FU HFU Hsz Hfuel.
  - lia.
  - cbn [next_unused]. rewrite u16_small by lia.
    destruct (Z.eqb_spec (FU + 1) SlabSize) as [He | Hne]; cbn [negb andb].
    + intros i Hi. lia.
    + destruct (isNodeAllocated v (FU + 1)) eqn:Ea.
      * intros i Hi. destruct (Z.eq_dec i (FU + 1)) as [-> | Hn]; [exact Ea |].
        apply (IH (FU + 1)); lia.
      * intros i Hi. lia.
Qed.

(** X11. allocateSingle on a slab that satisfies the invariants keeps them.  It
    returns -1, leaving the slab as it is, only when every node is
    allocated; otherwise it returns a node that was free, and allocates and
    marks as a start that node and no other. *)
Theorem allocateSingle_result (s s' : PoolSlab) (r : Z) :
  slab_ok s -> packed s -> runs_ok s ->
  allocateSingle s = (s', r) ->
  slab_ok s' /\ packed s' /\ runs_ok s' /\
  ((r = -1 /\ s' = s /\
    forall i, 0 <= i < NumNodesInSlab s ->
      isNodeAllocated (NodeFlagsVector s) i = true)
   \/
   (0 <= r < NumNodesInSlab s /\
    isNodeAllocated (NodeFlagsVector s) r = false /\
    forall m, 0 <= m ->
      isNodeAllocated (NodeFlagsVector s') m
        = isNodeAllocated (NodeFlagsVector s) m || (m =? r) /\
      isStartOfAllocation (NodeFlagsVector s') m
        = isStartOfAllocation (NodeFlagsVector s) m || (m =? r))).
Proof.
  intros Hok Hpk Hruns Hcall.
  pose proof (allocateSingle_ok s Hok) as Hok'.
  rewrite Hcall in Hok'. cbn [fst] in Hok'.
  pose proof Hok as [Hsingle Hsz Hw [[H0 Hfu] Hue] Habove Hlast Hfirst].
  assert (Hstep : forall n, 0 <= n < NumNodesInSlab s ->
            isNodeAllocated (NodeFlagsVector s) n = false ->
            (forall m, 0 <= m ->
               isNodeAllocated (NodeFlagsVector s') m
                 = isNodeAllocated (NodeFlagsVector s) m || (m =? n) /\
               isStartOfAllocation (NodeFlagsVector s') m
                 = isStartOfAllocation (NodeFlagsVector s) m || (m =? n)) ->
            NumNodesInSlab s' = NumNodesInSlab s ->
            runs_ok s').
  { intros n Hn Hfree Hbits HN i Hi. rewrite HN in Hi.
    destruct (Hbits i ltac:(lia)) as [Ha Hs]. rewrite Ha, Hs.
    destruct (Hruns i Hi) as [Hr1 Hr2].
    destruct (Z.eqb_spec i n) as [-> | Hne].
    - rewrite !orb_true_r. split; [reflexivity | discriminate].
    - rewrite !orb_false_r. split; [exact Hr1 |].
      intros Hai Hsi. destruct (Hr2 Hai Hsi) as [Hpos Hprev].
      split; [exact Hpos |].
      destruct (Hbits (i - 1) ltac:(lia)) as [Ha' _]. rewrite Ha', Hprev.
      reflexivity. }
  unfold allocateSingle, getSlabSize in Hcall. rewrite Hsingle in Hcall.
  destruct (Z.ltb_spec (UsedEnd s) (NumNodesInSlab s)) as [Hlt | Hge].
  - (* room after UsedEnd *)
    injection Hcall as <- <-.
    assert (Hv : in_vec (NodeFlagsVector s) (UsedEnd s)) by (unfold in_vec; lia).
    pose proof (bits_allocate_one (NodeFlagsVector s) (UsedEnd s) Hv) as Hbits.
    assert (Hfree : isNodeAllocated (NodeFlagsVector s) (UsedEnd s) = false)
      by (apply Habove; lia).
    split; [exact Hok' | split; [| split]].
    + intros i.
      cbn [with_flags with_cursors NodeFlagsVector FirstUnused].
      destruct (Z.eqb_spec (FirstUnused s) (UsedEnd s)) as [He | Hne].
      * rewrite (u16_small (FirstUnused s + 1)) by lia. intros Hi.
        destruct (Hbits i ltac:(lia)) as [-> _].
        destruct (Z.eqb_spec i (UsedEnd s)); [apply orb_true_r |].
        rewrite Hpk by lia. reflexivity.
      * intros Hi. destruct (Hbits i ltac:(lia)) as [-> _].
        rewrite Hpk by lia. reflexivity.
    + apply (Hstep (UsedEnd s)); [lia | exact Hfree | exact Hbits | reflexivity].
    + right. split; [lia | split; [exact Hfree | exact Hbits]].
  - destruct (Z.ltb_spec (FirstUnused s) (NumNodesInSlab s)) as [Hlt | Hge'].
    + (* a free node below UsedEnd *)
      apply pair_equal_spec in Hcall. destruct Hcall as [<- <-].
      assert (Hv : in_vec (NodeFlagsVector s) (FirstUnused s))
        by (unfold in_vec; lia).
      pose proof (bits_allocate_one (NodeFlagsVector s) (FirstUnused s) Hv)
        as Hbits.
      assert (Hfree : isNodeAllocated (NodeFlagsVector s) (FirstUnused s) = false)
        by (apply Hfirst; lia).
      split; [exact Hok' | split; [| split]].
      * intros i. cbn [with_flags with_cursors NodeFlagsVector FirstUnused].
        intros Hi.
        destruct (Z_lt_le_dec (FirstUnused s) i) as [Habv | Hblw].
        -- apply (next_unused_between _ (NumNodesInSlab s) (Z.to_nat (2 ^ 16))
                    (FirstUnused s)); lia.
        -- destruct (Hbits i ltac:(lia)) as [-> _].
           destruct (Z.eqb_spec i (FirstUnused s)); [apply orb_true_r |].
           rewrite Hpk by lia. reflexivity.
      * apply (Hstep (FirstUnused s));
          [lia | exact Hfree | exact Hbits | reflexivity].
      * right. split; [lia | split; [exact Hfree | exact Hbits]].
    + (* the slab is full *)
      injection Hcall as <- <-.
      split; [exact Hok | split; [exact Hpk | split; [exact Hruns |]]].
      left. split; [reflexivity | split; [reflexivity |]].
      intros i Hi. apply Hpk. lia.
Qed.

(** The nodes that the loops of allocateMultiple step over are allocated. *)
Lemma skip_allocated_between (v : list Z) (Size SlabSize : Z) (fuel : nat) :
  forall Idx r : Z,
  0 <= Idx <= SlabSize -> 1 <= Size <= SlabSize -> SlabSize < 2 ^ 16 ->
  skip_allocated fuel Idx Size SlabSize v = Some r ->
  forall i, Idx <= i < r -> isNodeAllocated v i = true.
Proof.
  induction fuel as [| fuel IH]; intros Idx r HIdx HSize Hsz.
  - discriminate.
  - cbn [skip_allocated]. rewrite u32_small by lia.
    destruct (Z.leb_spec (Idx + Size) SlabSize) as [Hle | Hgt]; cbn [andb].
    + destruct (isNodeAllocated v Idx) eqn:Ea.
      * rewrite u32_small by lia. intros Hr i Hi.
        destruct (Z.eq_dec i Idx) as [-> | Hn]; [exact Ea |].
        apply (IH (Idx + 1) r); trivial; lia.
      * intros [= <-] i Hi. lia.
    + intros [= <-] i Hi. lia.
Qed.

Lemma first_unused_below_between (v : list Z) (UE : Z) (fuel : nat) :
  forall i : Z,
  0 <= i -> UE < 2 ^ 16 ->
  forall j, i <= j < first_unused_below fuel i UE v ->
  isNodeAllocated v j = true.
Proof.
  induction fuel as [| fuel IH]; intros i Hi HUE.
  - cbn [first_unused_below]. intros j Hj. lia.
  - cbn [first_unused_below].
    destruct (Z.ltb_spec i UE) as [Hlt | Hge]; cbn [andb].
    + destruct (isNodeAllocated v i) eqn:Ea.
      * rewrite u32_small by lia. intros j Hj.
        destruct (Z.eq_dec j i) as [-> | Hn]; [exact Ea |].
        apply (IH (i + 1)); lia.
      * intros j Hj. lia.
    + intros j Hj. lia.
Qed.

(** Allocating a run of free nodes keeps the runs well formed. *)
Lemma allocates_runs_ok (s s' : PoolSlab) (r Size : Z) :
  runs_ok s -> NumNodesInSlab s' = NumNodesInSlab s -> 0 < Size ->
  allocates s s' r Size -> runs_ok s'.
Proof.
  intros Hruns HN HSize (Hr & Hfit & Hfree & Hbits) i Hi. rewrite HN in Hi.
  destruct (Hbits i ltac:(lia)) as [Ha Hs]. rewrite Ha, Hs.
  destruct (Hruns i Hi) as [Hr1 Hr2].
  destruct (Z.eqb_spec i r) as [-> | Hne].
  - assert ((r <=? r) = true) as -> by (apply Z.leb_le; lia).
    assert ((r <? r + Size) = true) as -> by (apply Z.ltb_lt; lia).
    rewrite !orb_true_r. split; [reflexivity | discriminate].
  - rewrite (orb_false_r (isStartOfAllocation _ _)).
    destruct (Z.leb_spec r i) as [Hle | Hgt];
      [destruct (Z.ltb_spec i (r + Size)) as [Hin | Hout] |]; cbn [andb].
    + (* inside the run, after its first node *)
      rewrite orb_true_r. split; [reflexivity |]. intros _ _.
      split; [lia |].
      destruct (Hbits (i - 1) ltac:(lia)) as [-> _].
      assert ((r <=? i - 1) = true) as -> by (apply Z.leb_le; lia).
      assert ((i - 1 <? r + Size) = true) as -> by (apply Z.ltb_lt; lia).
      apply orb_true_r.
    + rewrite orb_false_r. split; [exact Hr1 |].
      intros Hai Hsi. destruct (Hr2 Hai Hsi) as [Hpos Hprev].
      split; [exact Hpos |].
      destruct (Hbits (i - 1) ltac:(lia)) as [-> _]. rewrite Hprev. reflexivity.
    + rewrite orb_false_r. split; [exact Hr1 |].
      intros Hai Hsi. destruct (Hr2 Hai Hsi) as [Hpos Hprev].
      split; [exact Hpos |].
      destruct (Hbits (i - 1) ltac:(lia)) as [-> _]. rewrite Hprev. reflexivity.
Qed.

(** The bits after a run of [Size] free nodes is marked from [Idx] on. *)
Lemma mark_run_allocates (s : PoolSlab) (Idx Size FU UB UE : Z) :
  0 <= Idx -> 0 < Size -> Idx + Size <= NumNodesInSlab s ->
  NumNodesInSlab s <= 16 * Z.of_nat (length (NodeFlagsVector s)) ->
  (forall i, Idx <= i < Idx + Size ->
     isNodeAllocated (NodeFlagsVector s) i = false) ->
  allocates s
    (with_flags (mark_run (Z.to_nat Size) Idx
                   (setStartBit (NodeFlagsVector s) Idx))
       (with_cursors FU UB UE s)) Idx Size.
Proof.
  intros HIdx HSize Hfit Hw Hfree.
  split; [exact HIdx | split; [exact Hfit | split; [exact Hfree |]]].
  intros m Hm. cbn [with_flags NodeFlagsVector]. split.
  - apply isNodeAllocated_block; lia.
  - apply isStartOfAllocation_block; lia.
Qed.

(** What the search of allocateMultiple returns: -1 on a slab it leaves as
    it is, when no run of [Size] free nodes is left, or the first node of
    such a run, which it allocates. *)
Lemma search_unused_result (s : PoolSlab) (Size : Z) (fuel : nat) :
  slab_ok s -> packed s -> 1 <= Size <= NumNodesInSlab s ->
  NumNodesInSlab s < UsedEnd s + Size ->
  forall Idx : Z,
  FirstUnused s <= Idx <= NumNodesInSlab s ->
  (Idx + Size <= NumNodesInSlab s ->
   isNodeAllocated (NodeFlagsVector s) Idx = false) ->
  no_free_run s Size Idx ->
  NumNodesInSlab s - Idx + 2 <= Z.of_nat fuel ->
  forall (s' : PoolSlab) (r : Z),
  search_unused fuel Idx Size s = Some (s', r) ->
  packed s' /\ NumNodesInSlab s' = NumNodesInSlab s /\
  ((r = -1 /\ s' = s /\ no_free_run s Size (NumNodesInSlab s))
   \/ allocates s s' r Size).
Proof.
  intros Hok Hpk HSize Hfull.
  pose proof Hok as [Hsingle Hsz Hw [[H0 Hfu] Hue] Habove Hlast Hfirst].
  induction fuel as [| fuel IH]; intros Idx HIdx Hfree Hnone Hfuel s' r.
  - lia.
  - cbn [search_unused]. unfold getSlabSize.
    rewrite (u32_small (Idx + Size)) by lia.
    destruct (Z.leb_spec (Idx + Size) (NumNodesInSlab s)) as [Hfit | Hnofit].
    2:{ intros [= <- <-]. split; [exact Hpk | split; [reflexivity |]].
        left. split; [reflexivity | split; [reflexivity |]].
        intros j Hj Hjfit. apply Hnone; lia. }
    rewrite (u32_small (Size - 1)), (u32_small (Idx + 1)) by lia.
    destruct (scan_unused_spec (NodeFlagsVector s) (Idx + Size)
                (Z.to_nat (Size - 1)) (Idx + 1))
      as (HL & HLfree & HLstop); [lia | lia | lia |].
    set (LastUnused := scan_unused (Z.to_nat (Size - 1)) (Idx + 1) (Idx + Size)
                                   (NodeFlagsVector s)) in *.
    destruct (Z.eqb_spec LastUnused (Idx + Size)) as [Hall | Hstop].
    + (* [Size] free nodes from [Idx] on *)
      assert (Hblock : forall i, Idx <= i < Idx + Size ->
                isNodeAllocated (NodeFlagsVector s) i = false).
      { intros i Hi. destruct (Z.eq_dec i Idx) as [-> | Hn]; [auto |].
        apply HLfree. lia. }
      assert (Hbelow : Idx + Size <= UsedEnd s - 1).
      { assert (Hpos : 0 < UsedEnd s) by lia. specialize (Hlast Hpos).
        destruct (Z_lt_le_dec (UsedEnd s - 1) Idx).
        - lia.
        - destruct (Z_lt_le_dec (UsedEnd s - 1) (Idx + Size)); [| lia].
          rewrite Hblock in Hlast by lia. discriminate. }
      rewrite (u32_small Size) by lia.
      set (v := mark_run (Z.to_nat Size) Idx (setStartBit (NodeFlagsVector s) Idx)).
      assert (Hbit : forall m, 0 <= m ->
                isNodeAllocated v m =
                  isNodeAllocated (NodeFlagsVector s) m
                  || ((Idx <=? m) && (m <? Idx + Size))).
      { intros m Hm. apply isNodeAllocated_block; lia. }
      assert (Hnew : forall m, Idx <= m < Idx + Size -> isNodeAllocated v m = true).
      { intros m Hm. rewrite Hbit by lia.
        assert ((Idx <=? m) = true) as -> by (apply Z.leb_le; lia).
        assert ((m <? Idx + Size) = true) as -> by (apply Z.ltb_lt; lia).
        apply orb_true_r. }
      assert (Hold : forall m, 0 <= m ->
                isNodeAllocated (NodeFlagsVector s) m = true ->
                isNodeAllocated v m = true).
      { intros m Hm Ha. rewrite Hbit, Ha by lia. reflexivity. }
      intros Hres. apply Some_inj in Hres.
      apply pair_equal_spec in Hres. destruct Hres as [<- <-].
      split; [| split; [reflexivity |]].
      * (* every node below the new FirstUnused is allocated *)
        intros j. cbn [with_flags with_cursors NodeFlagsVector FirstUnused].
        destruct (Z.eqb_spec Idx (FirstUnused s)) as [He | Hne].
        -- rewrite (u32_small (FirstUnused s + Size)) by lia.
           destruct (first_unused_below_spec v (UsedEnd s) (Z.to_nat (2 ^ 16))
                       (FirstUnused s + Size)) as [Hr Hrfree];
             [lia | lia | lia | lia |].
           pose proof (first_unused_below_between v (UsedEnd s)
                         (Z.to_nat (2 ^ 16)) (FirstUnused s + Size)
                         ltac:(lia) ltac:(lia)) as Hbetween.
           set (i := first_unused_below (Z.to_nat (2 ^ 16)) (FirstUnused s + Size)
                                        (UsedEnd s) v) in *.
           assert (Hcover : forall j, 0 <= j < i -> isNodeAllocated v j = true).
           { intros k Hk.
             destruct (Z_lt_le_dec k (FirstUnused s)) as [Hk1 | Hk1].
             - apply Hold; [lia | apply Hpk; lia].
             - destruct (Z_lt_le_dec k (FirstUnused s + Size)) as [Hk2 | Hk2].
               + apply Hnew. lia.
               + apply Hbetween. lia. }
           destruct (isNodeAllocated v i) eqn:Ei.
           ++ assert (Hi : i = UsedEnd s).
              { destruct (Z_lt_le_dec i (UsedEnd s)) as [Hlt | Hge]; [| lia].
                specialize (Hrfree Hlt). discriminate. }
              assert (HUE : UsedEnd s = NumNodesInSlab s).
              { destruct (Z_lt_le_dec (UsedEnd s) (NumNodesInSlab s)) as [Hlt | Hge];
                  [| lia].
                rewrite Hi, Hbit, Habove in Ei by lia.
                assert ((UsedEnd s <? Idx + Size) = false) as Hout
                  by (apply Z.ltb_ge; lia).
                rewrite Hout, andb_false_r in Ei. discriminate. }
              rewrite u16_small by lia. intros Hj. apply Hcover. lia.
           ++ rewrite u16_small by lia. intros Hj. apply Hcover. lia.
        -- intros Hj. apply Hold; [lia | apply Hpk; lia].
      * right. apply mark_run_allocates; trivial; lia.
    + (* an allocated node stops the run: try further on *)
      destruct (skip_allocated_spec (NodeFlagsVector s) Size (NumNodesInSlab s)
                  fuel LastUnused) as (Idx' & Hskip & Hrange & Hfree');
        [lia | lia | lia | lia |].
      rewrite Hskip. apply IH; [lia | exact Hfree' | | lia].
      intros j Hj Hjfit.
      destruct (Z_lt_le_dec j Idx) as [Hj1 | Hj1]; [apply Hnone; lia |].
      destruct (Z_le_gt_dec j LastUnused) as [Hj2 | Hj2].
      * exists LastUnused. split; [lia | apply HLstop; lia].
      * exists j. split; [lia |].
        apply (skip_allocated_between (NodeFlagsVector s) Size
                 (NumNodesInSlab s) fuel LastUnused Idx'); trivial; lia.
Qed.

(** What allocateMultiple returns: -1 on a slab it leaves as it is, when
    no run of [Size] free nodes is left, or the first node of such a run,
    which it allocates. *)
Lemma allocateMultiple_allocates (s s' : PoolSlab) (Size r : Z) :
  slab_ok s -> packed s -> 1 <= Size <= NumNodesInSlab s ->
  allocateMultiple Size s = Some (s', r) ->
  packed s' /\ NumNodesInSlab s' = NumNodesInSlab s /\
  ((r = -1 /\ s' = s /\ no_free_run s Size (NumNodesInSlab s))
   \/ allocates s s' r Size).
Proof.
  intros Hok Hpk HSize Hcall.
  pose proof Hok as [Hsingle Hsz Hw [[H0 Hfu] Hue] Habove Hlast Hfirst].
  unfold allocateMultiple, getSlabSize in Hcall. rewrite Hsingle in Hcall.
  rewrite (u32_small (UsedEnd s + Size)) in Hcall by lia.
  destruct (Z.leb_spec (UsedEnd s + Size) (NumNodesInSlab s)) as [Hfit | Hnofit].
  - rewrite (u32_small Size) in Hcall by lia.
    apply Some_inj in Hcall. apply pair_equal_spec in Hcall.
    destruct Hcall as [<- <-].
    assert (Hal : forall FU UB UE,
              allocates s
                (with_flags (mark_run (Z.to_nat Size) (UsedEnd s)
                               (setStartBit (NodeFlagsVector s) (UsedEnd s)))
                   (with_cursors FU UB UE s)) (UsedEnd s) Size).
    { intros FU UB UE. apply mark_run_allocates; trivial; try lia.
      intros i Hi. apply Habove. lia. }
    split; [| split; [reflexivity | right; apply Hal]].
    intros j. cbn [with_flags with_cursors NodeFlagsVector FirstUnused].
    destruct (Hal 0 0 0) as (_ & _ & _ & Hbits).
    cbn [with_flags NodeFlagsVector] in Hbits.
    destruct (Z.eqb_spec (FirstUnused s) (UsedEnd s)) as [He | Hne].
    + rewrite u16_small by lia. intros Hj.
      destruct (Hbits j ltac:(lia)) as [-> _].
      destruct (Z_lt_le_dec j (UsedEnd s)) as [Hj1 | Hj1].
      * rewrite Hpk by lia. reflexivity.
      * assert ((UsedEnd s <=? j) = true) as -> by (apply Z.leb_le; lia).
        assert ((j <? UsedEnd s + Size) = true) as -> by (apply Z.ltb_lt; lia).
        apply orb_true_r.
    + intros Hj. destruct (Hbits j ltac:(lia)) as [-> _].
      rewrite Hpk by lia. reflexivity.
  - apply (search_unused_result s Size (Z.to_nat (NumNodesInSlab s) + 2)
             Hok Hpk HSize ltac:(lia) (FirstUnused s)); trivial; try lia.
    + intros Hi. apply Hfirst. lia.
    + intros j Hj _. exists j. split; [lia | apply Hpk; lia].
Qed.

(** X12. allocateMultiple, asked for a run that a slab can hold, returns and
    keeps the invariants.  It returns -1, leaving the slab as it is, only
    when the slab has no run of [Size] free nodes; otherwise it returns the
    first node of a run of [Size] free nodes, allocates these and no other,
    and sets the start bit of the first. *)
Theorem allocateMultiple_result (s : PoolSlab) (Size : Z) :
  slab_ok s -> packed s -> runs_ok s -> 1 <= Size <= NumNodesInSlab s ->
  exists (s' : PoolSlab) (r : Z),
    allocateMultiple Size s = Some (s', r) /\
    slab_ok s' /\ packed s' /\ runs_ok s' /\
    ((r = -1 /\ s' = s /\ no_free_run s Size (NumNodesInSlab s))
     \/ allocates s s' r Size).
Proof.
  intros Hok Hpk Hruns HSize.
  destruct (allocateMultiple_ok s Size Hok HSize) as (s' & r & Hcall & Hok').
  exists s', r. split; [exact Hcall | split; [exact Hok' |]].
  destruct (allocateMultiple_allocates s s' Size r Hok Hpk HSize Hcall)
    as (Hpk' & HN & Hres).
  split; [exact Hpk' | split; [| exact Hres]].
  destruct Hres as [(_ & -> & _) | Hal]; [exact Hruns |].
  apply (allocates_runs_ok s s' r Size); trivial; lia.
Qed.

End SlabAllocation.

(** *** Slabs: lastNodeAllocated *)

Section SlabLastNode.

Import Machine Slab.

(** The allocated bit of node [16 * w + j] is bit [j] of word [w]. *)
Lemma node_bit (v : list Z) (n : Z) :
  0 <= n ->
  isNodeAllocated v n = Z.testbit (flags_word v (n / 16)) (n mod 16).
Proof.
  intros Hn. unfold isNodeAllocated. rewrite test_bit_testbit by div_lia.
  rewrite land_15, Z.add_0_r. reflexivity.
Qed.

Lemma testbit_low_half (w j : Z) :
  0 <= j < 16 -> Z.testbit (Z.land w 65535) j = Z.testbit w j.
Proof.
  intros Hj. change 65535 with (Z.ones 16).
  rewrite Z.land_spec, Z.ones_spec_low by div_lia. apply andb_true_r.
Qed.

Lemma low_half_range (w : Z) : 0 <= Z.land w 65535 < 2 ^ 16.
Proof.
  change 65535 with (Z.ones 16). rewrite Z.land_ones by div_lia.
  apply Z.mod_pos_bound. div_lia.
Qed.

(** [(1 << (k + 1)) - 1] keeps the bits up to [k]. *)
Lemma testbit_mask_below (w k j : Z) :
  0 <= k -> 0 <= j ->
  Z.testbit (Z.land w (Z.shiftl 1 (k + 1) - 1)) j = Z.testbit w j && (j <=? k).
Proof.
  intros Hk Hj.
  replace (Z.shiftl 1 (k + 1) - 1) with (Z.ones (k + 1))
    by (rewrite Z.ones_equiv, Z.shiftl_1_l; div_lia).
  rewrite Z.land_spec. f_equal.
  destruct (Z.leb_spec j k).
  - apply Z.ones_spec_low. div_lia.
  - apply Z.ones_spec_high. div_lia.
Qed.

(** The for loop that looks for the highest bit set finds it. *)
Lemma msb_scan_spec (Flags : Z) (fuel : nat) :
  forall MSB : Z,
  0 <= MSB < 16 -> MSB < Z.of_nat fuel ->
  (exists j, 0 <= j <= MSB /\ Z.testbit Flags j = true) ->
  0 <= msb_scan fuel MSB Flags <= MSB /\
  Z.testbit Flags (msb_scan fuel MSB Flags) = true /\
  forall j, msb_scan fuel MSB Flags < j <= MSB -> Z.testbit Flags j = false.
Proof.
  induction fuel as [| fuel IH]; intros MSB HM Hfuel (j & Hj & Hbit).
  - div_lia.
  - cbn [msb_scan].
    pose proof (land_bit_testbit Flags MSB ltac:(div_lia)) as Hland.
    destruct (Z.eqb_spec (Z.land Flags (Z.shiftl 1 MSB)) 0) as [Hz | Hnz];
      cbn [negb] in Hland.
    + assert (Hlt : j < MSB).
      { destruct (Z.eq_dec j MSB) as [-> | Hne]; [congruence | div_lia]. }
      rewrite u16_small by div_lia.
      destruct (IH (MSB - 1)) as (Hr & Hset & Habove);
        [div_lia | div_lia | exists j; split; [div_lia | exact Hbit] |].
      split; [div_lia | split; [exact Hset |]].
      intros i Hi. destruct (Z.eq_dec i MSB) as [-> | Hne]; [congruence |].
      apply Habove. div_lia.
    + split; [div_lia | split; [congruence | intros i Hi; div_lia]].
Qed.

Lemma msb_of_flags (Flags : Z) :
  0 <= Flags < 2 ^ 16 -> Flags <> 0 ->
  0 <= msb_scan 16 15 Flags < 16 /\
  Z.testbit Flags (msb_scan 16 15 Flags) = true /\
  forall j, msb_scan 16 15 Flags < j < 16 -> Z.testbit Flags j = false.
Proof.
  intros HF Hnz.
  destruct (msb_scan_spec Flags 16 15) as (Hr & Hset & Habove); [div_lia | div_lia | |].
  - exists (Z.log2 Flags).
    assert (Z.log2 Flags < 16) by (apply Z.log2_lt_pow2; div_lia).
    pose proof (Z.log2_nonneg Flags).
    split; [div_lia | apply Z.bit_log2; div_lia].
  - split; [div_lia | split; [exact Hset |]]. intros j Hj. apply Habove. div_lia.
Qed.

Lemma scan_words_spec (v : list Z) (n : nat) :
  match scan_words n v with
  | Some (w, Flags) =>
    0 <= w < Z.of_nat n /\ Flags = Z.land (flags_word v w) 65535 /\
    Flags <> 0 /\
    forall w', w < w' < Z.of_nat n -> Z.land (flags_word v w') 65535 = 0
  | None =>
    forall w', 0 <= w' < Z.of_nat n -> Z.land (flags_word v w') 65535 = 0
  end.
Proof.
  induction n as [| n IH]; cbn [scan_words].
  - intros w' Hw'. div_lia.
  - destruct (Z.eqb_spec (Z.land (flags_word v (Z.of_nat n)) 65535) 0) as [Hz | Hnz].
    + destruct (scan_words n v) as [[w Flags] |].
      * destruct IH as (Hw & HF & Hnz & Hbetween).
        split; [div_lia | split; [exact HF | split; [exact Hnz |]]].
        intros w' Hw'. destruct (Z.eq_dec w' (Z.of_nat n)) as [-> | Hne];
          [exact Hz | apply Hbetween; div_lia].
      * intros w' Hw'. destruct (Z.eq_dec w' (Z.of_nat n)) as [-> | Hne];
          [exact Hz | apply IH; div_lia].
    + split; [div_lia | split; [reflexivity | split; [exact Hnz |]]].
      intros w' Hw'. div_lia.
Qed.

(** A word whose low half is zero has no allocated node. *)
Lemma word_free (v : list Z) (m : Z) :
  0 <= m -> Z.land (flags_word v (m / 16)) 65535 = 0 ->
  isNodeAllocated v m = false.
Proof.
  intros Hm Hz. rewrite node_bit by exact Hm.
  rewrite <- testbit_low_half by (apply Z.mod_pos_bound; div_lia).
  rewrite Hz. apply Z.bits_0.
Qed.

(** The highest allocated node of a word whose low half is not zero. *)
Lemma word_last (v : list Z) (w : Z) :
  0 <= w -> Z.land (flags_word v w) 65535 <> 0 ->
  let r := w * 16 + msb_scan 16 15 (Z.land (flags_word v w) 65535) in
  w * 16 <= r < w * 16 + 16 /\ isNodeAllocated v r = true /\
  forall m, r < m < w * 16 + 16 -> isNodeAllocated v m = false.
Proof.
  intros Hw Hnz.
  destruct (msb_of_flags (Z.land (flags_word v w) 65535)) as (Hr & Hset & Habove);
    [apply low_half_range | exact Hnz |].
  set (k := msb_scan 16 15 (Z.land (flags_word v w) 65535)) in *. cbv zeta.
  fold k. clearbody k.
  split; [div_lia | split].
  - rewrite node_bit by div_lia.
    replace ((w * 16 + k) / 16) with w by div_lia.
    replace ((w * 16 + k) mod 16) with k by div_lia.
    rewrite <- testbit_low_half by div_lia. exact Hset.
  - intros m Hm. rewrite node_bit by div_lia.
    replace (m / 16) with w by div_lia.
    rewrite <- testbit_low_half by (apply Z.mod_pos_bound; div_lia).
    apply Habove. div_lia.
Qed.

(** lastNodeAllocated either returns an allocated node at or below
    [ScanIdx] with no allocated node between it and [ScanIdx], or it returns
    0 and no node at or below [ScanIdx] is allocated. *)
Lemma lastNodeAllocated_cases (v : list Z) (ScanIdx : Z) :
  0 <= ScanIdx ->
  (0 <= lastNodeAllocated v ScanIdx <= ScanIdx /\
   isNodeAllocated v (lastNodeAllocated v ScanIdx) = true /\
   forall m, lastNodeAllocated v ScanIdx < m <= ScanIdx ->
     isNodeAllocated v m = false)
  \/ (lastNodeAllocated v ScanIdx = 0 /\
      forall m, 0 <= m <= ScanIdx -> isNodeAllocated v m = false).
Proof.
  intros HS.
  unfold lastNodeAllocated. cbv zeta.
  set (W := ScanIdx / 16).
  assert (HW : 0 <= W) by (unfold W; div_lia).
  rewrite land_15.
  set (k := ScanIdx mod 16).
  assert (Hk : 0 <= k < 16) by (unfold k; div_lia).
  assert (HSk : ScanIdx = W * 16 + k) by (unfold W, k; div_lia).
  set (Flags := Z.land (Z.land (flags_word v W) 65535) (Z.shiftl 1 (k + 1) - 1)).
  assert (Hbits : forall j, 0 <= j < 16 ->
            Z.testbit Flags j = Z.testbit (flags_word v W) j && (j <=? k)).
  { intros j Hj. unfold Flags.
    rewrite testbit_mask_below, testbit_low_half by div_lia. reflexivity. }
  assert (HFr : 0 <= Flags < 2 ^ 16).
  { pose proof (low_half_range (flags_word v W)) as Hl. unfold Flags.
    split.
    - apply Z.land_nonneg. left. div_lia.
    - assert (Z.land (Z.land (flags_word v W) 65535) (Z.shiftl 1 (k + 1) - 1)
              <= Z.land (flags_word v W) 65535); [| div_lia].
      set (a := Z.land (flags_word v W) 65535) in *.
      set (b := Z.shiftl 1 (k + 1) - 1).
      pose proof (Z.sub_nocarry_ldiff a (Z.land a b)) as Hsub.
      assert (Hd : Z.ldiff (Z.land a b) a = 0).
      { apply Z.bits_inj'. intros i Hi.
        rewrite Z.ldiff_spec, Z.land_spec, Z.bits_0.
        destruct (Z.testbit a i); cbn; [apply andb_false_r | reflexivity]. }
      specialize (Hsub Hd).
      assert (0 <= Z.ldiff a (Z.land a b)) by (apply Z.ldiff_nonneg; div_lia).
      div_lia. }
  destruct (Z.eqb_spec Flags 0) as [Hz | Hnz]; cbn [negb].
  - (* nothing at or below ScanIdx in its word *)
    assert (Htop : forall m, W * 16 <= m <= ScanIdx ->
              isNodeAllocated v m = false).
    { intros m Hm. rewrite node_bit by div_lia.
      replace (m / 16) with W by div_lia.
      assert (Hb : Z.testbit Flags (m mod 16) = false)
        by (rewrite Hz; apply Z.bits_0).
      rewrite Hbits in Hb by div_lia.
      assert ((m mod 16 <=? k) = true) as Hle by (apply Z.leb_le; div_lia).
      rewrite Hle, andb_true_r in Hb. exact Hb. }
    pose proof (scan_words_spec v (Z.to_nat W)) as Hscan.
    rewrite Z2Nat.id in Hscan by div_lia.
    destruct (scan_words (Z.to_nat W) v) as [[w F] |].
    + destruct Hscan as (Hw & -> & HFnz & Hbetween).
      destruct (word_last v w ltac:(div_lia) HFnz) as (Hr & Hset & Habove).
      left. split; [div_lia | split; [exact Hset |]].
      intros m Hm.
      destruct (Z_lt_le_dec m (w * 16 + 16)) as [Hm1 | Hm1];
        [apply Habove; div_lia |].
      destruct (Z_lt_le_dec m (W * 16)) as [Hm2 | Hm2];
        [| apply Htop; div_lia].
      apply word_free; [div_lia |]. apply Hbetween. div_lia.
    + right. split; [reflexivity |]. intros m Hm.
      destruct (Z_lt_le_dec m (W * 16)) as [Hm2 | Hm2];
        [| apply Htop; div_lia].
      apply word_free; [div_lia |]. apply Hscan. div_lia.
  - (* an allocated node at or below ScanIdx in its word *)
    destruct (msb_of_flags Flags HFr Hnz) as (Hr & Hset & Habove).
    set (j0 := msb_scan 16 15 Flags) in *. clearbody j0.
    rewrite Hbits in Hset by div_lia.
    apply andb_true_iff in Hset. destruct Hset as [Hset Hle].
    apply Z.leb_le in Hle.
    left. split; [div_lia | split].
    + rewrite node_bit by div_lia.
      replace ((W * 16 + j0) / 16) with W by div_lia.
      replace ((W * 16 + j0) mod 16) with j0 by div_lia. exact Hset.
    + intros m Hm. rewrite node_bit by div_lia.
      replace (m / 16) with W by div_lia.
      assert (Hb : Z.testbit Flags (m mod 16) = false) by (apply Habove; div_lia).
      rewrite Hbits in Hb by div_lia.
      assert ((m mod 16 <=? k) = true) as Hle' by (apply Z.leb_le; div_lia).
      rewrite Hle', andb_true_r in Hb. exact Hb.
Qed.

(** X13. lastNodeAllocated returns the highest allocated node at or below
    [ScanIdx] itself, not the node after it; it returns 0 when no node at or
    below [ScanIdx] is allocated. *)
Theorem lastNodeAllocated_highest (v : list Z) (ScanIdx : Z) :
  0 <= ScanIdx ->
  ((exists m, 0 <= m <= ScanIdx /\ isNodeAllocated v m = true) ->
   0 <= lastNodeAllocated v ScanIdx <= ScanIdx /\
   isNodeAllocated v (lastNodeAllocated v ScanIdx) = true /\
   forall m, lastNodeAllocated v ScanIdx < m <= ScanIdx ->
     isNodeAllocated v m = false) /\
  ((forall m, 0 <= m <= ScanIdx -> isNodeAllocated v m = false) ->
   lastNodeAllocated v ScanIdx = 0).
Proof.
  intros HS. pose proof (lastNodeAllocated_cases v ScanIdx HS) as Hcases.
  split.
  - intros (m & Hm & Ha). destruct Hcases as [H | [_ Hnone]]; [exact H |].
    rewrite Hnone in Ha by exact Hm. discriminate.
  - intros Hnone. destruct Hcases as [(Hr & Ha & _) | [H _]]; [| exact H].
    rewrite Hnone in Ha by exact Hr. discriminate.
Qed.

End SlabLastNode.

(** *** Slabs: getSize and freeElement *)

Section SlabRuns.

Import Machine Slab.

(** The loop of getSize steps over allocated nodes that start nothing. *)
Lemma run_end_run (v : list Z) (UE : Z) (fuel : nat) :
  forall E : Z,
  0 <= E <= UE -> UE < 2 ^ 16 ->
  E <= run_end fuel E UE v <= UE /\
  forall m, E <= m < run_end fuel E UE v ->
    isNodeAllocated v m = true /\ isStartOfAllocation v m = false.
Proof.
  induction fuel as [| fuel IH]; intros E HE HUE; cbn [run_end].
  - split; [lia | intros m Hm; lia].
  - destruct (Z.eqb_spec E UE) as [He | Hne]; cbn [negb andb].
    + split; [lia | intros m Hm; lia].
    + destruct (isStartOfAllocation v E) eqn:Es; cbn [negb andb].
      * split; [lia | intros m Hm; lia].
      * destruct (isNodeAllocated v E) eqn:Ea.
        -- rewrite u16_small by lia.
           destruct (IH (E + 1)) as (Hr & Hrun); [lia | lia |].
           split; [lia |].
           intros m Hm. destruct (Z.eq_dec m E) as [-> | Hn]; [auto |].
           apply Hrun. lia.
        -- split; [lia | intros m Hm; lia].
Qed.

(** It stops on [UE], on a start bit or on a free node. *)
Lemma run_end_stop (v : list Z) (UE : Z) (fuel : nat) :
  forall E : Z,
  0 <= E <= UE -> UE < 2 ^ 16 -> UE - E <= Z.of_nat fuel ->
  run_end fuel E UE v = UE
  \/ isStartOfAllocation v (run_end fuel E UE v) = true
  \/ isNodeAllocated v (run_end fuel E UE v) = false.
Proof.
  induction fuel as [| fuel IH]; intros E HE HUE Hfuel; cbn [run_end].
  - left. lia.
  - destruct (Z.eqb_spec E UE) as [He | Hne]; cbn [negb andb].
    + left. exact He.
    + destruct (isStartOfAllocation v E) eqn:Es; cbn [negb andb].
      * right. left. exact Es.
      * destruct (isNodeAllocated v E) eqn:Ea.
        -- rewrite u16_small by lia. apply IH; lia.
        -- right. right. exact Ea.
Qed.

(** A run that consists of the [n] nodes from [E] on ends at [E + n]. *)
Lemma run_end_exact (v : list Z) (UE : Z) (fuel : nat) :
  forall E e : Z,
  0 <= E <= e -> e <= UE -> UE < 2 ^ 16 -> e - E < Z.of_nat fuel ->
  (forall m, E <= m < e ->
     isNodeAllocated v m = true /\ isStartOfAllocation v m = false) ->
  (e = UE \/ isStartOfAllocation v e = true \/ isNodeAllocated v e = false) ->
  run_end fuel E UE v = e.
Proof.
  induction fuel as [| fuel IH]; intros E e HE He HUE Hfuel Hrun Hstop.
  - lia.
  - cbn [run_end].
    destruct (Z.eq_dec E e) as [-> | Hne].
    + destruct Hstop as [-> | [Hs | Ha]].
      * rewrite Z.eqb_refl. reflexivity.
      * rewrite Hs, andb_false_r. reflexivity.
      * rewrite Ha, andb_false_r. reflexivity.
    + destruct (Hrun E ltac:(lia)) as [Ha Hs]. rewrite Ha, Hs.
      assert ((E =? UE) = false) as -> by (apply Z.eqb_neq; lia).
      cbn [negb andb]. rewrite u16_small by lia.
      apply IH; trivial; try lia.
      intros m Hm. apply Hrun. lia.
Qed.

(** Freeing a node below [E] does not move the end of the run from [E]. *)
Lemma run_end_markNodeFree (v : list Z) (UE n : Z) (fuel : nat) :
  in_vec v n ->
  forall E : Z,
  n < E <= UE -> UE < 2 ^ 16 ->
  run_end fuel E UE (markNodeFree v n) = run_end fuel E UE v.
Proof.
  intros Hv.
  induction fuel as [| fuel IH]; intros E HE HUE; cbn [run_end];
    [reflexivity |].
  assert (H0 : 0 <= n) by (destruct Hv; lia).
  rewrite isStartOfAllocation_markNodeFree by (trivial; lia).
  rewrite isNodeAllocated_markNodeFree by (trivial; lia).
  assert ((E =? n) = false) as -> by (apply Z.eqb_neq; lia).
  cbn [negb]. rewrite andb_true_r.
  destruct (Z.eqb_spec E UE) as [He | Hne]; cbn [negb andb]; [reflexivity |].
  destruct (negb (isStartOfAllocation v E) && isNodeAllocated v E);
    [| reflexivity].
  rewrite u16_small by lia. apply IH; lia.
Qed.

(** The loop of freeElement stops where the loop of getSize does, and
    frees the nodes it steps over. *)
Lemma free_run_spec (UE : Z) (fuel : nat) :
  forall (E : Z) (v : list Z),
  0 <= E <= UE -> UE < 2 ^ 16 -> UE <= 16 * Z.of_nat (length v) ->
  fst (free_run fuel E UE v) = run_end fuel E UE v /\
  length (snd (free_run fuel E UE v)) = length v /\
  forall m, 0 <= m ->
    isNodeAllocated (snd (free_run fuel E UE v)) m
      = isNodeAllocated v m
        && negb ((E <=? m) && (m <? run_end fuel E UE v)) /\
    isStartOfAllocation (snd (free_run fuel E UE v)) m
      = isStartOfAllocation v m.
Proof.
  assert (Hempty : forall E m b, (b && negb ((E <=? m) && (m <? E))) = b).
  { intros E m b. destruct (Z.leb_spec E m), (Z.ltb_spec m E); try lia;
      cbn [andb negb]; apply andb_true_r. }
  induction fuel as [| fuel IH]; intros E v HE HUE Hlen;
    cbn [free_run run_end].
  - cbn [fst snd]. split; [reflexivity | split; [reflexivity |]].
    intros m Hm. rewrite Hempty. split; reflexivity.
  - destruct (Z.eqb_spec E UE) as [He | Hne]; cbn [negb andb].
    { cbn [fst snd]. split; [reflexivity | split; [reflexivity |]].
      intros m Hm. rewrite Hempty. split; reflexivity. }
    destruct (isStartOfAllocation v E) eqn:Es; cbn [negb andb].
    { cbn [fst snd]. split; [reflexivity | split; [reflexivity |]].
      intros m Hm. rewrite Hempty. split; reflexivity. }
    destruct (isNodeAllocated v E) eqn:Ea.
    2:{ cbn [fst snd]. split; [reflexivity | split; [reflexivity |]].
        intros m Hm. rewrite Hempty. split; reflexivity. }
    assert (Hv : in_vec v E) by (unfold in_vec; lia).
    rewrite u16_small by lia.
    assert (Hlen' : length (markNodeFree v E) = length v)
      by (unfold markNodeFree; apply length_clear_bit).
    destruct (IH (E + 1) (markNodeFree v E)) as (Hfst & Hl & Hbits);
      [lia | lia | rewrite Hlen'; lia |].
    rewrite run_end_markNodeFree in Hfst, Hbits by (trivial; lia).
    rewrite Hfst, Hl, Hlen'.
    split; [reflexivity | split; [reflexivity |]].
    intros m Hm. destruct (Hbits m Hm) as [-> ->].
    rewrite isNodeAllocated_markNodeFree, isStartOfAllocation_markNodeFree
      by assumption.
    split; [| reflexivity].
    destruct (run_end_run v UE fuel (E + 1)) as (Hr & _); [lia | lia |].
    destruct (Z.eqb_spec m E), (Z.leb_spec (E + 1) m), (Z.leb_spec E m),
      (Z.ltb_spec m (run_end fuel (E + 1) UE v)); try lia;
      cbn [andb negb]; rewrite ?andb_true_r, ?andb_false_r; reflexivity.
Qed.

(** The flag words that update_cursors leaves are those it is given. *)
Lemma update_cursors_flags (Idx e : Z) (v : list Z) (s : PoolSlab) :
  NodeFlagsVector (slab_of (update_cursors Idx e v s)) = v.
Proof.
  unfold update_cursors, closing. cbv zeta.
  repeat match goal with
         | |- context [if ?c then _ else _] => destruct c
         end; reflexivity.
Qed.

(** freeElement of an allocated node that starts an allocation: the loop
    stops at [e], the end that the loop of getSize finds; the run from the
    node to [e] is free and its start bit is clear in the flag words [v]
    that go into the update of the cursors. *)
Lemma freeElement_eq (s : PoolSlab) (Idx : Z) :
  slab_ok s -> 0 <= Idx < NumNodesInSlab s ->
  isNodeAllocated (NodeFlagsVector s) Idx = true ->
  isStartOfAllocation (NodeFlagsVector s) Idx = true ->
  let e := run_end (Z.to_nat (2 ^ 16)) (u16 (Idx + 1)) (UsedEnd s)
                   (NodeFlagsVector s) in
  Idx < e <= UsedEnd s /\
  exists v : list Z,
    freeElement Idx s = update_cursors Idx e v s /\
    length v = length (NodeFlagsVector s) /\
    forall m, 0 <= m ->
      isNodeAllocated v m
        = isNodeAllocated (NodeFlagsVector s) m
          && negb ((Idx <=? m) && (m <? e)) /\
      isStartOfAllocation v m
        = isStartOfAllocation (NodeFlagsVector s) m && negb (m =? Idx).
Proof.
  intros Hok HIdx Ha Hst.
  pose proof Hok as [Hsingle Hsz Hw [[H0 Hfu] Hue] Habove Hlast Hfirst].
  assert (HUE : Idx < UsedEnd s).
  { destruct (Z_lt_le_dec Idx (UsedEnd s)) as [Hlt | Hge]; [exact Hlt |].
    rewrite Habove in Ha by lia. discriminate. }
  unfold freeElement. rewrite Ha. cbn [negb]. cbv zeta.
  rewrite u16_small by lia.
  set (v := NodeFlagsVector s) in *.
  assert (Hv : in_vec v Idx) by (unfold in_vec; lia).
  set (v1 := markNodeFree v Idx).
  assert (Hv1 : in_vec v1 Idx).
  { unfold in_vec, v1, markNodeFree. rewrite length_clear_bit. exact Hv. }
  assert (Hst1 : isStartOfAllocation v1 Idx = true).
  { unfold v1. rewrite isStartOfAllocation_markNodeFree by (trivial; lia).
    exact Hst. }
  rewrite Hst1. cbn [negb].
  set (v2 := clearStartBit v1 Idx).
  assert (Hv2 : in_vec v2 Idx).
  { unfold in_vec, v2, clearStartBit. rewrite length_clear_bit. exact Hv1. }
  set (v3 := markNodeFree v2 Idx).
  assert (Hlen3 : length v3 = length v).
  { unfold v3, v2, v1, markNodeFree, clearStartBit.
    rewrite !length_clear_bit. reflexivity. }
  assert (Ha3 : forall m, 0 <= m ->
            isNodeAllocated v3 m = isNodeAllocated v m && negb (m =? Idx)).
  { intros m Hm. unfold v3, v2, v1.
    rewrite isNodeAllocated_markNodeFree by assumption.
    rewrite isNodeAllocated_clearStartBit by assumption.
    rewrite isNodeAllocated_markNodeFree by assumption.
    destruct (isNodeAllocated v m), (m =? Idx); reflexivity. }
  assert (Hs3 : forall m, 0 <= m ->
            isStartOfAllocation v3 m
              = isStartOfAllocation v m && negb (m =? Idx)).
  { intros m Hm. unfold v3, v2, v1.
    rewrite isStartOfAllocation_markNodeFree by assumption.
    rewrite isStartOfAllocation_clearStartBit by assumption.
    rewrite isStartOfAllocation_markNodeFree by assumption. reflexivity. }
  assert (Hend : forall fuel E, Idx < E <= UsedEnd s ->
            run_end fuel E (UsedEnd s) v3 = run_end fuel E (UsedEnd s) v).
  { induction fuel as [| fuel IH]; intros E HE; cbn [run_end];
      [reflexivity |].
    rewrite Ha3, Hs3 by lia.
    assert ((E =? Idx) = false) as -> by (apply Z.eqb_neq; lia).
    cbn [negb]. rewrite !andb_true_r.
    destruct (Z.eqb_spec E (UsedEnd s)) as [He | Hne]; cbn [negb andb];
      [reflexivity |].
    destruct (negb (isStartOfAllocation v E) && isNodeAllocated v E);
      [| reflexivity].
    rewrite u16_small by lia. apply IH; lia. }
  destruct (free_run_spec (UsedEnd s) (Z.to_nat (2 ^ 16)) (Idx + 1) v3)
    as (Hfst & Hlen & Hbits); [lia | lia | rewrite Hlen3; lia |].
  rewrite Hend in Hfst, Hbits by lia.
  destruct (run_end_run v (UsedEnd s) (Z.to_nat (2 ^ 16)) (Idx + 1))
    as (Hr & _); [lia | lia |].
  split; [lia |].
  destruct (free_run (Z.to_nat (2 ^ 16)) (Idx + 1) (UsedEnd s) v3) as [e' v'].
  cbn [fst snd] in Hfst, Hlen, Hbits. subst e'.
  exists v'. split; [reflexivity | split; [congruence |]].
  intros m Hm. destruct (Hbits m Hm) as [-> ->].
  rewrite Ha3, Hs3 by lia. split; [| reflexivity].
  set (e := run_end (Z.to_nat (2 ^ 16)) (Idx + 1) (UsedEnd s) v) in *.
  clearbody e.
  destruct (Z.eqb_spec m Idx), (Z.leb_spec (Idx + 1) m), (Z.leb_spec Idx m),
    (Z.ltb_spec m e); try lia;
    cbn [andb negb]; rewrite ?andb_true_r, ?andb_false_r; reflexivity.
Qed.

(** getSize at the address of a node of the slab. *)
Lemma getSize_at (flags : Z) (s : PoolSlab) (Idx ElementSize : Z) :
  0 <= Idx < NumNodesInSlab s -> 0 < ElementSize ->
  Idx * ElementSize < 2 ^ 32 ->
  getSize flags s (getElementAddress flags s Idx ElementSize) ElementSize
    = if isStartOfAllocation (NodeFlagsVector s) Idx
      then Some (u32 (run_end (Z.to_nat (2 ^ 16)) (u16 (Idx + 1)) (UsedEnd s)
                              (NodeFlagsVector s) - Idx))
      else None.
Proof.
  intros HIdx HES Hsmall. unfold getSize, getElementAddress, getSlabSize.
  cbv zeta.
  replace (u32 (0 * 0)) with 0 by reflexivity.
  rewrite (u32_small (Idx * ElementSize)) by nia.
  rewrite Z.add_0_r.
  set (base := flags + 4 * (u32 (NumNodesInSlab s + 15) / 16)).
  assert ((base <=? base + Idx * ElementSize) = true) as ->
    by (apply Z.leb_le; nia).
  replace (base + Idx * ElementSize - base) with (Idx * ElementSize) by lia.
  rewrite (u32_small (Idx * ElementSize)) by nia.
  rewrite Z.div_mul by lia.
  assert ((Idx <? NumNodesInSlab s) = true) as -> by (apply Z.ltb_lt; lia).
  reflexivity.
Qed.

(** The bits of a slab after freeElement of an allocated node that starts
    an allocation, at the return or at the assertion that fails: the run
    from that node to [e], the end that the loop of getSize finds, is free,
    and its start bit is clear. *)
Lemma freeElement_bits (s : PoolSlab) (Idx : Z) :
  slab_ok s -> 0 <= Idx < NumNodesInSlab s ->
  isNodeAllocated (NodeFlagsVector s) Idx = true ->
  isStartOfAllocation (NodeFlagsVector s) Idx = true ->
  let e := run_end (Z.to_nat (2 ^ 16)) (u16 (Idx + 1)) (UsedEnd s)
                   (NodeFlagsVector s) in
  Idx < e <= UsedEnd s /\
  forall m, 0 <= m ->
    isNodeAllocated (NodeFlagsVector (slab_of (freeElement Idx s))) m
      = isNodeAllocated (NodeFlagsVector s) m
        && negb ((Idx <=? m) && (m <? e)) /\
    isStartOfAllocation (NodeFlagsVector (slab_of (freeElement Idx s))) m
      = isStartOfAllocation (NodeFlagsVector s) m && negb (m =? Idx).
Proof.
  intros Hok HIdx Ha Hst.
  destruct (freeElement_eq s Idx Hok HIdx Ha Hst) as (He & v & Heq & _ & Hbits).
  cbv zeta. split; [exact He |].
  rewrite Heq, update_cursors_flags. exact Hbits.
Qed.

(** X14. freeElement of a node that starts an allocation frees the nodes that
    getSize counts from that node on, clears its start bit, and leaves every
    other bit as it is: these are the flag words at its return, or at the
    assertion that fails when it does not return. *)
Theorem freeElement_frees_getSize
  (flags : Z) (s : PoolSlab) (Idx ElementSize n : Z) :
  slab_ok s -> 0 <= Idx < NumNodesInSlab s ->
  0 < ElementSize -> Idx * ElementSize < 2 ^ 32 ->
  isNodeAllocated (NodeFlagsVector s) Idx = true ->
  getSize flags s (getElementAddress flags s Idx ElementSize) ElementSize
    = Some n ->
  1 <= n /\ Idx + n <= UsedEnd s /\
  forall m, 0 <= m ->
    isNodeAllocated (NodeFlagsVector (slab_of (freeElement Idx s))) m
      = isNodeAllocated (NodeFlagsVector s) m
        && negb ((Idx <=? m) && (m <? Idx + n)) /\
    isStartOfAllocation (NodeFlagsVector (slab_of (freeElement Idx s))) m
      = isStartOfAllocation (NodeFlagsVector s) m && negb (m =? Idx).
Proof.
  intros Hok HIdx HES Hsmall Ha Hsize.
  rewrite getSize_at in Hsize by assumption.
  destruct (isStartOfAllocation (NodeFlagsVector s) Idx) eqn:Hst; [| discriminate].
  destruct (freeElement_bits s Idx Hok HIdx Ha Hst) as [He Hbits].
  cbv zeta in He, Hbits.
  pose proof Hok as [_ Hsz _ [_ Hue] _ _ _].
  set (e := run_end (Z.to_nat (2 ^ 16)) (u16 (Idx + 1)) (UsedEnd s)
                    (NodeFlagsVector s)) in *.
  clearbody e.
  rewrite u32_small in Hsize by lia.
  apply Some_inj in Hsize. subst n.
  replace (Idx + (e - Idx)) with e by lia.
  split; [lia | split; [lia | exact Hbits]].
Qed.

(** A run that has just been allocated ends where it should. *)
Lemma allocates_run_end (s s' : PoolSlab) (r Size : Z) :
  slab_ok s -> runs_ok s -> slab_ok s' ->
  NumNodesInSlab s' = NumNodesInSlab s -> 0 < Size ->
  allocates s s' r Size ->
  isNodeAllocated (NodeFlagsVector s') r = true /\
  isStartOfAllocation (NodeFlagsVector s') r = true /\
  isStartOfAllocation (NodeFlagsVector s) r = false /\
  run_end (Z.to_nat (2 ^ 16)) (u16 (r + 1)) (UsedEnd s') (NodeFlagsVector s')
    = r + Size.
Proof.
  intros Hok Hruns Hok' HN HSize (Hr & Hfit & Hfree & Hbits).
  pose proof Hok as [_ Hsz _ _ _ _ _].
  pose proof Hok' as [_ _ _ [_ Hue'] Habove' _ _].
  assert (Hin : forall m, r <= m < r + Size ->
            isNodeAllocated (NodeFlagsVector s') m = true).
  { intros m Hm. destruct (Hbits m ltac:(lia)) as [-> _].
    assert ((r <=? m) = true) as -> by (apply Z.leb_le; lia).
    assert ((m <? r + Size) = true) as -> by (apply Z.ltb_lt; lia).
    apply orb_true_r. }
  assert (Hnostart : forall m, r <= m < r + Size ->
            isStartOfAllocation (NodeFlagsVector s) m = false).
  { intros m Hm. destruct (Hruns m ltac:(lia)) as [Hr1 _].
    destruct (isStartOfAllocation (NodeFlagsVector s) m); [| reflexivity].
    rewrite Hfree in Hr1 by lia. symmetry. apply Hr1. reflexivity. }
  assert (HUE : r + Size <= UsedEnd s').
  { destruct (Z_le_gt_dec (r + Size) (UsedEnd s')) as [Hle | Hgt]; [exact Hle |].
    specialize (Hin (r + Size - 1) ltac:(lia)).
    rewrite Habove' in Hin by lia. discriminate. }
  split; [apply Hin; lia | split; [| split; [apply Hnostart; lia |]]].
  - destruct (Hbits r Hr) as [_ ->]. rewrite Z.eqb_refl. apply orb_true_r.
  - rewrite u16_small by lia.
    apply run_end_exact; try lia.
    + intros m Hm. split; [apply Hin; lia |].
      destruct (Hbits m ltac:(lia)) as [_ ->].
      rewrite Hnostart by lia.
      apply orb_false_intro; [reflexivity | apply Z.eqb_neq; lia].
    + destruct (Z.eq_dec (r + Size) (UsedEnd s')) as [He | Hne];
        [left; exact He | right].
      destruct (Hbits (r + Size) ltac:(lia)) as [Ha Hs].
      assert ((r + Size <? r + Size) = false) as Hout by (apply Z.ltb_ge; lia).
      rewrite Hout, andb_false_r, orb_false_r in Ha.
      assert ((r + Size =? r) = false) as Hne' by (apply Z.eqb_neq; lia).
      rewrite Hne', orb_false_r in Hs. rewrite Ha, Hs.
      destruct (Hruns (r + Size) ltac:(lia)) as [_ Hr2].
      destruct (isStartOfAllocation (NodeFlagsVector s) (r + Size));
        [left; reflexivity | right].
      destruct (isNodeAllocated (NodeFlagsVector s) (r + Size)) eqn:Ea;
        [| reflexivity].
      destruct (Hr2 eq_refl eq_refl) as [_ Hprev].
      replace (r + Size - 1) with (r + (Size - 1)) in Hprev by lia.
      rewrite Hfree in Hprev by lia. discriminate.
Qed.

(** X15. getSize of the run that allocateMultiple has just returned is the
    number of nodes asked for. *)
Theorem getSize_allocateMultiple
  (flags : Z) (s s' : PoolSlab) (Size r ElementSize : Z) :
  slab_ok s -> packed s -> runs_ok s -> 1 <= Size <= NumNodesInSlab s ->
  allocateMultiple Size s = Some (s', r) -> 0 <= r ->
  0 < ElementSize -> r * ElementSize < 2 ^ 32 ->
  getSize flags s' (getElementAddress flags s' r ElementSize) ElementSize
    = Some Size.
Proof.
  intros Hok Hpk Hruns HSize Hcall Hr HES Hsmall.
  destruct (allocateMultiple_ok s Size Hok HSize) as (s1 & r1 & Hcall1 & Hok').
  rewrite Hcall in Hcall1. injection Hcall1 as <- <-.
  destruct (allocateMultiple_allocates s s' Size r Hok Hpk HSize Hcall)
    as (_ & HN & [(Hm1 & _) | Hal]); [lia |].
  destruct (allocates_run_end s s' r Size Hok Hruns Hok' HN ltac:(lia) Hal)
    as (_ & Hstart & _ & Hend).
  pose proof Hok as [_ Hsz _ _ _ _ _].
  destruct Hal as (_ & Hfit & _).
  rewrite getSize_at by (trivial; lia).
  rewrite Hstart, Hend. f_equal.
  replace (r + Size - r) with Size by lia. apply u32_small. lia.
Qed.

(** The node before a free node [r], when it is allocated, is what
    lastNodeAllocated answers at [r]. *)
Lemma lastNodeAllocated_before (v : list Z) (r : Z) :
  0 < r -> isNodeAllocated v r = false -> isNodeAllocated v (r - 1) = true ->
  lastNodeAllocated v r = r - 1.
Proof.
  intros Hr Hfree Hprev.
  destruct (lastNodeAllocated_cases v r ltac:(lia))
    as [(Hrange & Ha & Habove) | [_ Hnone]].
  - destruct (Z.eq_dec (lastNodeAllocated v r) r) as [He | Hne];
      [rewrite He in Ha; congruence |].
    destruct (Z_lt_le_dec (lastNodeAllocated v r) (r - 1)) as [Hlt | Hge]; [| lia].
    rewrite Habove in Hprev by lia. discriminate.
  - rewrite Hnone in Hprev by lia. discriminate.
Qed.

(** assertOkay reads the cursors, the size and the allocated bits only. *)
Lemma assertOkay_restored (t s : PoolSlab) :
  slab_ok s -> FirstUnused t = FirstUnused s -> UsedEnd t = UsedEnd s ->
  NumNodesInSlab t = NumNodesInSlab s ->
  (forall m, 0 <= m ->
     isNodeAllocated (NodeFlagsVector t) m = isNodeAllocated (NodeFlagsVector s) m) ->
  assertOkay t = true.
Proof.
  intros Hok E1 E2 E3 Hb. pose proof (slab_ok_assertOkay s Hok) as H.
  pose proof Hok as [_ _ _ [[H0 Hfu] Hue] _ _ _].
  unfold assertOkay, getSlabSize in *.
  rewrite E1, E2, E3, !Hb by lia. exact H.
Qed.

(** freeElement of a run that has just been allocated, at [UsedEnd] or in a
    hole below it, on a slab whose [UsedBegin] is 0.  The flag bits are
    those from before the allocation.  The call returns with [FirstUnused]
    and [UsedEnd] as they were before the allocation when no node below
    [UsedEnd] was free, or when the run came from a hole; when the run was
    allocated at [UsedEnd] above a hole, lastNodeAllocated answers
    [UsedEnd - 1], the last allocated node itself, and the closing assertOkay
    fails. *)
Lemma free_after_allocate (s s' : PoolSlab) (r Size : Z) :
  slab_ok s -> packed s -> runs_ok s -> slab_ok s' -> packed s' ->
  NumNodesInSlab s' = NumNodesInSlab s -> 0 < Size ->
  allocates s s' r Size -> r <= UsedEnd s ->
  (r = UsedEnd s -> UsedBegin s' = 0) ->
  (forall m, 0 <= m ->
     isNodeAllocated (NodeFlagsVector (slab_of (freeElement r s'))) m
       = isNodeAllocated (NodeFlagsVector s) m /\
     isStartOfAllocation (NodeFlagsVector (slab_of (freeElement r s'))) m
       = isStartOfAllocation (NodeFlagsVector s) m) /\
  (FirstUnused s = UsedEnd s \/ r < UsedEnd s ->
     exists s'' : PoolSlab,
       freeElement r s' = Returned s'' /\
       FirstUnused s'' = FirstUnused s /\ UsedEnd s'' = UsedEnd s /\
       assertOkay s'' = true) /\
  (FirstUnused s < UsedEnd s -> r = UsedEnd s ->
     exists s'' : PoolSlab,
       freeElement r s' = AssertionFailed s'' /\
       FirstUnused s'' = FirstUnused s /\ UsedEnd s'' = UsedEnd s - 1 /\
       isNodeAllocated (NodeFlagsVector s'') (UsedEnd s'') = true /\
       assertOkay s'' = false).
Proof.
  intros Hok Hpk Hruns Hok' Hpk' HN HSize Hal Hle HUB.
  destruct (allocates_run_end s s' r Size Hok Hruns Hok' HN HSize Hal)
    as (Ha & Hstart & Hnostart & Hend).
  pose proof Hal as (Hr0 & Hfit & Hfree & Hbits).
  pose proof Hok as [Hsingle Hsz Hw [[H0 Hfu] Hue] Habove Hlast Hfirst].
  pose proof Hok' as [Hsingle' Hsz' Hw' [[H0' Hfu'] Hue'] Habove' Hlast' Hfirst'].
  destruct (freeElement_eq s' r Hok' ltac:(lia) Ha Hstart)
    as (He & v & Heq & Hlen & Hv).
  cbv zeta in He, Heq, Hv. rewrite Hend in He, Heq, Hv.
  (* the flag bits are those of [s] *)
  assert (Hrest : forall m, 0 <= m ->
            isNodeAllocated v m = isNodeAllocated (NodeFlagsVector s) m /\
            isStartOfAllocation v m = isStartOfAllocation (NodeFlagsVector s) m).
  { intros m Hm. destruct (Hv m Hm) as [-> ->]. destruct (Hbits m Hm) as [-> ->].
    split.
    - destruct (Z.leb_spec r m) as [Hle' | Hgt];
        [destruct (Z.ltb_spec m (r + Size)) as [Hin | Hout] |]; cbn [andb negb].
      + rewrite Hfree by lia. reflexivity.
      + rewrite orb_false_r, andb_true_r. reflexivity.
      + rewrite orb_false_r, andb_true_r. reflexivity.
    - destruct (Z.eqb_spec m r) as [-> | Hne]; cbn [negb].
      + rewrite Hnostart. reflexivity.
      + rewrite orb_false_r, andb_true_r. reflexivity. }
  assert (Hin' : forall m, 0 <= m ->
            isNodeAllocated (NodeFlagsVector s) m = true ->
            isNodeAllocated (NodeFlagsVector s') m = true).
  { intros m Hm Hm'. destruct (Hbits m Hm) as [-> _]. rewrite Hm'. reflexivity. }
  (* [FirstUnused] after the allocation *)
  assert (HFUle : FirstUnused s <= r).
  { destruct (Z_le_gt_dec (FirstUnused s) r) as [Hl | Hg]; [exact Hl |].
    specialize (Hfree r ltac:(lia)). rewrite Hpk in Hfree by lia. discriminate. }
  assert (HFUeq : FirstUnused s = r -> r < FirstUnused s').
  { intros E. destruct (Z_lt_le_dec r (FirstUnused s')) as [Hl | Hge]; [exact Hl |].
    exfalso. specialize (Hfirst' ltac:(lia)).
    destruct (Z.eq_dec (FirstUnused s') r) as [E' | N'].
    - rewrite E' in Hfirst'. congruence.
    - rewrite Hin' in Hfirst'; [discriminate | lia | apply Hpk; lia]. }
  assert (HFUlt : FirstUnused s < r -> FirstUnused s' = FirstUnused s).
  { intros L.
    assert (Hf : isNodeAllocated (NodeFlagsVector s') (FirstUnused s) = false).
    { destruct (Hbits (FirstUnused s) ltac:(lia)) as [-> _].
      rewrite Hfirst by lia.
      assert ((r <=? FirstUnused s) = false) as -> by (apply Z.leb_gt; lia).
      reflexivity. }
    destruct (Z.lt_trichotomy (FirstUnused s') (FirstUnused s))
      as [Hlt | [Heq' | Hgt]].
    - exfalso. specialize (Hfirst' ltac:(lia)).
      rewrite Hin' in Hfirst'; [discriminate | lia | apply Hpk; lia].
    - exact Heq'.
    - exfalso. rewrite Hpk' in Hf by lia. discriminate. }
  assert (HFU'' : (if r <? FirstUnused s' then r else FirstUnused s')
                  = FirstUnused s).
  { destruct (Z.eq_dec (FirstUnused s) r) as [E | N'].
    - specialize (HFUeq E).
      assert ((r <? FirstUnused s') = true) as -> by (apply Z.ltb_lt; lia). lia.
    - rewrite (HFUlt ltac:(lia)).
      assert ((r <? FirstUnused s) = false) as -> by (apply Z.ltb_ge; lia).
      reflexivity. }
  (* [UsedEnd] after the allocation *)
  assert (HUEeq : r = UsedEnd s -> UsedEnd s' = r + Size).
  { intros E. destruct (Z.eq_dec (UsedEnd s') (r + Size)) as [E' | N']; [exact E' |].
    exfalso. specialize (Hlast' ltac:(lia)).
    destruct (Hbits (UsedEnd s' - 1) ltac:(lia)) as [X _].
    rewrite Hlast', Habove in X by lia.
    assert ((UsedEnd s' - 1 <? r + Size) = false) as Y by (apply Z.ltb_ge; lia).
    rewrite Y, andb_false_r in X. discriminate. }
  assert (HUElt : r < UsedEnd s -> UsedEnd s' = UsedEnd s /\ r + Size < UsedEnd s).
  { intros L.
    assert (Hb : r + Size <= UsedEnd s - 1).
    { specialize (Hlast ltac:(lia)).
      destruct (Z_le_gt_dec (r + Size) (UsedEnd s - 1)) as [Hl | Hg]; [exact Hl |].
      rewrite Hfree in Hlast by lia. discriminate. }
    split; [| lia].
    destruct (Z.lt_trichotomy (UsedEnd s') (UsedEnd s)) as [Hlt | [Heq' | Hgt]].
    - exfalso. specialize (Hlast ltac:(lia)).
      pose proof (Hin' (UsedEnd s - 1) ltac:(lia) Hlast) as X.
      rewrite Habove' in X by lia. discriminate.
    - exact Heq'.
    - exfalso. specialize (Hlast' ltac:(lia)).
      destruct (Hbits (UsedEnd s' - 1) ltac:(lia)) as [X _].
      rewrite Hlast', Habove in X by lia.
      assert ((UsedEnd s' - 1 <? r + Size) = false) as Y by (apply Z.ltb_ge; lia).
      rewrite Y, andb_false_r in X. discriminate. }
  assert (Hreturns : forall FU UB UE : Z,
            FU = FirstUnused s -> UE = UsedEnd s ->
            exists s'' : PoolSlab,
              closing (with_flags v (with_cursors FU UB UE s')) = Returned s'' /\
              FirstUnused s'' = FirstUnused s /\ UsedEnd s'' = UsedEnd s /\
              assertOkay s'' = true).
  { intros FU UB UE -> ->.
    assert (Hokay : assertOkay
                      (with_flags v
                         (with_cursors (FirstUnused s) UB (UsedEnd s) s')) = true).
    { apply (assertOkay_restored _ s Hok); trivial.
      intros m Hm. apply Hrest. exact Hm. }
    unfold closing. rewrite Hokay. eexists. split; [reflexivity |].
    split; [reflexivity | split; [reflexivity | exact Hokay]]. }
  split; [| split].
  - intros m Hm. rewrite Heq, update_cursors_flags. apply Hrest. exact Hm.
  - intros Hcase. rewrite Heq. unfold update_cursors. cbv zeta. rewrite HFU''.
    destruct (Z_lt_le_dec r (UsedEnd s)) as [L | G].
    + (* the run came from a hole *)
      destruct (HUElt L) as [EUE Lt]. rewrite EUE.
      assert ((r + Size =? UsedEnd s) = false) as -> by (apply Z.eqb_neq; lia).
      apply Hreturns; reflexivity.
    + (* no node below [UsedEnd] was free *)
      assert (E : r = UsedEnd s) by lia.
      assert (EFU : FirstUnused s = r) by (destruct Hcase; lia).
      rewrite (HUEeq E), (HUB E), Z.eqb_refl.
      destruct (Z.eqb_spec r 0) as [Hr | Hr].
      * rewrite Z.eqb_refl. apply Hreturns; lia.
      * assert ((0 =? r + Size) = false) as -> by (apply Z.eqb_neq; lia).
        assert ((FirstUnused s =? r) = true) as -> by (apply Z.eqb_eq; lia).
        apply Hreturns; lia.
  - intros L E. rewrite Heq. unfold update_cursors. cbv zeta. rewrite HFU''.
    rewrite (HUEeq E), (HUB E), Z.eqb_refl.
    assert ((r =? 0) = false) as -> by (apply Z.eqb_neq; lia).
    assert ((0 =? r + Size) = false) as -> by (apply Z.eqb_neq; lia).
    assert ((FirstUnused s =? r) = false) as -> by (apply Z.eqb_neq; lia).
    assert (Hprev : isNodeAllocated v (r - 1) = true).
    { destruct (Hrest (r - 1) ltac:(lia)) as [-> _].
      replace (r - 1) with (UsedEnd s - 1) by lia. apply Hlast. lia. }
    assert (Hlast_r : lastNodeAllocated v r = r - 1).
    { apply lastNodeAllocated_before; [lia | | exact Hprev].
      destruct (Hrest r ltac:(lia)) as [-> _]. apply Hfree. lia. }
    rewrite Hlast_r, (u16_small (r - 1)) by lia.
    cbn [with_flags with_cursors FirstUnused UsedEnd].
    assert ((FirstUnused s <=? r - 1 + 1) = true) as -> by (apply Z.leb_le; lia).
    assert (Hnot : assertOkay
                     (with_flags v (with_cursors (FirstUnused s) 0 (r - 1) s'))
                   = false).
    { unfold assertOkay, getSlabSize.
      cbn [with_flags with_cursors FirstUnused UsedEnd NumNodesInSlab
           NodeFlagsVector].
      rewrite Hprev.
      assert ((r - 1 =? NumNodesInSlab s') = false) as -> by (apply Z.eqb_neq; lia).
      cbn [orb negb]. rewrite andb_false_r. reflexivity. }
    unfold closing. rewrite Hnot. eexists. split; [reflexivity |].
    cbn [with_flags with_cursors FirstUnused UsedEnd NodeFlagsVector].
    split; [reflexivity | split; [lia | split; [exact Hprev | exact Hnot]]].
Qed.


End SlabRuns.

(** *** Slabs: their size and the addresses of their nodes *)

Section SlabLayout.

Import Machine Slab.

(** [x & ~3] rounds [x] down to a multiple of 4. *)
Lemma land_not32_3 (x : Z) : 0 <= x < 2 ^ 32 -> Z.land x (not32 3) = 4 * (x / 4).
Proof.
  intros Hx. unfold not32, u32.
  rewrite <- (Z.land_ones (Z.lnot 3) 32) by lia.
  rewrite Z.land_assoc, <- Z.ldiff_land.
  change 3 with (Z.ones 2).
  rewrite Z.ldiff_ones_r, Z.shiftr_div_pow2, Z.shiftl_mul_pow2 by lia.
  rewrite Z.land_ones by lia.
  change (2 ^ 2) with 4.
  rewrite Z.mod_small by div_lia. lia.
Qed.

(** getSlabSize (Pool) without the 32-bit wrap-around. *)
Lemma getSlabSize_Pool_eq (PageSize sizeof_PoolSlab NodeSize : Z) :
  0 < NodeSize -> 0 <= sizeof_PoolSlab <= PageSize -> PageSize < 2 ^ 31 ->
  let A := PageSize - sizeof_PoolSlab in
  let F := 4 * ((A / NodeSize * 2 / 8 + 3) / 4) in
  F <= A /\
  getSlabSize_Pool PageSize sizeof_PoolSlab NodeSize = (A - F) / NodeSize.
Proof.
  intros HN HH HP A F.
  assert (Hq : 0 <= A / NodeSize <= A).
  { split; [apply Z.div_pos; lia |].
    apply Z.div_le_upper_bound; [lia | nia]. }
  assert (HF : F <= A) by (unfold F; div_lia).
  split; [exact HF |].
  unfold getSlabSize_Pool. cbv zeta. fold A.
  rewrite (u32_small A) by lia.
  rewrite (u32_small (A / NodeSize * 2)) by lia.
  rewrite (u32_small (A / NodeSize * 2 / 8 + 3)) by div_lia.
  rewrite land_not32_3 by div_lia.
  fold F. rewrite u32_small by (unfold F in *; div_lia).
  reflexivity.
Qed.

(** X17. The number of nodes that getSlabSize (Pool) gives fits the page with
    at most four bytes to spare: the size that create asserts to be at most
    [PageSize] is at most [PageSize + 4]. *)
Theorem create_Size_bound (PageSize sizeof_PoolSlab NodeSize : Z) :
  0 < NodeSize -> 0 <= sizeof_PoolSlab <= PageSize -> PageSize < 2 ^ 31 ->
  0 <= getSlabSize_Pool PageSize sizeof_PoolSlab NodeSize /\
  create_Size PageSize sizeof_PoolSlab NodeSize
    = sizeof_PoolSlab
      + 4 * ((getSlabSize_Pool PageSize sizeof_PoolSlab NodeSize + 15) / 16)
      + NodeSize * getSlabSize_Pool PageSize sizeof_PoolSlab NodeSize /\
  create_Size PageSize sizeof_PoolSlab NodeSize <= PageSize + 4.
Proof.
  intros HN HH HP.
  destruct (getSlabSize_Pool_eq PageSize sizeof_PoolSlab NodeSize HN HH HP)
    as [HF Heq].
  cbv zeta in HF, Heq. unfold create_Size. cbv zeta. rewrite Heq.
  set (A := PageSize - sizeof_PoolSlab) in *.
  set (q := A / NodeSize) in *.
  set (F := 4 * ((q * 2 / 8 + 3) / 4)) in *.
  set (N := (A - F) / NodeSize).
  assert (Hq : 0 <= q <= A).
  { unfold q. split; [apply Z.div_pos; lia |].
    apply Z.div_le_upper_bound; [lia | nia]. }
  assert (HF0 : 0 <= F) by (unfold F; div_lia).
  assert (HN0 : 0 <= N) by (unfold N; apply Z.div_pos; lia).
  assert (HNq : N <= q) by (unfold N, q; apply Z.div_le_mono; lia).
  assert (Hmul : NodeSize * N <= A - F)
    by (unfold N; apply Z.mul_div_le; lia).
  assert (Hwords : 4 * ((N + 15) / 16) <= F + 4) by (unfold F; div_lia).
  rewrite (u32_small (N + 15)) by lia.
  rewrite u32_small by (unfold A in *; div_lia).
  split; [exact HN0 | split; [reflexivity |]].
  unfold A in *. lia.
Qed.

(** X18. The bound is met: for nodes of [PageSize - sizeof (PoolSlab)] bytes the
    slab has one node, and the size that create asserts to be at most
    [PageSize] is [PageSize + 4]. *)
Theorem create_Size_exceeds_PageSize (PageSize sizeof_PoolSlab : Z) :
  0 <= sizeof_PoolSlab < PageSize -> PageSize < 2 ^ 31 ->
  getSlabSize_Pool PageSize sizeof_PoolSlab (PageSize - sizeof_PoolSlab) = 1 /\
  create_Size PageSize sizeof_PoolSlab (PageSize - sizeof_PoolSlab)
    = PageSize + 4.
Proof.
  intros HH HP.
  destruct (getSlabSize_Pool_eq PageSize sizeof_PoolSlab
              (PageSize - sizeof_PoolSlab)) as [_ Heq]; [lia | lia | lia |].
  cbv zeta in Heq.
  assert (HN : getSlabSize_Pool PageSize sizeof_PoolSlab
                 (PageSize - sizeof_PoolSlab) = 1).
  { rewrite Heq, Z.div_same by lia.
    replace (4 * ((1 * 2 / 8 + 3) / 4)) with 0 by reflexivity.
    rewrite Z.sub_0_r. apply Z.div_same. lia. }
  split; [exact HN |].
  unfold create_Size. cbv zeta. rewrite HN.
  replace (u32 (1 + 15) / 16) with 1 by reflexivity.
  rewrite u32_small by lia. lia.
Qed.

(** X19. containsElement returns the number of a node exactly for the address
    that getElementAddress gives that node. *)
Theorem containsElement_getElementAddress
  (flags : Z) (s : PoolSlab) (Ptr ElementSize i : Z) :
  isSingleArray s = false -> 0 < ElementSize ->
  NumNodesInSlab s < 2 ^ 31 -> NumNodesInSlab s * ElementSize <= 2 ^ 32 ->
  Ptr < getElementAddress flags s 0 0 + 2 ^ 32 -> 0 <= i ->
  containsElement flags s Ptr ElementSize = Some i
  <-> i < NumNodesInSlab s /\ Ptr = getElementAddress flags s i ElementSize.
Proof.
  intros Hsingle HES HN Hfit HPtr Hi.
  unfold containsElement, getElementAddress, getSlabSize in *. cbv zeta.
  rewrite Hsingle. cbn [andb].
  replace (u32 (0 * 0)) with 0 in * by reflexivity.
  rewrite Z.add_0_r in *.
  set (base := flags + 4 * (u32 (NumNodesInSlab s + 15) / 16)) in *.
  clearbody base.
  destruct (Z.leb_spec base Ptr) as [Hle | Hgt].
  - rewrite (u32_small (Ptr - base)) by lia.
    pose proof (Z.div_mod (Ptr - base) ElementSize ltac:(lia)) as Hdm.
    pose proof (Z.mod_pos_bound (Ptr - base) ElementSize HES) as Hmod.
    assert (Hq : 0 <= (Ptr - base) / ElementSize) by (apply Z.div_pos; lia).
    destruct (Z.ltb_spec ((Ptr - base) / ElementSize) (NumNodesInSlab s))
      as [Hin | Hout].
    + destruct (Z.eqb_spec ((Ptr - base) mod ElementSize) 0) as [Hz | Hnz];
        cbn [negb].
      * unfold to_int.
        assert (((Ptr - base) / ElementSize <? 2 ^ 31) = true) as ->
          by (apply Z.ltb_lt; lia).
        split.
        -- intros [= <-]. split; [exact Hin |].
           rewrite u32_small by nia. nia.
        -- intros [Hlt ->]. rewrite (u32_small (i * ElementSize)) by nia.
           f_equal. replace (base + i * ElementSize - base)
             with (i * ElementSize) by lia.
           apply Z.div_mul. lia.
      * split; [discriminate |].
        intros [Hlt ->]. exfalso. apply Hnz.
        rewrite (u32_small (i * ElementSize)) by nia.
        replace (base + i * ElementSize - base) with (i * ElementSize) by lia.
        apply Z.mod_mul. lia.
    + split; [intros [= <-]; lia |].
      intros [Hlt ->]. exfalso.
      rewrite (u32_small (i * ElementSize)) in Hout by nia.
      replace (base + i * ElementSize - base) with (i * ElementSize) in Hout
        by lia.
      rewrite Z.div_mul in Hout by lia. lia.
  - split; [intros [= <-]; lia |].
    intros [Hlt ->]. pose proof (u32_range (i * ElementSize)). lia.
Qed.

End SlabLayout.

(** *** Slabs: samples *)

Section SlabSamples.

Import Machine Slab.

Lemma create8_ok : slab_ok (create 8 [0]).
Proof. apply create_ok; simpl; lia. Qed.

Lemma create8_runs_ok : runs_ok (create 8 [0]).
Proof. apply create_runs_ok; simpl; lia. Qed.

Lemma create_empty_witness :
  assertOkay (create 8 [65535]) = true /\
  isNodeAllocated (NodeFlagsVector (create 8 [65535])) 3 = false.
Proof.
  destruct (create_empty 8 [65535]) as (_ & _ & _ & Hassert & Hfree);
    [lia | simpl; lia |].
  split; [exact Hassert | apply Hfree; lia].
Defined.

Lemma allocateSingle_result_witness :
  slab_ok (fst (allocateSingle (create 8 [0]))) /\
  packed (fst (allocateSingle (create 8 [0]))).
Proof.
  destruct (allocateSingle_result (create 8 [0])
              (fst (allocateSingle (create 8 [0])))
              (snd (allocateSingle (create 8 [0])))
              create8_ok (create_packed 8 [0]) create8_runs_ok
              (surjective_pairing _)) as (Hok & Hpk & _).
  split; [exact Hok | exact Hpk].
Defined.

Lemma allocateMultiple_result_witness :
  exists (s' : PoolSlab) (r : Z),
    allocateMultiple 3 (create 8 [0]) = Some (s', r) /\ slab_ok s'.
Proof.
  destruct (allocateMultiple_result (create 8 [0]) 3
              create8_ok (create_packed 8 [0]) create8_runs_ok)
    as (s' & r & Hcall & Hok & _); [cbn; lia |].
  exists s', r. split; [exact Hcall | exact Hok].
Defined.

Lemma lastNodeAllocated_highest_witness :
  lastNodeAllocated [5] 3 <= 3 /\
  isNodeAllocated [5] (lastNodeAllocated [5] 3) = true.
Proof.
  destruct (lastNodeAllocated_highest [5] 3) as [Hsome _]; [lia |].
  destruct Hsome as (Hr & Ha & _);
    [exists 0; split; [lia | reflexivity] |].
  split; [lia | exact Ha].
Defined.

Lemma freeElement_frees_getSize_witness :
  isNodeAllocated (NodeFlagsVector (slab_of (freeElement 1 Sample.slab3))) 1
    = false /\
  isNodeAllocated (NodeFlagsVector (slab_of (freeElement 1 Sample.slab3))) 2
    = true.
Proof.
  destruct (freeElement_frees_getSize 4120 Sample.slab3 1 8 1 slab3_ok)
    as (_ & _ & Hbits);
    [by_computation | lia | lia | reflexivity | vm_compute; reflexivity |].
  split.
  - destruct (Hbits 1) as [-> _]; [lia |]. reflexivity.
  - destruct (Hbits 2) as [-> _]; [lia |]. reflexivity.
Defined.

Lemma getSize_allocateMultiple_witness :
  exists s' : PoolSlab,
    allocateMultiple 3 (create 8 [0]) = Some (s', 0) /\
    getSize 4120 s' (getElementAddress 4120 s' 0 8) 8 = Some 3.
Proof.
  eexists. split; [vm_compute; reflexivity |].
  apply (getSize_allocateMultiple 4120 (create 8 [0]) _ 3 0 8
           create8_ok (create_packed 8 [0]) create8_runs_ok);
    [cbn; lia | vm_compute; reflexivity | lia | lia | lia].
Defined.

Lemma create_Size_bound_witness : create_Size 4096 24 50 <= 4096 + 4.
Proof.
  destruct (create_Size_bound 4096 24 50) as (_ & _ & H); [lia | lia | lia |].
  exact H.
Defined.

Lemma create_Size_exceeds_PageSize_witness :
  create_Size 4096 24 (4096 - 24) = 4096 + 4.
Proof.
  destruct (create_Size_exceeds_PageSize 4096 24) as [_ H]; [lia | lia |].
  exact H.
Defined.

Lemma containsElement_getElementAddress_witness :
  containsElement 4120 Sample.slab3 (getElementAddress 4120 Sample.slab3 2 8) 8
    = Some 2.
Proof.
  apply (containsElement_getElementAddress 4120 Sample.slab3 _ 8 2);
    [reflexivity | lia | by_computation | by_computation | by_computation
     | lia |].
  split; [by_computation | reflexivity].
Defined.

End SlabSamples.

(** *** The baggy bounds run-time: size classes, unregister, realloc and
    calloc *)

Section BaggyLibFacts.

Import Machine Baggy BaggyLib.

Lemma size_loop_none (n : Z) (fuel : nat) :
  forall size : Z,
  0 <= size <= 32 -> 2 ^ 31 < n -> size_loop fuel size n = None.
Proof.
  induction fuel as [| fuel IH]; intros size Hs Hn; cbn [size_loop];
    [reflexivity |].
  destruct (Z.eq_dec size 32) as [-> | Hne]; [reflexivity |].
  rewrite shl1_small by lia.
  assert (2 ^ size <= 2 ^ 31) by (apply Z.pow_le_mono_r; lia).
  assert ((2 ^ size <? n) = true) as -> by (apply Z.ltb_lt; lia).
  apply IH; lia.
Qed.

(** X20. The size class of a request of at most 2^31 bytes is the least
    exponent, from [SLOT_SIZE] up, whose power of two holds it; a larger
    request has none: the loop comes to the shift [1 << 32]. *)
Theorem size_class_total (n : Z) :
  (n <= 2 ^ 31 -> size_class n = Some (Z.max SLOT_SIZE (Z.log2_up n))) /\
  (2 ^ 31 < n -> size_class n = None).
Proof.
  split.
  - intros Hn. unfold size_class, SLOT_SIZE.
    destruct (Z_lt_le_dec 0 n) as [Hpos | Hnpos].
    + pose proof (log2_up_bound n ltac:(lia)) as Hb.
      rewrite (size_loop_log2_up n 33 0) by lia.
      destruct (Z.ltb_spec (Z.log2_up n) 4); f_equal; lia.
    + assert (Z.log2_up n = 0) as -> by (apply Z.log2_up_eqn0; lia).
      cbn [size_loop]. rewrite shl1_small by lia.
      assert ((2 ^ 0 <? n) = false) as -> by (apply Z.ltb_ge; simpl; lia).
      reflexivity.
  - intros Hn. unfold size_class. rewrite size_loop_none by lia. reflexivity.
Qed.

Lemma shl_int_small (e : Z) : 0 <= e < 31 -> shl_int e = Some (2 ^ e).
Proof.
  intros H. unfold shl_int.
  assert ((0 <=? e) = true) as -> by (apply Z.leb_le; lia).
  assert ((e <? 31) = true) as -> by (apply Z.ltb_lt; lia).
  cbn [andb]. rewrite Z.shiftl_1_l. reflexivity.
Qed.

(** The mask [~(size - 1)] rounds a pointer down to a multiple of
    [size]. *)
Lemma mask_down (q s : Z) :
  0 <= s -> Z.land q (Z.lnot (2 ^ s - 1)) = q / 2 ^ s * 2 ^ s.
Proof.
  intros Hs.
  rewrite Z.sub_1_r, <- Z.ones_equiv, <- Z.ldiff_land.
  rewrite Z.ldiff_ones_r, Z.shiftr_div_pow2, Z.shiftl_mul_pow2 by exact Hs.
  reflexivity.
Qed.

(** The slots of a block of class [s] at [p], and the block of a pointer
    into it. *)
Lemma block_slots (p q s : Z) :
  SLOT_SIZE <= s -> p mod 2 ^ s = 0 -> p <= q < p + 2 ^ s ->
  q / 2 ^ s * 2 ^ s = p /\
  Z.shiftr p SLOT_SIZE <= Z.shiftr q SLOT_SIZE
    < Z.shiftr p SLOT_SIZE + 2 ^ (s - SLOT_SIZE).
Proof.
  unfold SLOT_SIZE. intros Hs Hp Hq.
  assert (Hpow : 2 ^ s = 16 * 2 ^ (s - 4)).
  { replace s with (4 + (s - 4)) at 1 by lia.
    rewrite Z.pow_add_r by lia. reflexivity. }
  assert (Hpos : 0 < 2 ^ (s - 4)) by (apply Z.pow_pos_nonneg; lia).
  assert (Hk : p = 2 ^ s * (p / 2 ^ s)).
  { apply Z.div_exact; [lia | exact Hp]. }
  split.
  - replace q with ((q - p) + (p / 2 ^ s) * 2 ^ s) at 1 by lia.
    rewrite Z.div_add by lia.
    rewrite (Z.div_small (q - p)) by lia. lia.
  - rewrite !Z.shiftr_div_pow2 by lia. change (2 ^ 4) with 16.
    set (k := p / 2 ^ s) in *. clearbody k.
    set (P := 2 ^ (s - 4)) in *. clearbody P.
    rewrite Hpow in *.
    assert (Hp16 : p / 16 = P * k).
    { rewrite Hk. replace (16 * P * k) with (P * k * 16) by lia.
      apply Z.div_mul. lia. }
    rewrite Hp16.
    assert (P * k * 16 = p) by lia.
    set (pk := P * k) in *. clearbody pk.
    div_lia.
Qed.

Variable libc : Type.

Variable posix_memalign : Z -> Z -> libc -> option Z * libc.

Variable free : Z -> libc -> libc.

(** What POSIX promises of posix_memalign: the pointer it stores is a
    multiple of the alignment. *)
Hypothesis posix_memalign_aligned :
  forall (alignment size : Z) (h h' : libc) (p : Z),
  posix_memalign alignment size h = (Some p, h') -> p mod alignment = 0.

(** Unregistering a pointer whose slot holds the class [e] clears the
    slots of the block of 2^e bytes around it. *)
Lemma unregister_returns (Pool q e : Z) (st : BBState libc) :
  table_get (table st) (Z.shiftr q SLOT_SIZE) = e -> SLOT_SIZE <= e <= 30 ->
  __sc_bb_poolunregister Pool q st
    = BBReturns tt
        (mkBB (memset (Z.to_nat (2 ^ (e - SLOT_SIZE)))
                      (Z.shiftr (q / 2 ^ e * 2 ^ e) SLOT_SIZE) 0 (table st))
              (bytes st) (heap st)).
Proof.
  unfold SLOT_SIZE. intros He Hr.
  unfold __sc_bb_poolunregister, __sc_bb_poolunregister_debug. cbv zeta.
  unfold SLOT_SIZE. rewrite He.
  assert ((e =? 0) = false) as -> by (apply Z.eqb_neq; lia).
  rewrite shl_int_small by lia.
  rewrite mask_down by lia.
  rewrite (u32_small (e - 4)) by lia.
  rewrite shl1_small by lia. reflexivity.
Qed.

(** X21. Registering a block and then unregistering any pointer into it puts
    0 into the slots of the block, and into no other; memory and the heap
    stay as they are. *)
Theorem bb_register_unregister (Pool p n s q : Z) (st : BBState libc) :
  size_class n = Some s -> SLOT_SIZE <= s <= 30 -> p mod 2 ^ s = 0 ->
  p <= q < p + 2 ^ s ->
  exists st1 st2 : BBState libc,
    __sc_bb_poolregister Pool p n st = BBReturns tt st1 /\
    __sc_bb_poolunregister Pool q st1 = BBReturns tt st2 /\
    bytes st2 = bytes st /\ heap st2 = heap st /\
    forall j : Z,
      table_get (table st2) j =
        if (Z.shiftr p SLOT_SIZE <=? j)
           && (j <? Z.shiftr p SLOT_SIZE + 2 ^ (s - SLOT_SIZE))
        then 0 else table_get (table st) j.
Proof.
  intros Hsc Hs Hp Hq.
  destruct (block_slots p q s ltac:(lia) Hp Hq) as [Hbase Hslot].
  assert (Hpos : 0 <= 2 ^ (s - SLOT_SIZE)) by (apply Z.pow_nonneg; lia).
  eexists _, _. split; [| split].
  - unfold __sc_bb_poolregister, __sc_bb_src_poolregister.
    apply (internal_register_aligned libc p n s st Hsc ltac:(lia) Hp).
  - apply (unregister_returns Pool q s); [| exact Hs].
    cbn [table]. rewrite table_get_memset, Z2Nat.id by exact Hpos.
    destruct (Z.leb_spec (Z.shiftr p SLOT_SIZE) (Z.shiftr q SLOT_SIZE)),
      (Z.ltb_spec (Z.shiftr q SLOT_SIZE)
                  (Z.shiftr p SLOT_SIZE + 2 ^ (s - SLOT_SIZE)));
      try lia; reflexivity.
  - cbn [bytes heap table]. split; [reflexivity | split; [reflexivity |]].
    intros j. rewrite Hbase.
    rewrite !table_get_memset, Z2Nat.id by exact Hpos.
    destruct ((Z.shiftr p SLOT_SIZE <=? j)
              && (j <? Z.shiftr p SLOT_SIZE + 2 ^ (s - SLOT_SIZE)));
      reflexivity.
Qed.

(** X22. __sc_bb_poolrealloc copies the whole size class of the old block,
    2^e bytes, into the new block, whatever the number of bytes asked for:
    when the new block is of a smaller class, the copy runs past its
    end. *)
Theorem bb_poolrealloc_copies_class
  (Pool Node NumBytes s e New : Z) (h' : libc) (st : BBState libc) :
  Node <> 0 -> NumBytes <> 0 ->
  size_class NumBytes = Some s -> SLOT_SIZE <= s <= 31 ->
  posix_memalign (2 ^ s) (2 ^ s) (heap st) = (Some New, h') ->
  table_get (table st) (Z.shiftr Node SLOT_SIZE) = e -> SLOT_SIZE <= e <= 30 ->
  ~ (Z.shiftr New SLOT_SIZE <= Z.shiftr Node SLOT_SIZE
       < Z.shiftr New SLOT_SIZE + 2 ^ (s - SLOT_SIZE)) ->
  Realloc.apart New Node (2 ^ e) ->
  exists st' : BBState libc,
    __sc_bb_poolrealloc posix_memalign __sc_bb_poolunregister
        (__sc_bb_poolfree free) Pool Node NumBytes st
      = BBReturns New st' /\
    forall i, 0 <= i < 2 ^ e -> bytes st' (New + i) = bytes st (Node + i).
Proof.
  intros HN Hn Hsc Hs Hmem He Her Hslot Hap.
  pose proof (posix_memalign_aligned _ _ _ _ _ Hmem) as Hal.
  assert (Hpos : 0 <= 2 ^ (s - SLOT_SIZE)) by (apply Z.pow_nonneg; lia).
  unfold __sc_bb_poolrealloc.
  apply Z.eqb_neq in HN, Hn. rewrite HN, Hn.
  unfold bb_alloc_registered, __sc_bb_poolalloc, __sc_bb_src_poolalloc.
  rewrite Hsc. unfold SLOT_SIZE in Hs, Her.
  rewrite shl1_small by lia. rewrite Hmem. cbn [bb_bind].
  unfold __sc_bb_poolregister, __sc_bb_src_poolregister.
  rewrite (internal_register_aligned libc New NumBytes s _ Hsc ltac:(unfold SLOT_SIZE; lia) Hal).
  cbn [bb_bind table bytes heap].
  rewrite table_get_memset, Z2Nat.id by exact Hpos.
  destruct (Z.leb_spec (Z.shiftr New SLOT_SIZE) (Z.shiftr Node SLOT_SIZE)),
    (Z.ltb_spec (Z.shiftr Node SLOT_SIZE)
                (Z.shiftr New SLOT_SIZE + 2 ^ (s - SLOT_SIZE)));
    try lia; cbn [andb]; rewrite He, shl1_small by lia;
    (rewrite (unregister_returns Pool Node e);
     [| unfold bb_memcpy; cbn [table]; rewrite table_get_memset,
          Z2Nat.id by exact Hpos;
        destruct (Z.leb_spec (Z.shiftr New SLOT_SIZE) (Z.shiftr Node SLOT_SIZE)),
          (Z.ltb_spec (Z.shiftr Node SLOT_SIZE)
                      (Z.shiftr New SLOT_SIZE + 2 ^ (s - SLOT_SIZE)));
          try lia; cbn [andb]; exact He
      | unfold SLOT_SIZE; lia]);
    cbn [bb_bind]; unfold __sc_bb_poolfree, __sc_bb_src_poolfree;
    cbn [bb_bind]; (eexists; split; [reflexivity |]);
    intros i Hi; cbn [bytes bb_memcpy];
    apply memcpy_copied; assumption.
Qed.

(** X23. __sc_bb_src_poolcalloc, unlike __sc_bb_src_poolalloc, registers the
    block it returns: the slot of the block holds its size class, and the
    Number * NumBytes bytes asked for, the product taken in 32 bits, are
    zero. *)
Theorem bb_poolcalloc_registers
  (Pool Number NumBytes s p : Z) (h' : libc) (st : BBState libc) :
  size_class (u32 (NumBytes * Number)) = Some s -> SLOT_SIZE <= s <= 31 ->
  posix_memalign (2 ^ s) (2 ^ s) (heap st) = (Some p, h') -> p <> 0 ->
  exists st' : BBState libc,
    __sc_bb_src_poolcalloc posix_memalign Pool Number NumBytes st
      = BBReturns (Some p) st' /\
    heap st' = h' /\
    table_get (table st') (Z.shiftr p SLOT_SIZE) = s /\
    forall i, 0 <= i < u32 (Number * NumBytes) -> bytes st' (p + i) = 0.
Proof.
  intros Hsc Hs Hmem Hp.
  pose proof (posix_memalign_aligned _ _ _ _ _ Hmem) as Hal.
  assert (Hpos : 0 < 2 ^ (s - SLOT_SIZE)) by (apply Z.pow_pos_nonneg; lia).
  unfold __sc_bb_src_poolcalloc. rewrite Hsc.
  unfold SLOT_SIZE in Hs. rewrite shl1_small by lia. rewrite Hmem.
  unfold __sc_bb_src_poolregister.
  replace (Number * NumBytes) with (NumBytes * Number) by lia.
  rewrite (internal_register_aligned libc p _ s _ Hsc ltac:(unfold SLOT_SIZE; lia) Hal).
  cbn [bb_bind]. apply Z.eqb_neq in Hp. rewrite Hp.
  eexists. split; [reflexivity |].
  cbn [heap table bytes bb_bzero]. split; [reflexivity | split].
  - rewrite table_get_memset, Z2Nat.id by lia.
    assert ((Z.shiftr p SLOT_SIZE <=? Z.shiftr p SLOT_SIZE) = true) as ->
      by (apply Z.leb_le; lia).
    assert ((Z.shiftr p SLOT_SIZE <? Z.shiftr p SLOT_SIZE + 2 ^ (s - SLOT_SIZE))
            = true) as -> by (apply Z.ltb_lt; lia).
    reflexivity.
  - intros i Hi. unfold PoolLib.bzero.
    pose proof (u32_range (NumBytes * Number)).
    apply bzero_bytes_inside. rewrite Z2Nat.id by lia. exact Hi.
Qed.

End BaggyLibFacts.

Section BaggyLibSamples.

Import Machine Baggy BaggyLib.

Lemma bb_register_unregister_witness :
  exists st1 st2 : BBState Z,
    __sc_bb_poolregister 0 4096 50 Sample.bb0 = BBReturns tt st1 /\
    table_get (table st1) 257 = 6 /\
    __sc_bb_poolunregister 0 4130 st1 = BBReturns tt st2 /\
    table_get (table st2) 257 = 0.
Proof.
  destruct (bb_register_unregister Z 0 4096 50 6 4130 Sample.bb0)
    as (st1 & st2 & Hreg & Hunreg & _ & _ & Ht);
    [reflexivity | unfold SLOT_SIZE; lia | reflexivity | simpl; lia |].
  exists st1, st2.
  split; [exact Hreg | split; [| split; [exact Hunreg |]]].
  - vm_compute in Hreg. injection Hreg as <-. reflexivity.
  - rewrite Ht. reflexivity.
Defined.

Lemma bb_poolrealloc_copies_class_witness :
  exists st' : BBState Z,
    __sc_bb_poolrealloc Sample.bump_memalign __sc_bb_poolunregister
        (__sc_bb_poolfree Sample.free_keep) 0 4096 5 Sample.bb64
      = BBReturns 4160 st' /\
    bytes st' (4160 + 16) = bytes Sample.bb64 (4096 + 16).
Proof.
  destruct (bb_poolrealloc_copies_class Z Sample.bump_memalign Sample.free_keep
              bump_memalign_aligned 0 4096 5 4 6 4160 4176 Sample.bb64)
    as (st' & Hcall & Hcopy);
    [lia | lia | reflexivity | unfold SLOT_SIZE; lia | reflexivity
     | reflexivity | unfold SLOT_SIZE; lia
     | vm_compute; intros [H _]; apply H; reflexivity
     | right; simpl; lia |].
  exists st'. split; [exact Hcall | apply Hcopy; simpl; lia].
Defined.

Lemma bb_poolcalloc_registers_witness :
  exists st' : BBState Z,
    __sc_bb_src_poolcalloc Sample.bump_memalign 0 3 4 Sample.bb0
      = BBReturns (Some 4112) st' /\
    table_get (table st') (Z.shiftr 4112 SLOT_SIZE) = 4 /\
    bytes st' (4112 + 11) = 0.
Proof.
  destruct (bb_poolcalloc_registers Z Sample.bump_memalign bump_memalign_aligned
              0 3 4 4 4112 4128 Sample.bb0)
    as (st' & Hcall & _ & Ht & Hz);
    [reflexivity | unfold SLOT_SIZE; lia | reflexivity | lia |].
  exists st'. split; [exact Hcall | split; [exact Ht |]].
  apply Hz. rewrite u32_small; lia.
Defined.

End BaggyLibSamples.

(** *** Slabs: isFull, isEmpty and the search for the slab of a node *)

Section SlabSearch.

Import Machine Slab.

(** X24. Under the invariants isFull says that every node of the slab is
    allocated, and isEmpty that none is. *)
Theorem isFull_isEmpty_spec (s : PoolSlab) :
  slab_ok s -> packed s ->
  (isFull s = true <->
   forall i, 0 <= i < NumNodesInSlab s ->
     isNodeAllocated (NodeFlagsVector s) i = true) /\
  (isEmpty s = true <->
   forall i, 0 <= i < NumNodesInSlab s ->
     isNodeAllocated (NodeFlagsVector s) i = false).
Proof.
  intros Hok Hpk.
  pose proof Hok as [Hsingle Hsz Hw [[H0 Hfu] Hue] Habove Hlast Hfirst].
  unfold isFull, isEmpty, getSlabSize. rewrite Hsingle. cbn [orb].
  split; split.
  - intros He i Hi. apply Z.eqb_eq in He. apply Hpk. lia.
  - intros Hall. apply Z.eqb_eq.
    destruct (Z_lt_le_dec (FirstUnused s) (NumNodesInSlab s)) as [Hlt | Hge];
      [| lia].
    specialize (Hfirst Hlt). rewrite Hall in Hfirst by lia. discriminate.
  - intros He i Hi. apply Z.eqb_eq in He. apply Habove. lia.
  - intros Hnone. apply Z.eqb_eq.
    destruct (Z_lt_le_dec 0 (UsedEnd s)) as [Hlt | Hge]; [| lia].
    specialize (Hlast Hlt). rewrite Hnone in Hlast by lia. discriminate.
Qed.

(** containsElement at the address of a node. *)
Lemma containsElement_at (flags : Z) (s : PoolSlab) (ElementSize i : Z) :
  isSingleArray s = false -> 0 < ElementSize ->
  NumNodesInSlab s < 2 ^ 31 -> NumNodesInSlab s * ElementSize <= 2 ^ 32 ->
  0 <= i < NumNodesInSlab s ->
  containsElement flags s (getElementAddress flags s i ElementSize) ElementSize
    = Some i.
Proof.
  intros Hsingle HES HN Hfit Hi.
  unfold containsElement, getElementAddress, getSlabSize. cbv zeta.
  rewrite Hsingle. cbn [andb].
  replace (u32 (0 * 0)) with 0 by reflexivity. rewrite Z.add_0_r.
  set (base := flags + 4 * (u32 (NumNodesInSlab s + 15) / 16)).
  rewrite (u32_small (i * ElementSize)) by nia.
  assert ((base <=? base + i * ElementSize) = true) as ->
    by (apply Z.leb_le; nia).
  replace (base + i * ElementSize - base) with (i * ElementSize) by lia.
  rewrite (u32_small (i * ElementSize)) by nia.
  rewrite Z.div_mul, Z.mod_mul by lia.
  assert ((i <? NumNodesInSlab s) = true) as -> by (apply Z.ltb_lt; lia).
  cbn [negb Z.eqb]. unfold to_int.
  assert ((i <? 2 ^ 31) = true) as -> by (apply Z.ltb_lt; lia).
  reflexivity.
Qed.

(** containsElement at an address outside the nodes of a slab. *)
Lemma containsElement_outside (PS : Z * PoolSlab) (Node ElementSize : Z) :
  0 < ElementSize -> 0 <= NumNodesInSlab (snd PS) ->
  outside_slab PS Node ElementSize ->
  containsElement (fst PS) (snd PS) Node ElementSize = Some (-1).
Proof.
  intros HES HN [Hsingle Hout].
  unfold containsElement, getSlabSize. cbv zeta.
  rewrite Hsingle. cbn [andb].
  set (First := getElementAddress (fst PS) (snd PS) 0 0) in *. clearbody First.
  destruct (Z.leb_spec First Node) as [Hle | Hgt]; [| reflexivity].
  destruct Hout as [Hlt | Hge]; [lia |].
  rewrite u32_small by lia.
  assert (NumNodesInSlab (snd PS) <= (Node - First) / ElementSize)
    by (apply Z.div_le_lower_bound; lia).
  assert (((Node - First) / ElementSize <? NumNodesInSlab (snd PS)) = false)
    as -> by (apply Z.ltb_ge; lia).
  reflexivity.
Qed.

(** A loop over two lists one after the other is the loop over both. *)
Lemma search_slabs_app (l1 l2 : list (Z * PoolSlab)) (Node NodeSize : Z) :
  search_slabs (l1 ++ l2) Node NodeSize =
    match search_slabs l1 Node NodeSize with
    | None => None
    | Some (Some PS, Idx) => Some (Some PS, Idx)
    | Some (None, _) => search_slabs l2 Node NodeSize
    end.
Proof.
  induction l1 as [| S1 l1 IH]; cbn [search_slabs app]; [reflexivity |].
  destruct (containsElement (fst S1) (snd S1) Node NodeSize) as [Idx |];
    [| reflexivity].
  destruct (negb (Idx =? -1)); [reflexivity | exact IH].
Qed.

Lemma search_slabs_none (l : list (Z * PoolSlab)) (Node NodeSize Idx : Z) :
  search_slabs l Node NodeSize = Some (None, Idx) -> Idx = -1.
Proof.
  induction l as [| S1 l IH]; cbn [search_slabs].
  - intros [= <-]. reflexivity.
  - destruct (containsElement (fst S1) (snd S1) Node NodeSize) as [Idx' |];
      [| discriminate].
    destruct (negb (Idx' =? -1)); [discriminate | exact IH].
Qed.

Lemma SearchForContainingSlab_app
  (Ptr1 Ptr2 LargeArrays : list (Z * PoolSlab)) (Node NodeSize : Z) :
  SearchForContainingSlab Ptr1 Ptr2 LargeArrays Node NodeSize =
    match search_slabs (Ptr1 ++ Ptr2 ++ LargeArrays) Node NodeSize with
    | None => None
    | Some (PS, Idx) => Some (PS, u32 Idx)
    end.
Proof.
  unfold SearchForContainingSlab. rewrite !search_slabs_app.
  destruct (search_slabs Ptr1 Node NodeSize) as [[[PS |] Idx] |];
    [reflexivity | | reflexivity].
  destruct (search_slabs Ptr2 Node NodeSize) as [[[PS |] Idx'] |];
    reflexivity.
Qed.

(** The search stops on the first slab whose nodes hold the address. *)
Lemma search_slabs_finds
  (before after : list (Z * PoolSlab)) (f : Z) (s : PoolSlab)
  (Node NodeSize i : Z) :
  0 < NodeSize ->
  (forall PS, In PS before ->
     0 <= NumNodesInSlab (snd PS) /\ outside_slab PS Node NodeSize) ->
  isSingleArray s = false ->
  NumNodesInSlab s < 2 ^ 31 -> NumNodesInSlab s * NodeSize <= 2 ^ 32 ->
  0 <= i < NumNodesInSlab s ->
  Node = getElementAddress f s i NodeSize ->
  search_slabs (before ++ (f, s) :: after) Node NodeSize = Some (Some (f, s), i).
Proof.
  intros HES Hbefore Hsingle HN Hfit Hi ->.
  induction before as [| S1 before IH]; cbn [search_slabs app fst snd].
  - rewrite containsElement_at by assumption.
    assert ((i =? -1) = false) as -> by (apply Z.eqb_neq; lia).
    reflexivity.
  - destruct (Hbefore S1 ltac:(left; reflexivity)) as [HN1 Hout].
    rewrite containsElement_outside by assumption.
    cbn [negb Z.eqb].
    apply IH. intros PS HPS. apply Hbefore. right. exact HPS.
Qed.

(** X25. SearchForContainingSlab, given the address of a node of a slab of the
    pool, returns that slab and the number of the node, when the address
    lies outside the nodes of the slabs that come before it in the lists. *)
Theorem SearchForContainingSlab_finds
  (Ptr1 Ptr2 LargeArrays before after : list (Z * PoolSlab))
  (f : Z) (s : PoolSlab) (Node NodeSize i : Z) :
  Ptr1 ++ Ptr2 ++ LargeArrays = before ++ (f, s) :: after ->
  0 < NodeSize ->
  (forall PS, In PS before ->
     0 <= NumNodesInSlab (snd PS) /\ outside_slab PS Node NodeSize) ->
  isSingleArray s = false ->
  NumNodesInSlab s < 2 ^ 31 -> NumNodesInSlab s * NodeSize <= 2 ^ 32 ->
  0 <= i < NumNodesInSlab s ->
  Node = getElementAddress f s i NodeSize ->
  SearchForContainingSlab Ptr1 Ptr2 LargeArrays Node NodeSize
    = Some (Some (f, s), i).
Proof.
  intros Hlists HES Hbefore Hsingle HN Hfit Hi HNode.
  rewrite SearchForContainingSlab_app, Hlists.
  rewrite (search_slabs_finds before after f s Node NodeSize i) by assumption.
  rewrite u32_small by lia. reflexivity.
Qed.

End SlabSearch.

(** *** The baggy bounds pass and the run-time agree on size classes *)

Section BaggyPassFacts.

Import Machine.

Lemma findP2Size_loop_size_loop (fuel : nat) :
  forall size n : Z,
  BaggyPass.findP2Size_loop fuel size n = Baggy.size_loop fuel size n.
Proof.
  induction fuel as [| fuel IH]; intros size n;
    cbn [BaggyPass.findP2Size_loop Baggy.size_loop]; [reflexivity |].
  unfold BaggyPass.shl1u, Baggy.shl1.
  destruct ((0 <=? size) && (size <? 32)); [| reflexivity].
  rewrite IH. reflexivity.
Qed.

(** X26. findP2Size in the pass and the loop of the run-time give every size
    the same size class, and both leave a size above 2^31 without one. *)
Theorem findP2Size_size_class (n : Z) :
  BaggyPass.findP2Size n = Baggy.size_class n.
Proof.
  unfold BaggyPass.findP2Size, Baggy.size_class, BaggyPass.SLOT_SIZE,
    Baggy.SLOT_SIZE.
  rewrite findP2Size_loop_size_loop.
  destruct (Z_lt_le_dec (2 ^ 31) n) as [Hbig | Hsmall].
  - rewrite !size_loop_none by lia. reflexivity.
  - destruct (Z_lt_le_dec 16 n) as [H16 | H16].
    + pose proof (log2_up_bound n ltac:(lia)) as Hb.
      assert (4 < Z.log2_up n).
      { apply (Z.log2_up_lt_pow2 n 4); [lia | simpl; lia]. }
      rewrite (size_loop_log2_up n 33 4), (size_loop_log2_up n 33 0) by lia.
      assert ((Z.log2_up n <? 4) = false) as -> by (apply Z.ltb_ge; lia).
      reflexivity.
    + assert (Hfour : Baggy.size_loop 33 4 n = Some 4).
      { cbn [Baggy.size_loop]. rewrite shl1_small by lia.
        assert ((2 ^ 4 <? n) = false) as -> by (apply Z.ltb_ge; simpl; lia).
        reflexivity. }
      rewrite Hfour.
      destruct (Z_lt_le_dec 0 n) as [Hpos | Hnpos].
      * pose proof (log2_up_bound n ltac:(lia)) as Hb.
        assert (Z.log2_up n <= 4).
        { apply (Z.log2_up_le_pow2 n 4); [lia | simpl; lia]. }
        rewrite (size_loop_log2_up n 33 0) by lia.
        destruct (Z.ltb_spec (Z.log2_up n) 4); f_equal; lia.
      * cbn [Baggy.size_loop]. rewrite shl1_small by lia.
        assert ((2 ^ 0 <? n) = false) as -> by (apply Z.ltb_ge; simpl; lia).
        reflexivity.
Qed.

End BaggyPassFacts.

Section SlabSearchSamples.

Import Machine Slab.

Lemma isFull_isEmpty_spec_witness :
  isEmpty (create 8 [0]) = true /\ isFull (create 8 [0]) = false.
Proof.
  destruct (isFull_isEmpty_spec (create 8 [0]) create8_ok (create_packed 8 [0]))
    as [Hfull Hempty].
  split.
  - apply Hempty. intros i Hi. apply create_free; [lia | simpl; lia | exact Hi].
  - destruct (isFull (create 8 [0])) eqn:E; [| reflexivity].
    pose proof (proj1 Hfull eq_refl 0 ltac:(by_computation)) as Ha.
    destruct (create_free 8 [0] 0) as [Hf _]; [lia | simpl; lia | lia |].
    rewrite Hf in Ha. discriminate Ha.
Defined.

Lemma SearchForContainingSlab_finds_witness :
  SearchForContainingSlab [(4120, create 8 [0])] [(8216, Sample.slab3)] []
      (getElementAddress 8216 Sample.slab3 2 8) 8
    = Some (Some (8216, Sample.slab3), 2).
Proof.
  apply (SearchForContainingSlab_finds
           [(4120, create 8 [0])] [(8216, Sample.slab3)] []
           [(4120, create 8 [0])] [] 8216 Sample.slab3 _ 8 2);
    [reflexivity | lia | | reflexivity | by_computation | by_computation
     | by_computation | reflexivity].
  intros PS [<- | []]. split; [by_computation |].
  split; [reflexivity | right; by_computation].
Defined.

End SlabSearchSamples.

(** *** Slabs: allocateSingle and freeElement *)

Section SlabSingle.

Import Machine Slab.

(** Allocating one free node is allocating a run of one. *)
Lemma allocate_one_allocates (s : PoolSlab) (n FU UB UE : Z) :
  0 <= n < NumNodesInSlab s ->
  NumNodesInSlab s <= 16 * Z.of_nat (length (NodeFlagsVector s)) ->
  isNodeAllocated (NodeFlagsVector s) n = false ->
  allocates s
    (with_flags (setStartBit (markNodeAllocated (NodeFlagsVector s) n) n)
       (with_cursors FU UB UE s)) n 1.
Proof.
  intros Hn Hw Hfree.
  assert (Hv : in_vec (NodeFlagsVector s) n) by (unfold in_vec; lia).
  split; [lia | split; [lia | split]].
  - intros i Hi. replace i with n by lia. exact Hfree.
  - intros m Hm. cbn [with_flags NodeFlagsVector].
    destruct (bits_allocate_one (NodeFlagsVector s) n Hv m Hm) as [-> ->].
    split; [| reflexivity]. f_equal.
    destruct (Z.eqb_spec m n), (Z.leb_spec n m), (Z.ltb_spec m (n + 1));
      try lia; reflexivity.
Qed.

Lemma allocateSingle_allocates (s s' : PoolSlab) (r : Z) :
  slab_ok s -> allocateSingle s = (s', r) -> r <> -1 ->
  NumNodesInSlab s' = NumNodesInSlab s /\ allocates s s' r 1.
Proof.
  intros Hok Hcall Hr.
  pose proof Hok as [Hsingle Hsz Hw [[H0 Hfu] Hue] Habove Hlast Hfirst].
  unfold allocateSingle, getSlabSize in Hcall. rewrite Hsingle in Hcall.
  destruct (Z.ltb_spec (UsedEnd s) (NumNodesInSlab s)) as [Hlt | Hge].
  - apply pair_equal_spec in Hcall. destruct Hcall as [<- <-].
    split; [reflexivity |].
    apply allocate_one_allocates; [lia | exact Hw | apply Habove; lia].
  - destruct (Z.ltb_spec (FirstUnused s) (NumNodesInSlab s)) as [Hlt | Hge'].
    + apply pair_equal_spec in Hcall. destruct Hcall as [<- <-].
      split; [reflexivity |].
      apply allocate_one_allocates; [lia | exact Hw | apply Hfirst; lia].
    + apply pair_equal_spec in Hcall. destruct Hcall as [_ <-]. lia.
Qed.

(** allocateSingle keeps every node below [FirstUnused] allocated. *)
Lemma allocateSingle_packed (s s' : PoolSlab) (r : Z) :
  slab_ok s -> packed s -> allocateSingle s = (s', r) -> packed s'.
Proof.
  intros Hok Hpk Hcall.
  pose proof Hok as [Hsingle Hsz Hw [[H0 Hfu] Hue] Habove Hlast Hfirst].
  unfold allocateSingle, getSlabSize in Hcall. rewrite Hsingle in Hcall.
  destruct (Z.ltb_spec (UsedEnd s) (NumNodesInSlab s)) as [Hlt | Hge].
  - apply pair_equal_spec in Hcall. destruct Hcall as [<- _].
    assert (Hv : in_vec (NodeFlagsVector s) (UsedEnd s)) by (unfold in_vec; lia).
    pose proof (bits_allocate_one (NodeFlagsVector s) (UsedEnd s) Hv) as Hbits.
    intros i. cbn [with_flags with_cursors NodeFlagsVector FirstUnused].
    destruct (Z.eqb_spec (FirstUnused s) (UsedEnd s)) as [He | Hne].
    + rewrite (u16_small (FirstUnused s + 1)) by lia. intros Hi.
      destruct (Hbits i ltac:(lia)) as [-> _].
      destruct (Z.eqb_spec i (UsedEnd s)); [apply orb_true_r |].
      rewrite Hpk by lia. reflexivity.
    + intros Hi. destruct (Hbits i ltac:(lia)) as [-> _].
      rewrite Hpk by lia. reflexivity.
  - destruct (Z.ltb_spec (FirstUnused s) (NumNodesInSlab s)) as [Hlt | Hge'].
    + apply pair_equal_spec in Hcall. destruct Hcall as [<- _].
      assert (Hv : in_vec (NodeFlagsVector s) (FirstUnused s))
        by (unfold in_vec; lia).
      pose proof (bits_allocate_one (NodeFlagsVector s) (FirstUnused s) Hv)
        as Hbits.
      intros i. cbn [with_flags with_cursors NodeFlagsVector FirstUnused].
      intros Hi.
      destruct (Z_lt_le_dec (FirstUnused s) i) as [Habv | Hblw].
      * apply (next_unused_between _ (NumNodesInSlab s) (Z.to_nat (2 ^ 16))
                 (FirstUnused s)); lia.
      * destruct (Hbits i ltac:(lia)) as [-> _].
        destruct (Z.eqb_spec i (FirstUnused s)); [apply orb_true_r |].
        rewrite Hpk by lia. reflexivity.
    + apply pair_equal_spec in Hcall. destruct Hcall as [<- _]. exact Hpk.
Qed.


End SlabSingle.

Section SlabFreeSamples.

Import Machine Slab.

(** The sample slabs: their cursors and their flag bits. *)
Lemma slab3_bits (i : Z) :
  0 <= i < 8 ->
  isNodeAllocated (NodeFlagsVector Sample.slab3) i = (i <? 3) /\
  isStartOfAllocation (NodeFlagsVector Sample.slab3) i = (i <? 3).
Proof.
  intros Hi.
  assert (Hc : i = 0 \/ i = 1 \/ i = 2 \/ i = 3 \/ i = 4 \/ i = 5 \/ i = 6 \/ i = 7)
    by lia.
  repeat (destruct Hc as [-> | Hc]; [split; reflexivity |]).
  subst i. split; reflexivity.
Qed.

Lemma slab3_packed : packed Sample.slab3.
Proof.
  intros i Hi. change (FirstUnused Sample.slab3) with 3 in Hi.
  rewrite (proj1 (slab3_bits i ltac:(lia))). apply Z.ltb_lt. lia.
Qed.

Lemma slab3_runs_ok : runs_ok Sample.slab3.
Proof.
  intros i Hi. change (NumNodesInSlab Sample.slab3) with 8 in Hi.
  destruct (slab3_bits i Hi) as [-> ->].
  split; [trivial |].
  intros Ha Hs. rewrite Ha in Hs. discriminate.
Qed.

Lemma slab3_hole_bits (i : Z) :
  0 <= i < 8 ->
  isNodeAllocated (NodeFlagsVector Sample.slab3_hole) i = (i =? 0) || (i =? 2) /\
  isStartOfAllocation (NodeFlagsVector Sample.slab3_hole) i
    = (i =? 0) || (i =? 2).
Proof.
  intros Hi.
  assert (Hc : i = 0 \/ i = 1 \/ i = 2 \/ i = 3 \/ i = 4 \/ i = 5 \/ i = 6 \/ i = 7)
    by lia.
  repeat (destruct Hc as [-> | Hc]; [split; reflexivity |]).
  subst i. split; reflexivity.
Qed.

Lemma slab3_hole_ok : slab_ok Sample.slab3_hole.
Proof.
  constructor;
    change (FirstUnused Sample.slab3_hole) with 1;
    change (UsedEnd Sample.slab3_hole) with 3;
    change (NumNodesInSlab Sample.slab3_hole) with 8.
  - reflexivity.
  - lia.
  - by_computation.
  - lia.
  - intros i Hi. rewrite (proj1 (slab3_hole_bits i ltac:(lia))).
    apply orb_false_intro; apply Z.eqb_neq; lia.
  - intros _. reflexivity.
  - intros _. reflexivity.
Qed.

Lemma slab3_hole_packed : packed Sample.slab3_hole.
Proof.
  intros i Hi. change (FirstUnused Sample.slab3_hole) with 1 in Hi.
  replace i with 0 by lia. reflexivity.
Qed.

Lemma slab3_hole_runs_ok : runs_ok Sample.slab3_hole.
Proof.
  intros i Hi. change (NumNodesInSlab Sample.slab3_hole) with 8 in Hi.
  destruct (slab3_hole_bits i Hi) as [-> ->].
  split; [trivial |].
  intros Ha Hs. rewrite Ha in Hs. discriminate.
Qed.

Lemma slab8_hole_bits (i : Z) :
  0 <= i < 8 ->
  isNodeAllocated (NodeFlagsVector Sample.slab8_hole) i = negb (i =? 1) /\
  isStartOfAllocation (NodeFlagsVector Sample.slab8_hole) i = negb (i =? 1).
Proof.
  intros Hi.
  assert (Hc : i = 0 \/ i = 1 \/ i = 2 \/ i = 3 \/ i = 4 \/ i = 5 \/ i = 6 \/ i = 7)
    by lia.
  repeat (destruct Hc as [-> | Hc]; [split; reflexivity |]).
  subst i. split; reflexivity.
Qed.

Lemma slab8_hole_ok : slab_ok Sample.slab8_hole.
Proof.
  constructor;
    change (FirstUnused Sample.slab8_hole) with 1;
    change (UsedEnd Sample.slab8_hole) with 8;
    change (NumNodesInSlab Sample.slab8_hole) with 8.
  - reflexivity.
  - lia.
  - by_computation.
  - lia.
  - intros i Hi. lia.
  - intros _. reflexivity.
  - intros _. reflexivity.
Qed.

Lemma slab8_hole_packed : packed Sample.slab8_hole.
Proof.
  intros i Hi. change (FirstUnused Sample.slab8_hole) with 1 in Hi.
  replace i with 0 by lia. reflexivity.
Qed.

Lemma slab8_hole_runs_ok : runs_ok Sample.slab8_hole.
Proof.
  intros i Hi. change (NumNodesInSlab Sample.slab8_hole) with 8 in Hi.
  destruct (slab8_hole_bits i Hi) as [-> ->].
  split; [trivial |].
  intros Ha Hs. rewrite Ha in Hs. discriminate.
Qed.



(** Without the assertions (NDEBUG) the run goes on from the slab that the
    failed assertOkay has found: [UsedEnd] = 2 sits on the allocated node 2,
    and the next allocateSingle hands that node out again. *)
Example allocateSingle_after_failed_assertOkay :
  exists s' s'' : PoolSlab,
    allocateSingle Sample.slab3_hole = (s', 3) /\
    freeElement 3 s' = AssertionFailed s'' /\
    isNodeAllocated (NodeFlagsVector s'') 2 = true /\
    snd (allocateSingle s'') = 2.
Proof.
  eexists _, _. split; [vm_compute; reflexivity |].
  split; [vm_compute; reflexivity |]. split; vm_compute; reflexivity.
Qed.

End SlabFreeSamples.
